(** * Spark event-log analyzer: per-execution breakdown

    A shallow embedding of [spark_eventlog_analyze.py].  The program
    streams JSON-lines event logs, builds the mapping chain
    task -> stage -> job -> SQL execution, keeps one task record per
    (stageId, taskId), and finally aggregates one row per execution.

    Layout of this file:
    - [Py]      the fragment of the Python runtime the script relies on
                (exceptions, JSON values, truthiness, [int()], [str.strip]);
    - [ODict]   insertion-ordered dictionaries (Python [dict] where the
                iteration order is observable);
    - the helpers of the script ([_g], [_norm_properties], [_as_int], ...);
    - the correlation context and the streaming loop;
    - attribution, aggregation, sorting, [main];
    - the properties. *)

From Stdlib Require Import ZArith String Ascii List Bool Lia.
From Stdlib Require Import Sorting.Sorted Sorting.Permutation.
From Stdlib Require Import Floats.PrimFloat Floats.SpecFloat Floats.FloatOps.
From stdpp Require Import gmap strings list.

#[local] Set Warnings "-register-all".

Local Open Scope string_scope.
Local Open Scope Z_scope.

(** ** The Python runtime, as far as the script uses it *)

Module Py.

(** The exceptions the script can let escape.  The analysis lets three
    escape ([AttributeError], [TypeError], [OverflowError]); everything
    else it may raise is caught by an [except Exception] on the spot.
    Opening the destination and writing the table can raise [OSError]
    (a path that cannot be opened, a closed pipe), [UnicodeEncodeError]
    (a str that the encoding cannot write) and [ValueError] (an int with
    more digits than the conversion to str allows). *)
Inductive exn : Type :=
| AttributeError
| TypeError
| OverflowError
| OSError
| UnicodeEncodeError
| ValueError.

Inductive result (A : Type) : Type :=
| Ok (a : A)
| Raise (e : exn).
Arguments Ok {A} a.
Arguments Raise {A} e.

Definition bind {A B} (m : result A) (k : A -> result B) : result B :=
  match m with
  | Ok a => k a
  | Raise e => Raise e
  end.

Definition is_ok {A} (m : result A) : bool :=
  match m with Ok _ => true | Raise _ => false end.

(** What [json.loads] returns.  A character of a [string] stands for a
    code point below 256; the keys of a [JObj] are pairwise distinct, as
    in a Python [dict], and listed in insertion order. *)
Inductive json : Type :=
| JNull
| JBool (b : bool)
| JInt (z : Z)
| JFloat (f : float)
| JStr (s : string)
| JArr (l : list json)
| JObj (kvs : list (string * json)).

(** Truth value of an object, as [if x], [not x] and [x or y] see it. *)
Definition truthy (v : json) : bool :=
  match v with
  | JNull => false
  | JBool b => b
  | JInt z => negb (Z.eqb z 0)
  | JFloat f => negb (PrimFloat.eqb f 0%float)
  | JStr s => negb (String.eqb s "")
  | JArr l => match l with [] => false | _ => true end
  | JObj kvs => match kvs with [] => false | _ => true end
  end.

(** [x or y] *)
Definition or_else (x y : json) : json := if truthy x then x else y.

(** [k in d] and [d[k]] for a dict [d]. *)
Fixpoint dict_get (kvs : list (string * json)) (k : string) : option json :=
  match kvs with
  | [] => None
  | (k', v) :: rest => if String.eqb k' k then Some v else dict_get rest k
  end.

(** *** Strings *)

(** [str.isspace] on code points below 256. *)
Definition isspace (c : ascii) : bool :=
  let n := N_of_ascii c in
  ((9 <=? n) && (n <=? 13) || (28 <=? n) && (n <=? 32)
   || (n =? 133) || (n =? 160))%N.

Fixpoint lstrip_with (sp : ascii -> bool) (s : string) : string :=
  match s with
  | String c s' => if sp c then lstrip_with sp s' else s
  | EmptyString => EmptyString
  end.

Fixpoint rstrip_with (sp : ascii -> bool) (s : string) : string :=
  match s with
  | String c s' =>
      match rstrip_with sp s' with
      | EmptyString => if sp c then EmptyString else String c EmptyString
      | r => String c r
      end
  | EmptyString => EmptyString
  end.

(** [s.strip()] *)
Definition strip (s : string) : string :=
  rstrip_with isspace (lstrip_with isspace s).

(** [str.lower] on code points below 256: A-Z and the Latin-1 capitals. *)
Definition lower_char (c : ascii) : ascii :=
  let n := N_of_ascii c in
  if ((65 <=? n) && (n <=? 90)
      || (192 <=? n) && (n <=? 222) && negb (n =? 215))%N
  then ascii_of_N (n + 32) else c.

Fixpoint lower (s : string) : string :=
  match s with
  | String c s' => String (lower_char c) (lower s')
  | EmptyString => EmptyString
  end.

Fixpoint prefixb (p s : string) : bool :=
  match p, s with
  | EmptyString, _ => true
  | String a p', String b s' => Ascii.eqb a b && prefixb p' s'
  | String _ _, EmptyString => false
  end.

(** [needle in s] for strings. *)
Fixpoint contains (needle s : string) : bool :=
  prefixb needle s
  || match s with
     | String _ s' => contains needle s'
     | EmptyString => false
     end.

(** [needle in str(v)], for a needle without quote or backslash that
    starts with a character no escape sequence contains (such as
    ["Success"]): [str] of a number, of [True], [False] or [None] has no
    capital S or o; in the [repr] of a list or dict every string (key or
    value) appears between quotes with its plain characters unchanged, and
    every escape starts with a backslash.  So the needle occurs in the
    printed form exactly when it occurs in one of the strings inside. *)
Fixpoint str_contains (needle : string) (v : json) : bool :=
  match v with
  | JStr s => contains needle s
  | JArr l =>
      (fix any (l : list json) : bool :=
         match l with
         | [] => false
         | x :: l' => str_contains needle x || any l'
         end) l
  | JObj kvs =>
      (fix any (kvs : list (string * json)) : bool :=
         match kvs with
         | [] => false
         | (k, x) :: kvs' =>
             contains needle k || str_contains needle x || any kvs'
         end) kvs
  | _ => false
  end.

(** *** Numbers *)

(** Conversion of an [int] to a [float] (binary64, round to nearest even);
    [None] is [OverflowError: int too large to convert to float]. *)
Definition float_of_int (z : Z) : option float :=
  match binary_normalize prec emax z 0 false with
  | S754_infinity _ => None
  | sf => Some (SF2Prim sf)
  end.

(** [int(f)] for a float: truncation towards zero; [None] for [nan]
    ([ValueError]) and the infinities ([OverflowError]). *)
Definition int_of_float (f : float) : option Z :=
  match Prim2SF f with
  | S754_zero _ => Some 0
  | S754_finite s m e =>
      let a := if 0 <=? e then Z.pos m * 2 ^ e else Z.pos m / 2 ^ (- e) in
      Some (if s then - a else a)
  | S754_infinity _ | S754_nan => None
  end.

(** The blanks [int()] skips around a numeral: the C-locale spaces and,
    above the ASCII range, the Unicode spaces. *)
Definition int_space (c : ascii) : bool :=
  let n := N_of_ascii c in
  ((9 <=? n) && (n <=? 13) || (n =? 32) || (n =? 133) || (n =? 160))%N.

Definition digit_of (c : ascii) : option Z :=
  let n := N_of_ascii c in
  if ((48 <=? n) && (n <=? 57))%N then Some (Z.of_N n - 48) else None.

(** Digits with single underscores between them; [acc] is the value read
    so far and [after_digit] tells whether the last character was a digit
    (an underscore must sit between two digits). *)
Fixpoint int_digits (s : string) (acc : Z) (after_digit : bool) : option Z :=
  match s with
  | EmptyString => if after_digit then Some acc else None
  | String c s' =>
      match digit_of c with
      | Some d => int_digits s' (10 * acc + d) true
      | None =>
          if Ascii.eqb c "_"%char
          then (if after_digit then int_digits s' acc false else None)
          else None
      end
  end.

(** The number of digits of a numeral; underscores do not count, leading
    zeros do. *)
Fixpoint count_digits (s : string) : Z :=
  match s with
  | EmptyString => 0
  | String c s' =>
      (match digit_of c with Some _ => 1 | None => 0 end) + count_digits s'
  end.

(** The limit of the conversion between str and int
    ([sys.get_int_max_str_digits()]), at its default; the script does not
    change it. *)
Definition max_str_digits : Z := 4300.

(** A numeral without its sign: [None] is [ValueError], for a text that
    is not a numeral and for a numeral of more than [max_str_digits]
    digits. *)
Definition int_numeral (s : string) : option Z :=
  if max_str_digits <? count_digits s then None else int_digits s 0 false.

(** [int(s)] for a string, base 10; [None] is [ValueError]. *)
Definition int_of_str (s : string) : option Z :=
  match rstrip_with int_space (lstrip_with int_space s) with
  | String "-" s' => option_map Z.opp (int_numeral s')
  | String "+" s' => int_numeral s'
  | s' => int_numeral s'
  end.

(** [int(x)]; [None] when it raises ([TypeError], [ValueError] or
    [OverflowError], all of them subclasses of [Exception]). *)
Definition int (x : json) : option Z :=
  match x with
  | JInt z => Some z
  | JBool b => Some (if b then 1 else 0)
  | JFloat f => int_of_float f
  | JStr s => int_of_str s
  | JNull | JArr _ | JObj _ => None
  end.

(** [x.strip()] as a method call: only a str has the method. *)
Definition strip_method (x : json) : result string :=
  match x with
  | JStr s => Ok (strip s)
  | _ => Raise AttributeError
  end.

(** [x == s] for a str literal [s]. *)
Definition eq_str (x : json) (s : string) : bool :=
  match x with
  | JStr s' => String.eqb s' s
  | _ => false
  end.

(** [x is None] *)
Definition is_none (x : json) : bool :=
  match x with JNull => true | _ => false end.

(** What a [for] loop or a comprehension iterates over: the items of a
    list, the characters of a str, the keys of a dict; other objects are
    not iterable. *)
Fixpoint chars (s : string) : list json :=
  match s with
  | String c s' => JStr (String c EmptyString) :: chars s'
  | EmptyString => []
  end.

Definition iter (v : json) : result (list json) :=
  match v with
  | JArr l => Ok l
  | JStr s => Ok (chars s)
  | JObj kvs => Ok (map (fun kv => JStr (fst kv)) kvs)
  | JNull | JBool _ | JInt _ | JFloat _ => Raise TypeError
  end.

End Py.

Import Py.

#[global] Instance result_ret : MRet Py.result := @Py.Ok.
#[global] Instance result_bind : MBind Py.result :=
  fun A B k m => Py.bind m k.

(** Monadic left fold: a [for] loop whose body may raise. *)
Fixpoint foldM {A B} (f : A -> B -> Py.result A) (a : A) (l : list B)
  : Py.result A :=
  match l with
  | [] => Ok a
  | x :: l' => a' ← f a x; foldM f a' l'
  end.

(** ** Insertion-ordered dictionaries

    A Python [dict] iterates in the order in which its keys were first
    inserted; assigning to a key that is present keeps its position. *)

Module ODict.
Section Ops.
Context {K V : Type} `{EqDecision K}.

(** [d.get(k)] *)
Fixpoint get (d : list (K * V)) (k : K) : option V :=
  match d with
  | [] => None
  | (k', v) :: d' => if decide (k' = k) then Some v else get d' k
  end.

(** [d[k] = v] *)
Fixpoint set (d : list (K * V)) (k : K) (v : V) : list (K * V) :=
  match d with
  | [] => [(k, v)]
  | (k', v') :: d' =>
      if decide (k' = k) then (k, v) :: d' else (k', v') :: set d' k v
  end.

(** [d.values()] *)
Definition values (d : list (K * V)) : list V := map snd d.

(** [d.items()] *)
Definition items (d : list (K * V)) : list (K * V) := d.

End Ops.
End ODict.

(** ** Records of the script *)

(** [t_rec], the dict stored per task. *)
Module TaskRec.
Record t : Type := mk {
  stageId : Z;
  taskId : option Z;
  launch : option Z;
  finish : option Z;
  duration_ms : Z;
  run_ms : Z;
  cpu_ms : float;
  deserialize_ms : Z;
  result_serialize_ms : Z;
  gc_ms : Z;
  shuffle_fetch_wait_ms : Z;
  shuffle_write_time_ms : float;
  shuffle_read_bytes : Z;
  shuffle_write_bytes : Z;
  input_bytes : Z;
  output_bytes : Z;
  success : bool
}.
End TaskRec.

(** The dict kept per execution in [exec_info]; a field is [None] while
    its key has not been set. *)
Module ExecInfo.
Record t : Type := mk {
  description : option string;
  details : option json;
  startTime : option (option Z);
  endTime : option (option Z)
}.
Definition empty : t := mk None None None None.
End ExecInfo.

(** One result dict of [analyze_sql_breakdown].  [executionId] is read
    back with [r.get("executionId")], hence the option. *)
Module ResultRow.
Record t : Type := mk {
  executionId : option Z;
  description : string;
  num_jobs : nat;
  num_tasks : nat;
  makespan_ms : option Z;
  task_slot_ms : Z;
  executor_run_ms : Z;
  executor_cpu_ms : float;
  cpu_vs_wall_pct : option float;
  deserialize_ms : Z;
  result_serialize_ms : Z;
  gc_ms : Z;
  shuffle_fetch_wait_ms : Z;
  shuffle_write_time_ms : float;
  input_bytes : Z;
  output_bytes : Z;
  shuffle_read_bytes : Z;
  shuffle_write_bytes : Z
}.
End ResultRow.

(** The maps built while streaming. *)
Record ctx : Type := mk_ctx {
  exec_info : gmap Z ExecInfo.t;
  exec_jobs : gmap Z (gset Z);
  job_exec : gmap Z Z;
  stage_job : gmap Z Z;
  tasks_by_key : list ((Z * option Z) * TaskRec.t)
}.

Definition empty_ctx : ctx := mk_ctx ∅ ∅ ∅ ∅ [].

(** ** Test vectors

    Events in the shapes Spark writes them (the legacy spelling with
    spaces) and in the compact spelling the script accepts as well, and a
    table-driven stand-in for [json.loads] on labelled lines. *)

Module Sample.

Inductive spelling : Type := Legacy | Compact.

Definition job_start (sp : spelling) (jobId : Z) (stages : list Z)
    (exid : string) : json :=
  match sp with
  | Legacy =>
      JObj [("Event", JStr "SparkListenerJobStart"); ("Job ID", JInt jobId);
            ("Stage IDs", JArr (map JInt stages));
            ("Properties", JObj [("spark.sql.execution.id", JStr exid)])]
  | Compact =>
      JObj [("event", JStr "SparkListenerJobStart"); ("jobId", JInt jobId);
            ("stageIds", JArr (map JInt stages));
            ("properties",
             JArr [JObj [("key", JStr "spark.sql.execution.id");
                         ("value", JStr exid)]])]
  end.

Definition sql_start (sp : spelling) (exid : Z) (desc : string) : json :=
  match sp with
  | Legacy =>
      JObj [("Event",
             JStr "org.apache.spark.sql.execution.ui.SparkListenerSQLExecutionStart");
            ("executionId", JInt exid); ("description", JStr desc)]
  | Compact =>
      JObj [("event", JStr "SparkListenerSQLExecutionStart");
            ("Execution ID", JInt exid); ("Description", JStr desc)]
  end.

(** A task-end event; [times] and [metrics] are given in the legacy
    spelling and [reason] is the end reason. *)
Definition task_end (stage task : Z) (times metrics : list (string * json))
    (reason : string) : json :=
  JObj [("Event", JStr "SparkListenerTaskEnd"); ("Stage ID", JInt stage);
        ("Task End Reason", JObj [("Reason", JStr reason)]);
        ("Task Info", JObj (("Task ID", JInt task) :: times));
        ("Task Metrics", JObj metrics)].

(** The successful task of the end-to-end scenario, in either spelling. *)
Definition scenario_task (sp : spelling) : json :=
  match sp with
  | Legacy =>
      task_end 1 0 [("Launch Time", JInt 1000); ("Finish Time", JInt 1500)]
        [("Executor Run Time", JInt 400); ("Executor CPU Time", JInt 300000000)]
        "Success"
  | Compact =>
      JObj [("event", JStr "SparkListenerTaskEnd"); ("stageId", JInt 1);
            ("taskInfo", JObj [("taskId", JInt 0); ("launchTime", JInt 1000);
                               ("finishTime", JInt 1500)]);
            ("taskMetrics", JObj [("executorRunTime", JInt 400);
                                  ("executorCpuTime", JInt 300000000)])]
  end.

(** The row the end-to-end scenario must produce. *)
Definition scenario_row : ResultRow.t :=
  ResultRow.mk (Some 7) "benchmark q1-v2.4" 1 1 (Some 500) 500 400
    300%float (Some 75%float) 0 0 0 0 0%float 0 0 0 0.

(** Task ends used below: one that never reports a finish time, one that
    starts later and finishes, two failures of the same task, a success of
    that task, and one with a negative run time. *)
Definition unfinished_task : json :=
  task_end 1 0 [("Launch Time", JInt 100)]
    [("Executor Run Time", JInt 50)] "Success".

Definition late_task : json :=
  task_end 1 1 [("Launch Time", JInt 500); ("Finish Time", JInt 600)]
    [("Executor Run Time", JInt 90)] "Success".

Definition first_failure : json :=
  task_end 1 0 [("Launch Time", JInt 1000); ("Finish Time", JInt 1010)]
    [("Executor Run Time", JInt 10)] "ExceptionFailure".

Definition second_failure : json :=
  task_end 1 0 [("Launch Time", JInt 2000); ("Finish Time", JInt 2020)]
    [("Executor Run Time", JInt 20)] "ExceptionFailure".

Definition retry_success : json :=
  task_end 1 0 [("Launch Time", JInt 3000); ("Finish Time", JInt 3030)]
    [("Executor Run Time", JInt 30)] "Success".

Definition negative_run_task : json :=
  task_end 1 0 [("Launch Time", JInt 1000); ("Finish Time", JInt 1500)]
    [("Executor Run Time", JInt (-5)); ("Executor CPU Time", JInt 2000000)]
    "Success".

(** Labelled lines and what they decode to; any other line fails to
    decode. *)
Definition lines : list (string * json) :=
  [("job 5 -> execution 7", job_start Legacy 5 [1] "7");
   ("job 5 -> execution 7 (compact)", job_start Compact 5 [1] "7");
   ("start of execution 7", sql_start Legacy 7 "benchmark q1-v2.4");
   ("task 0 of stage 1", scenario_task Legacy);
   ("task 0 unfinished", unfinished_task);
   ("task 1 late", late_task);
   ("task 0 fails", first_failure);
   ("task 0 fails again", second_failure);
   ("task 0 succeeds", retry_success);
   ("task 0 negative run time", negative_run_task);
   ("job 1 -> execution 0", job_start Legacy 1 [10] "0");
   ("job 2 -> execution -1", job_start Legacy 2 [20] "-1");
   ("task of stage 10", task_end 10 0 [] [] "Success");
   ("task of stage 20", task_end 20 0 [] [] "Success")].

Definition json_loads (line : string) : option json := dict_get lines line.

(** No str is a number here. *)
Definition float_of_str (s : string) : option PrimFloat.float := None.

(** A record of stage 1 and a row, with the sub-metrics at zero. *)
Definition rec (task : Z) (launch finish : option Z) (duration run : Z)
    (cpu : PrimFloat.float) (success : bool) : TaskRec.t :=
  TaskRec.mk 1 (Some task) launch finish duration run cpu
    0 0 0 0 0%float 0 0 0 0 success.

Definition row (exid : option Z) (desc : string) (jobs tasks : nat)
    (makespan : option Z) (slot run : Z) (cpu : PrimFloat.float)
    (pct : option PrimFloat.float) : ResultRow.t :=
  ResultRow.mk exid desc jobs tasks makespan slot run cpu pct
    0 0 0 0 0%float 0 0 0 0.

(** The records the task ends above yield. *)
Definition scenario_rec : TaskRec.t :=
  rec 0 (Some 1000) (Some 1500) 500 400 300%float true.
Definition unfinished_rec : TaskRec.t :=
  rec 0 (Some 100) None 50 50 0%float true.
Definition late_rec : TaskRec.t :=
  rec 1 (Some 500) (Some 600) 100 90 0%float true.
Definition first_failure_rec : TaskRec.t :=
  rec 0 (Some 1000) (Some 1010) 10 10 0%float false.
Definition second_failure_rec : TaskRec.t :=
  rec 0 (Some 2000) (Some 2020) 20 20 0%float false.
Definition retry_success_rec : TaskRec.t :=
  rec 0 (Some 3000) (Some 3030) 30 30 0%float true.
Definition negative_run_rec : TaskRec.t :=
  rec 0 (Some 1000) (Some 1500) 500 (-5) 2%float true.

(** The group of the unfinished and the late task, and its row. *)
Definition gap_tasks : list TaskRec.t := [unfinished_rec; late_rec].
Definition gap_row : ResultRow.t :=
  row (Some 7) "" 1 2 (Some 500) 150 140 0%float (Some 0%float).

(** The row of the task with the negative run time. *)
Definition negative_run_row : ResultRow.t :=
  row (Some 7) "" 1 1 (Some 500) 500 (-5) 2%float None.

(** The logs used below. *)
Definition scenario_log : list (list string) :=
  [["task 0 of stage 1"; ""; "start of execution 7"];
   ["not json"; "job 5 -> execution 7 (compact)"]].
Definition gap_log : list (list string) :=
  [["job 5 -> execution 7"; "task 0 unfinished"; "task 1 late"]].
Definition failures_log : list string :=
  ["task 0 fails"; "task 0 fails again"].
Definition negative_run_log : list (list string) :=
  [["job 5 -> execution 7"; "task 0 negative run time"]].
Definition zero_and_minus_one_log : list (list string) :=
  [["job 1 -> execution 0"; "job 2 -> execution -1";
    "task of stage 10"; "task of stage 20"]].
Definition no_start_log : list (list string) :=
  [["job 5 -> execution 7"]; ["task 0 of stage 1"]].

(** The contexts the logs are read into. *)
Definition attempts_log : list (list string) :=
  [failures_log; ["task 0 succeeds"]].

Definition job_ctx : ctx :=
  mk_ctx ∅ {[7 := {[5]}]} {[5 := 7]} {[1 := 5]} [].

Definition gap_ctx : ctx :=
  mk_ctx ∅ {[7 := {[5]}]} {[5 := 7]} {[1 := 5]}
    [((1, Some 0), unfinished_rec); ((1, Some 1), late_rec)].

Definition joined_ctx : ctx :=
  mk_ctx ∅ {[7 := {[5]}]} {[5 := 7]} {[1 := 5]} [((1, Some 0), scenario_rec)].

Definition scenario_ctx : ctx :=
  mk_ctx {[7 := ExecInfo.mk (Some "benchmark q1-v2.4") (Some (JStr "")) None None]}
    {[7 := {[5]}]} {[5 := 7]} {[1 := 5]} [((1, Some 0), scenario_rec)].

Definition attempts_ctx : ctx :=
  mk_ctx ∅ ∅ ∅ ∅ [((1, Some 0), retry_success_rec)].

(** An execution start whose description is a number. *)
Definition numeric_description : json :=
  JObj [("Event", JStr "SparkListenerSQLExecutionStart");
        ("executionId", JInt 1); ("description", JInt 5)].

(** A task whose executor run time is beyond the range of a double, and
    a context that attributes it to execution 7. *)
Definition huge_run_rec : TaskRec.t :=
  rec 0 (Some 1000) (Some 1500) 500 (2 ^ 1024) 0%float true.

Definition huge_run_ctx : ctx :=
  mk_ctx ∅ {[7 := {[5]}]} {[5 := 7]} {[1 := 5]} [((1, Some 0), huge_run_rec)].


Definition textual_cpu_task : json :=
  task_end 1 0 [] [("Executor CPU Time", JStr "abc")] "Success".

(** Destinations: one where opening and writing succeed, and a file
    system that has no directory [/nonexistent-dir]. *)
Definition writable (dest : option string) (rows : list ResultRow.t)
  : option exn := None.


(** A numeral of [n] digits. *)
Fixpoint ones (n : nat) : string :=
  match n with
  | O => EmptyString
  | S n' => String "1" (ones n')
  end.

End Sample.

(** ** The comparison tool: file names

    [tpcds_eventlog_compare.py] reads the tables the analyzer wrote from
    files named config-run.csv.  Its data-frame and plotting code is
    outside this development; the two pure steps of its [main] are
    modelled: splitting a file name and choosing the two configurations.
    A path is represented by its stem (the file name without its last
    suffix), and [None] stands for the [ValueError] the script raises. *)

Module Compare.

(** [stem.rsplit("-", 1)] when the stem has a dash: the text before the
    last dash and the text after it; [None] when it has none (the list
    then has one element and cannot be unpacked into two names). *)
Fixpoint rsplit_dash (s : string) : option (string * string) :=
  match s with
  | EmptyString => None
  | String c s' =>
      match rsplit_dash s' with
      | Some (h, t) => Some (String c h, t)
      | None => if Ascii.eqb c "-"%char then Some (EmptyString, s') else None
      end
  end.

(** [split_filename(path)], on the stem of [path]. *)
Definition split_filename (stem : string) : option (string * Z) :=
  match rsplit_dash stem with
  | Some (config, run) =>
      match Py.int_of_str run with
      | Some n => Some (config, n)
      | None => None
      end
  | None => None
  end.

(** The baseline and the target as [main] chooses them from the stems of
    its arguments: the baseline is the configuration of the first file,
    the target the other one of the two configurations found.  (The
    argument parser guarantees at least one file.) *)
Definition select_configs (stems : list string) : option (string * string) :=
  match stems with
  | [] => None
  | first :: _ =>
      match split_filename first, mapM split_filename stems with
      | Some (baseline, _), Some splits =>
          let configs : gset string := list_to_set (map fst splits) in
          if (size configs =? 2)%nat
          then
            match elements (configs ∖ {[baseline]}) with
            | target :: _ => Some (baseline, target)
            | [] => None
            end
          else None
      | _, _ => None
      end
  end.

(** The text has a dash. *)
Fixpoint has_dash (s : string) : bool :=
  match s with
  | EmptyString => false
  | String c s' => Ascii.eqb c "-"%char || has_dash s'
  end.

End Compare.

(** ** The analyzer *)

Section Analyzer.

(** [json.loads] on one line of text; [None] when it raises. *)
Variable json_loads : string -> option json.

(** [float(s)] for a str; [None] when it raises. *)
Variable float_of_str : string -> option float.

(** Opening the destination ([None] is the standard output) and
    [write_csv] on it: [None] when both succeed, the exception that
    escapes otherwise.  It depends on the file system and on the rows. *)
Variable write_destination : option string -> list ResultRow.t -> option exn.

(** *** Helpers *)

(** [_g(d, *keys, default=...)]: the first of [keys] present in [d]. *)
Fixpoint _g (d : json) (keys : list string) (dflt : json) : json :=
  match keys with
  | [] => dflt
  | k :: keys' =>
      match d with
      | JObj kvs =>
          match dict_get kvs k with
          | Some v => v
          | None => _g d keys' dflt
          end
      | _ => _g d keys' dflt
      end
  end.

(** The value stored for one entry of a dict-shaped property bag. *)
Definition unwrap_value (v : json) : json :=
  match v with
  | JObj kvs =>
      match dict_get kvs "value" with
      | Some x => if (length kvs =? 1)%nat then x else v
      | None => v
      end
  | _ => v
  end.

(** One step of the loop over a list-shaped property bag.  A key that is
    a list or a dict cannot be hashed.  A key that is a number or a bool
    is stored by the script, but never equals the str the script looks
    up afterwards, so the model keeps the str keys only. *)
Definition norm_pair (out : gmap string json) (p : json)
  : Py.result (gmap string json) :=
  match p with
  | JObj kvs =>
      let k := default JNull (dict_get kvs "key") in
      let v := default JNull (dict_get kvs "value") in
      match k with
      | JNull => Ok out
      | JStr s => Ok (<[s := v]> out)
      | JBool _ | JInt _ | JFloat _ => Ok out
      | JArr _ | JObj _ => Raise TypeError
      end
  | _ => Ok out
  end.

(** [_norm_properties(props)] *)
Definition _norm_properties (props : json) : Py.result (gmap string json) :=
  if negb (truthy props) then Ok ∅
  else
    match props with
    | JObj kvs =>
        Ok (fold_left (fun out kv => <[fst kv := unwrap_value (snd kv)]> out)
                      kvs ∅)
    | JArr l => foldM norm_pair ∅ l
    | _ => Ok ∅
    end.

(** [float(x)]; [None] when it raises. *)
Definition py_float (x : json) : option PrimFloat.float :=
  match x with
  | JInt z => float_of_int z
  | JBool b => Some (if b then 1%float else 0%float)
  | JFloat f => Some f
  | JStr s => float_of_str s
  | JNull | JArr _ | JObj _ => None
  end.

(** [_ms_from_ns(ns_val)] *)
Definition _ms_from_ns (ns_val : json) : PrimFloat.float :=
  match py_float ns_val with
  | Some f => PrimFloat.div f 1e6%float
  | None => 0%float
  end.

(** [_as_int(x, default=None)] *)
Definition _as_int (x : json) (dflt : option Z) : option Z :=
  match int x with
  | Some z => Some z
  | None => dflt
  end.

(** [_as_int(x, default=0)] *)
Definition _as_int0 (x : json) : Z := default 0 (_as_int x (Some 0)).

(** [_success_from_task_end(ev)] *)
Definition _success_from_task_end (ev : json) : bool :=
  let r := _g ev ["Task End Reason"; "taskEndReason"] JNull in
  match r with
  | JNull => true
  | JStr s => String.eqb (lower s) "success"
  | _ =>
      let fallback :=
        str_contains "Success" r || str_contains "org.apache.spark.Success" r in
      match r with
      | JObj _ =>
          match _g r ["Reason"; "reason"] JNull with
          | JStr reason => String.eqb (lower reason) "success"
          | _ => fallback
          end
      | _ => fallback
      end
  end.

(** *** The streaming loop *)

Definition is_sql_start (et : json) : bool :=
  eq_str et "org.apache.spark.sql.execution.ui.SparkListenerSQLExecutionStart"
  || eq_str et "SparkListenerSQLExecutionStart".

Definition is_sql_end (et : json) : bool :=
  eq_str et "org.apache.spark.sql.execution.ui.SparkListenerSQLExecutionEnd"
  || eq_str et "SparkListenerSQLExecutionEnd".

(** The branch for [SparkListenerSQLExecutionStart]. *)
Definition on_sql_start (c : ctx) (ev : json) : Py.result ctx :=
  match _as_int (_g ev ["executionId"; "Execution ID"] JNull) None with
  | None => Ok c
  | Some exid =>
      let info := default ExecInfo.empty (exec_info c !! exid) in
      desc ← strip_method
               (or_else (_g ev ["description"; "Description"] (JStr ""))
                        (JStr ""));
      let det := _g ev ["details"; "Details"] (JStr "") in
      let st := _g ev ["time"; "Time"; "startTime"; "Start Time"] JNull in
      let info' :=
        ExecInfo.mk (Some desc) (Some det)
          (if is_none st then ExecInfo.startTime info
           else Some (_as_int st None))
          (ExecInfo.endTime info) in
      Ok (mk_ctx (<[exid := info']> (exec_info c)) (exec_jobs c)
                 (job_exec c) (stage_job c) (tasks_by_key c))
  end.

(** The branch for [SparkListenerSQLExecutionEnd]. *)
Definition on_sql_end (c : ctx) (ev : json) : ctx :=
  match _as_int (_g ev ["executionId"; "Execution ID"] JNull) None with
  | None => c
  | Some exid =>
      let ex := default ExecInfo.empty (exec_info c !! exid) in
      let en := _g ev ["time"; "Time"; "endTime"; "End Time"] JNull in
      let ex' :=
        if is_none en then ex
        else ExecInfo.mk (ExecInfo.description ex) (ExecInfo.details ex)
                         (ExecInfo.startTime ex) (Some (_as_int en None)) in
      mk_ctx (<[exid := ex']> (exec_info c)) (exec_jobs c)
             (job_exec c) (stage_job c) (tasks_by_key c)
  end.

(** The stage ids a job-start event lists. *)
Definition job_stage_ids (ev : json) : Py.result (list (option Z)) :=
  let stage_ids := _g ev ["Stage IDs"; "stageIds"] JNull in
  if is_none stage_ids then
    let infos := or_else (_g ev ["Stage Infos"; "stageInfos"] (JArr []))
                         (JArr []) in
    sis ← iter infos;
    Ok (filter (fun sid => is_Some sid)
          (map (fun si => _as_int (_g si ["Stage ID"; "stageId"] JNull) None)
               sis))
  else
    ss ← iter stage_ids;
    Ok (map (fun s => _as_int s None)
            (filter (fun s => is_none s = false) ss)).

(** [for sid in stage_ids: if sid is not None: stage_job[sid] = jobId] *)
Definition set_stage_job (jobId : Z) (m : gmap Z Z) (sid : option Z)
  : gmap Z Z :=
  match sid with
  | Some s => <[s := jobId]> m
  | None => m
  end.

(** The branch for [SparkListenerJobStart]. *)
Definition on_job_start (c : ctx) (ev : json) : Py.result ctx :=
  match _as_int (_g ev ["Job ID"; "jobId"] JNull) None with
  | None => Ok c
  | Some jobId =>
      stage_ids ← job_stage_ids ev;
      props ← _norm_properties (_g ev ["Properties"; "properties"] (JObj []));
      let exid_str := default JNull (props !! "spark.sql.execution.id") in
      let '(job_exec', exec_jobs') :=
        if is_none exid_str then (job_exec c, exec_jobs c)
        else
          match int exid_str with
          | Some exid =>
              (<[jobId := exid]> (job_exec c),
               <[exid := default ∅ (exec_jobs c !! exid) ∪ {[jobId]}]>
                 (exec_jobs c))
          | None => (job_exec c, exec_jobs c)
          end in
      Ok (mk_ctx (exec_info c) exec_jobs' job_exec'
                 (fold_left (set_stage_job jobId) stage_ids (stage_job c))
                 (tasks_by_key c))
  end.

(** [metrics] and [cpu_ns] of a task-end event. *)
Definition task_metrics (ev : json) : json :=
  or_else (_g ev ["Task Metrics"; "taskMetrics"; "TaskMetrics"] (JObj []))
          (JObj []).

Definition cpu_ns (ev : json) : Z :=
  _as_int0 (_g (task_metrics ev) ["Executor CPU Time"; "executorCpuTime"] (JInt 0)).

(** The record a [SparkListenerTaskEnd] event yields, with its key. *)
Definition task_record (stageId : Z) (ev : json)
  : Py.result ((Z * option Z) * TaskRec.t) :=
  let taskInfo :=
    or_else (_g ev ["Task Info"; "taskInfo"; "TaskInfo"] (JObj [])) (JObj []) in
  let metrics := task_metrics ev in
  let task_id := _as_int (_g taskInfo ["Task ID"; "taskId"; "TaskId"] JNull) None in
  let key := (stageId, task_id) in
  let launch := _g taskInfo ["Launch Time"; "launchTime"] JNull in
  let finish := _g taskInfo ["Finish Time"; "finishTime"] JNull in
  let launch_i := if is_none launch then None else _as_int launch None in
  let finish_i := if is_none finish then None else _as_int finish None in
  let duration_ms :=
    match launch_i, finish_i with
    | Some l, Some f => Z.max 0 (f - l)
    | _, _ => _as_int0 (_g metrics ["Executor Run Time"; "executorRunTime"] (JInt 0))
    end in
  let run_ms := _as_int0 (_g metrics ["Executor Run Time"; "executorRunTime"] (JInt 0)) in
  match float_of_int (cpu_ns ev) with
  | None => Raise OverflowError
  | Some cpu_f =>
      let cpu_ms := PrimFloat.div cpu_f 1e6%float in
      let deser_ms :=
        _as_int0 (_g metrics ["Executor Deserialize Time"; "executorDeserializeTime"]
                     (JInt 0)) in
      let result_ser_ms :=
        _as_int0 (_g metrics ["Result Serialization Time"; "resultSerializationTime"]
                     (JInt 0)) in
      let gc_ms :=
        _as_int0 (_g metrics ["JVM GC Time"; "JvmGcTime"; "jvmGcTime"] (JInt 0)) in
      let shuffle_read :=
        or_else (_g metrics ["Shuffle Read Metrics"; "shuffleReadMetrics"] (JObj []))
                (JObj []) in
      let shuffle_write :=
        or_else (_g metrics ["Shuffle Write Metrics"; "shuffleWriteMetrics"] (JObj []))
                (JObj []) in
      let input_metrics :=
        or_else (_g metrics ["Input Metrics"; "inputMetrics"] (JObj [])) (JObj []) in
      let output_metrics :=
        or_else (_g metrics ["Output Metrics"; "outputMetrics"] (JObj [])) (JObj []) in
      let shuffle_fetch_wait_ms :=
        _as_int0 (_g shuffle_read ["Fetch Wait Time"; "fetchWaitTime"] (JInt 0)) in
      let shuffle_read_bytes :=
        _as_int0 (_g shuffle_read ["Remote Bytes Read"; "remoteBytesRead"] (JInt 0))
        + _as_int0 (_g shuffle_read ["Local Bytes Read"; "localBytesRead"] (JInt 0)) in
      let shuffle_write_time_ms :=
        _ms_from_ns (_g shuffle_write ["Write Time"; "writeTime"] (JInt 0)) in
      let shuffle_write_bytes :=
        _as_int0 (_g shuffle_write ["Bytes Written"; "bytesWritten"] (JInt 0)) in
      let input_bytes :=
        _as_int0 (_g input_metrics ["Bytes Read"; "bytesRead"] (JInt 0)) in
      let output_bytes :=
        _as_int0 (_g output_metrics ["Bytes Written"; "bytesWritten"] (JInt 0)) in
      let success := _success_from_task_end ev in
      Ok (key,
          TaskRec.mk stageId task_id launch_i finish_i duration_ms run_ms cpu_ms
            deser_ms result_ser_ms gc_ms shuffle_fetch_wait_ms
            shuffle_write_time_ms shuffle_read_bytes shuffle_write_bytes
            input_bytes output_bytes success)
  end.

(** The Task Store update:
    [prev = tasks_by_key.get(key)]
    [if prev is None or (not prev.get("success") and success): tasks_by_key[key] = t_rec] *)
Definition store_task (tasks : list ((Z * option Z) * TaskRec.t))
    (key : Z * option Z) (t_rec : TaskRec.t)
  : list ((Z * option Z) * TaskRec.t) :=
  match ODict.get tasks key with
  | None => ODict.set tasks key t_rec
  | Some prev =>
      if negb (TaskRec.success prev) && TaskRec.success t_rec
      then ODict.set tasks key t_rec
      else tasks
  end.

(** The branch for [SparkListenerTaskEnd]. *)
Definition on_task_end (c : ctx) (ev : json) : Py.result ctx :=
  match _as_int (_g ev ["Stage ID"; "stageId"] JNull) None with
  | None => Ok c
  | Some stageId =>
      kt ← task_record stageId ev;
      Ok (mk_ctx (exec_info c) (exec_jobs c) (job_exec c) (stage_job c)
                 (store_task (tasks_by_key c) (fst kt) (snd kt)))
  end.

(** The body of the loop for one decoded event. *)
Definition ingest_event (c : ctx) (ev : json) : Py.result ctx :=
  let et := _g ev ["Event"; "event"] JNull in
  if negb (truthy et) then Ok c
  else if is_sql_start et then on_sql_start c ev
  else if is_sql_end et then Ok (on_sql_end c ev)
  else if eq_str et "SparkListenerJobStart" then on_job_start c ev
  else if eq_str et "SparkListenerTaskEnd" then on_task_end c ev
  else Ok c.

(** The body of [for line in f]. *)
Definition ingest_line (c : ctx) (line : string) : Py.result ctx :=
  if String.eqb (strip line) "" then Ok c
  else
    match json_loads line with
    | None => Ok c
    | Some ev => ingest_event c ev
    end.

(** [for line in f], an opened file being the list of the lines it
    yields.  Opening and decompressing the file are not part of the
    model. *)
Definition ingest_file (c : ctx) (f : list string) : Py.result ctx :=
  foldM ingest_line c f.

(** [for path in paths] *)
Definition ingest_paths (c : ctx) (paths : list (list string)) : Py.result ctx :=
  foldM ingest_file c paths.

(** *** Attribution *)

(** [tasks_by_exec[exid].append(t)] on a [defaultdict(list)]. *)
Definition append_task (tasks_by_exec : list (Z * list TaskRec.t))
    (exid : Z) (t : TaskRec.t) : list (Z * list TaskRec.t) :=
  ODict.set tasks_by_exec exid
    (default [] (ODict.get tasks_by_exec exid) ++ [t])%list.

Definition attribute_task (c : ctx) (tasks_by_exec : list (Z * list TaskRec.t))
    (t : TaskRec.t) : list (Z * list TaskRec.t) :=
  match stage_job c !! TaskRec.stageId t with
  | None => tasks_by_exec
  | Some jobId =>
      match job_exec c !! jobId with
      | None => tasks_by_exec
      | Some exid => append_task tasks_by_exec exid t
      end
  end.

(** [tasks_by_exec] after the attribution loop. *)
Definition attribute (c : ctx) : list (Z * list TaskRec.t) :=
  fold_left (attribute_task c) (ODict.values (tasks_by_key c)) [].

(** *** Aggregation *)

(** [min(xs, default=None)] and [max(xs, default=None)] *)
Definition min_default (xs : list Z) : option Z :=
  match xs with
  | [] => None
  | x :: xs' => Some (fold_left Z.min xs' x)
  end.

Definition max_default (xs : list Z) : option Z :=
  match xs with
  | [] => None
  | x :: xs' => Some (fold_left Z.max xs' x)
  end.

(** [sum(...)] over ints *)
Definition sum (xs : list Z) : Z := fold_left Z.add xs 0.

(** [sum(...)] over floats: additions from left to right, starting from
    the int 0 (which the first addition converts to 0.0).  This is the
    plain summation of CPython up to 3.11; the compensated summation of
    later versions is not followed. *)
Definition fsum (xs : list PrimFloat.float) : PrimFloat.float :=
  fold_left PrimFloat.add xs 0%float.

(** The "CPU vs Wall %" column. *)
Definition cpu_vs_wall (run_ms : Z) (cpu_ms : PrimFloat.float)
  : Py.result (option PrimFloat.float) :=
  if negb (Z.eqb run_ms 0) && (0 <? run_ms) then
    match float_of_int run_ms with
    | None => Raise OverflowError
    | Some f => Ok (Some (PrimFloat.mul (PrimFloat.div cpu_ms f) 100%float))
    end
  else Ok None.

(** [wall_end - wall_start] when both exist. *)
Definition makespan (ts : list TaskRec.t) : option Z :=
  let wall_start := min_default (omap TaskRec.launch ts) in
  let wall_end := max_default (omap TaskRec.finish ts) in
  match wall_start, wall_end with
  | Some s, Some e => Some (e - s)
  | _, _ => None
  end.

(** The row built for one execution and its tasks. *)
Definition aggregate_group (c : ctx) (exid : Z) (ts : list TaskRec.t)
  : Py.result ResultRow.t :=
  let makespan_ms := makespan ts in
  let task_slot_ms := sum (map TaskRec.duration_ms ts) in
  let run_ms := sum (map TaskRec.run_ms ts) in
  let cpu_ms := fsum (map TaskRec.cpu_ms ts) in
  let deser_ms := sum (map TaskRec.deserialize_ms ts) in
  let result_ser := sum (map TaskRec.result_serialize_ms ts) in
  let gc_ms := sum (map TaskRec.gc_ms ts) in
  let fetch_wait := sum (map TaskRec.shuffle_fetch_wait_ms ts) in
  let shw_time_ms := fsum (map TaskRec.shuffle_write_time_ms ts) in
  let in_bytes := sum (map TaskRec.input_bytes ts) in
  let out_bytes := sum (map TaskRec.output_bytes ts) in
  let sh_r_bytes := sum (map TaskRec.shuffle_read_bytes ts) in
  let sh_w_bytes := sum (map TaskRec.shuffle_write_bytes ts) in
  cpu_vs_wall_pct ← cpu_vs_wall run_ms cpu_ms;
  let info := default ExecInfo.empty (exec_info c !! exid) in
  let desc := strip (default "" (ExecInfo.description info)) in
  Ok (ResultRow.mk (Some exid) desc
        (size (default (∅ : gset Z) (exec_jobs c !! exid)))
        (length ts) makespan_ms task_slot_ms run_ms cpu_ms cpu_vs_wall_pct
        deser_ms result_ser gc_ms fetch_wait shw_time_ms
        in_bytes out_bytes sh_r_bytes sh_w_bytes).

(** One turn of [for exid, ts in tasks_by_exec.items()]. *)
Definition aggregate_step (c : ctx) (results : list ResultRow.t)
    (g : Z * list TaskRec.t) : Py.result (list ResultRow.t) :=
  match snd g with
  | [] => Ok results
  | _ => row ← aggregate_group c (fst g) (snd g); Ok (results ++ [row])%list
  end.

(** [results] before it is sorted. *)
Definition aggregate (c : ctx) (tasks_by_exec : list (Z * list TaskRec.t))
  : Py.result (list ResultRow.t) :=
  foldM (aggregate_step c) [] (ODict.items tasks_by_exec).

(** *** Sorting *)

(** [lambda r: r.get("executionId") or -1] *)
Definition sort_key (r : ResultRow.t) : Z :=
  match ResultRow.executionId r with
  | Some exid => if Z.eqb exid 0 then -1 else exid
  | None => -1
  end.

(** [list.sort(key=...)] is stable: rows with equal keys keep their
    order.  Insertion from the right end realises that. *)
Fixpoint insert_row (r : ResultRow.t) (l : list ResultRow.t) : list ResultRow.t :=
  match l with
  | [] => [r]
  | r' :: l' =>
      if sort_key r <=? sort_key r' then r :: l else r' :: insert_row r l'
  end.

Definition sort_rows (l : list ResultRow.t) : list ResultRow.t :=
  foldr insert_row [] l.

(** What happens once the stream is exhausted. *)
Definition finalize (c : ctx) : Py.result (list ResultRow.t) :=
  results ← aggregate c (attribute c);
  Ok (sort_rows results).

(** [analyze_sql_breakdown(paths)] *)
Definition analyze_sql_breakdown (paths : list (list string))
  : Py.result (list ResultRow.t) :=
  c ← ingest_paths empty_ctx paths;
  finalize c.

(** *** [main] *)

(** What the program does to the outside: a line on the error stream, or
    the table handed to [write_csv] for a destination ([None] is the
    standard output). *)
Inductive effect : Type :=
| PrintStderr (msg : string)
| WriteCsv (dest : option string) (fieldnames : list string)
           (rows : list ResultRow.t).

Definition fieldnames : list string :=
  ["executionId"; "description"; "num_jobs"; "num_tasks"; "makespan_ms";
   "task_slot_ms"; "executor_run_ms"; "executor_cpu_ms"; "cpu_vs_wall_pct";
   "deserialize_ms"; "result_serialize_ms"; "gc_ms"; "shuffle_fetch_wait_ms";
   "shuffle_write_time_ms"; "input_bytes"; "output_bytes";
   "shuffle_read_bytes"; "shuffle_write_bytes"].

Definition no_rows_message : string :=
  "No SQL executions found (or no mappable tasks). "
  ++ "Make sure the log contains SQL events and JobStart with spark.sql.execution.id.".

(** [args.output_file] as [if args.output_file:] reads it: an empty
    path counts as none, and the table goes to the standard output. *)
Definition destination (output_file : option string) : option string :=
  match output_file with
  | Some p => if String.eqb p "" then None else Some p
  | None => None
  end.

(** [main()], after the arguments are parsed: its effects and its return
    value ([None] when it falls off the end).  An exception of opening or
    writing the destination escapes, as one of the analysis does. *)
Definition main (eventlogs : list (list string)) (output_file : option string)
  : Py.result (list effect * option Z) :=
  rows ← analyze_sql_breakdown eventlogs;
  match rows with
  | [] => Ok ([PrintStderr no_rows_message], Some 2)
  | _ =>
      let dest := destination output_file in
      match write_destination dest rows with
      | None => Ok ([WriteCsv dest fieldnames rows], None)
      | Some e => Raise e
      end
  end.

(** [sys.exit(main())]: the exit status of the process.  [None] exits
    with 0, an int with that int, an uncaught exception with 1. *)
Definition exit_status (r : Py.result (list effect * option Z)) : Z :=
  match r with
  | Ok (_, None) => 0
  | Ok (_, Some n) => n
  | Raise _ => 1
  end.

(** ** Definitions used to state the properties *)

(** The events a file contributes: its non-blank lines that decode. *)
Definition events_of_file (f : list string) : list json :=
  omap (fun line =>
          if String.eqb (strip line) "" then None else json_loads line) f.

Definition events_of_paths (paths : list (list string)) : list json :=
  events_of_file (concat paths).

(** An execution-start event for execution [exid]. *)
Definition is_sql_start_for (exid : Z) (ev : json) : bool :=
  let et := _g ev ["Event"; "event"] JNull in
  truthy et && is_sql_start et
  && bool_decide (_as_int (_g ev ["executionId"; "Execution ID"] JNull) None
                  = Some exid).

(** The makespan as the specification words it: over the tasks that have
    both timestamps. *)
Definition has_both (t : TaskRec.t) : bool :=
  match TaskRec.launch t, TaskRec.finish t with
  | Some _, Some _ => true
  | _, _ => false
  end.

Definition makespan_claimed (ts : list TaskRec.t) : option Z :=
  let both := List.filter has_both ts in
  match max_default (omap TaskRec.finish both),
        min_default (omap TaskRec.launch both) with
  | Some e, Some s => Some (e - s)
  | _, _ => None
  end.

(** [s] is the least launch time present among [ts]; [e] the greatest
    finish time present. *)
Definition earliest_launch (ts : list TaskRec.t) (s : Z) : Prop :=
  (∃ t, t ∈ ts ∧ TaskRec.launch t = Some s)
  ∧ ∀ t l, t ∈ ts → TaskRec.launch t = Some l → s ≤ l.

Definition latest_finish (ts : list TaskRec.t) (e : Z) : Prop :=
  (∃ t, t ∈ ts ∧ TaskRec.finish t = Some e)
  ∧ ∀ t f, t ∈ ts → TaskRec.finish t = Some f → f ≤ e.

(** The percentage as the specification words it: null exactly at a zero
    run time, [100 * cpu / run] otherwise. *)
Definition cpu_vs_wall_claimed (run_ms : Z) (cpu_ms : PrimFloat.float)
  : option PrimFloat.float :=
  if Z.eqb run_ms 0 then None
  else
    match float_of_int run_ms with
    | Some f => Some (PrimFloat.div (PrimFloat.mul 100%float cpu_ms) f)
    | None => None
    end.

(** Orders on rows. *)
Definition key_le (r1 r2 : ResultRow.t) : Prop := sort_key r1 ≤ sort_key r2.

Definition id_le (r1 r2 : ResultRow.t) : Prop :=
  match ResultRow.executionId r1, ResultRow.executionId r2 with
  | Some a, Some b => a ≤ b
  | _, _ => True
  end.

Definition lacks_id (r : ResultRow.t) : Prop := ResultRow.executionId r = None.

Definition has_positive_id (r : ResultRow.t) : Prop :=
  ∃ z, ResultRow.executionId r = Some z ∧ 0 < z.

Definition has_nonneg_id (r : ResultRow.t) : Prop :=
  ∃ z, ResultRow.executionId r = Some z ∧ 0 ≤ z.

(** What the store holds for [key] after one more record for it. *)
Definition retained (prev : option TaskRec.t) (t_rec : TaskRec.t) : TaskRec.t :=
  match prev with
  | None => t_rec
  | Some p => if negb (TaskRec.success p) && TaskRec.success t_rec then t_rec else p
  end.

(** [prev] is the record stored for [key], and it is a successful one. *)
Definition holds_success (key : Z * option Z) (prev : TaskRec.t) (c : ctx) : Prop :=
  ODict.get (tasks_by_key c) key = Some prev ∧ TaskRec.success prev = true.

(** No description is on record for execution [exid]. *)
Definition no_description (exid : Z) (c : ctx) : Prop :=
  (exec_info c !! exid ≫= ExecInfo.description) = None.

(** Some non-empty group is filed under [exid]. *)
Definition has_group (exid : Z) (d : list (Z * list TaskRec.t)) : Prop :=
  ∃ ts, ts ≠ [] ∧ (exid, ts) ∈ d.

(** *** Further definitions: helpers and events *)

(** [d[k]] when [k in d], for an object [d] of any type: only a dict has
    keys. *)
Definition field (d : json) (k : string) : option json :=
  match d with
  | JObj kvs => dict_get kvs k
  | _ => None
  end.

(** A property bag with the bindings [kvs], written as a dict whose values
    are wrapped in a single-field object, and as a list of key/value
    pairs. *)
Definition props_wrapped (kvs : list (string * json)) : json :=
  JObj (map (λ kv, (fst kv, JObj [("value", snd kv)])) kvs).

Definition props_pairs (kvs : list (string * json)) : json :=
  JArr (map (λ kv, JObj [("key", JStr (fst kv)); ("value", snd kv)]) kvs).

(** The flat mapping of the bindings [kvs], later ones overwriting
    earlier ones. *)
Definition bindings (kvs : list (string * json)) : gmap string json :=
  fold_left (λ out kv, <[fst kv := snd kv]> out) kvs ∅.

(** The event-kind tag of a decoded line, and whether the loop has a
    branch for it. *)
Definition discriminator (ev : json) : json := _g ev ["Event"; "event"] JNull.

Definition recognized (et : json) : bool :=
  is_sql_start et || is_sql_end et
  || eq_str et "SparkListenerJobStart" || eq_str et "SparkListenerTaskEnd".

(** The ids the branches require. *)
Definition execution_id_of (ev : json) : option Z :=
  _as_int (_g ev ["executionId"; "Execution ID"] JNull) None.

Definition job_id_of (ev : json) : option Z :=
  _as_int (_g ev ["Job ID"; "jobId"] JNull) None.

Definition stage_id_of (ev : json) : option Z :=
  _as_int (_g ev ["Stage ID"; "stageId"] JNull) None.

(** *** Further definitions: the store, attribution and rows *)

(** The record a decoded event offers to the Task Store, if any: the one
    of a task-end event that has a stage id and builds without raising. *)
Definition event_record (ev : json) : option ((Z * option Z) * TaskRec.t) :=
  if eq_str (discriminator ev) "SparkListenerTaskEnd" then
    match stage_id_of ev with
    | Some stageId =>
        match task_record stageId ev with
        | Ok kt => Some kt
        | Raise _ => None
        end
    | None => None
    end
  else None.

(** The records offered for [key] by a list of events, in arrival order. *)
Definition records_for (key : Z * option Z) (evs : list json) : list TaskRec.t :=
  map snd (List.filter (λ kt, bool_decide (fst kt = key)) (omap event_record evs)).

(** The first successful record of a list, or else its first record. *)
Definition first_success_or_first (l : list TaskRec.t) : option TaskRec.t :=
  match List.find TaskRec.success l with
  | Some t => Some t
  | None => head l
  end.

(** One store update after the other. *)
Definition store_all (d : list ((Z * option Z) * TaskRec.t))
    (recs : list ((Z * option Z) * TaskRec.t)) : list ((Z * option Z) * TaskRec.t) :=
  fold_left (λ d kt, store_task d (fst kt) (snd kt)) recs d.

(** The keys of a store are pairwise distinct and every record sits under
    the key made of its own stage id and task id. *)
Definition store_ok (d : list ((Z * option Z) * TaskRec.t)) : Prop :=
  NoDup (map fst d)
  ∧ Forall (λ kt, fst kt = (TaskRec.stageId (snd kt), TaskRec.taskId (snd kt))) d.

(** The execution a task is attributed to: stage -> job -> execution. *)
Definition attributed_to (c : ctx) (t : TaskRec.t) : option Z :=
  match stage_job c !! TaskRec.stageId t with
  | Some jobId => job_exec c !! jobId
  | None => None
  end.

(** The retained tasks that the join attributes to some execution. *)
Definition attributable_tasks (c : ctx) : list TaskRec.t :=
  List.filter (λ t, bool_decide (is_Some (attributed_to c t)))
    (ODict.values (tasks_by_key c)).

(** Every job mapped to an execution is in that execution's job set. *)
Definition jobs_consistent (c : ctx) : Prop :=
  ∀ jobId exid, job_exec c !! jobId = Some exid →
    jobId ∈ default (∅ : gset Z) (exec_jobs c !! exid).

(** Rows strictly ascending in their execution ids. *)
Definition id_lt (r1 r2 : ResultRow.t) : Prop :=
  match ResultRow.executionId r1, ResultRow.executionId r2 with
  | Some a, Some b => a < b
  | _, _ => False
  end.

(** *** Further definitions: execution metadata and framing *)

(** The description on record for execution [exid], if any. *)
Definition description_of (exid : Z) (c : ctx) : option string :=
  exec_info c !! exid ≫= ExecInfo.description.

(** The description an execution-start event carries, trimmed; it raises
    when the field holds something that is neither a str nor falsy. *)
Definition event_description (ev : json) : Py.result string :=
  strip_method (or_else (_g ev ["description"; "Description"] (JStr "")) (JStr "")).

(** The context [c] with [d] as its Task Store. *)
Definition with_tasks (d : list ((Z * option Z) * TaskRec.t)) (c : ctx) : ctx :=
  mk_ctx (exec_info c) (exec_jobs c) (job_exec c) (stage_job c) d.

(** *** Further definitions: what a job start contributes *)

(** The execution a normalised property bag names, if any. *)
Definition execution_of_props (props : gmap string json) : option Z :=
  let exid_str := default JNull (props !! "spark.sql.execution.id") in
  if is_none exid_str then None else int exid_str.

(** What a job-start event contributes when it is read without raising:
    its job id, the stage ids it lists, and the execution its properties
    name. *)
Definition job_start_effect (ev : json) : option (Z * list (option Z) * option Z) :=
  if eq_str (discriminator ev) "SparkListenerJobStart" then
    match job_id_of ev, job_stage_ids ev,
          _norm_properties (_g ev ["Properties"; "properties"] (JObj [])) with
    | Some jobId, Ok sids, Ok props => Some (jobId, sids, execution_of_props props)
    | _, _, _ => None
    end
  else None.

(** The event is a job start that lists stage [s]. *)
Definition lists_stage (s : Z) (ev : json) : bool :=
  match job_start_effect ev with
  | Some (_, sids, _) => bool_decide (Some s ∈ sids)
  | None => false
  end.

(** The event is a start of job [j] that names an execution. *)
Definition names_execution_for (j : Z) (ev : json) : bool :=
  match job_start_effect ev with
  | Some (j', _, Some _) => bool_decide (j' = j)
  | _ => false
  end.

(** The event is a start of job [j] that names execution [e]. *)
Definition maps_job_to (j e : Z) (ev : json) : bool :=
  match job_start_effect ev with
  | Some (j', _, Some e') => bool_decide (j' = j) && bool_decide (e' = e)
  | _ => false
  end.

(** *** Further definitions: what the rows depend on *)

(** Two contexts the rows cannot tell apart: the same Task Store and
    mappings, the same job set and the same description for every
    execution. *)
Definition same_rows_view (c1 c2 : ctx) : Prop :=
  tasks_by_key c1 = tasks_by_key c2
  ∧ stage_job c1 = stage_job c2
  ∧ job_exec c1 = job_exec c2
  ∧ (∀ exid, default (∅ : gset Z) (exec_jobs c1 !! exid)
             = default (∅ : gset Z) (exec_jobs c2 !! exid))
  ∧ ∀ exid, description_of exid c1 = description_of exid c2.

(** Two outcomes of reading a stream that lead to the same rows, or to
    the same exception. *)
Definition same_outcome (r1 r2 : Py.result ctx) : Prop :=
  match r1, r2 with
  | Ok c1, Ok c2 => same_rows_view c1 c2
  | Raise e1, Raise e2 => e1 = e2
  | _, _ => False
  end.

(** The event takes the execution-end branch of the loop. *)
Definition is_sql_end_event (ev : json) : bool :=
  truthy (discriminator ev) && negb (is_sql_start (discriminator ev))
  && is_sql_end (discriminator ev).

(** The line decodes to an execution-end event. *)
Definition is_sql_end_line (line : string) : bool :=
  if String.eqb (strip line) "" then false
  else
    match json_loads line with
    | Some ev => is_sql_end_event ev
    | None => false
    end.

(** The input without its execution-end lines. *)
Definition without_sql_ends (paths : list (list string)) : list (list string) :=
  map (List.filter (λ line, negb (is_sql_end_line line))) paths.

(** *** Further definitions: the integer columns *)

(** The integer columns of a row, each with the field of a task record
    that it adds up. *)
Definition int_columns : list ((ResultRow.t → Z) * (TaskRec.t → Z)) :=
  [(ResultRow.task_slot_ms, TaskRec.duration_ms);
   (ResultRow.executor_run_ms, TaskRec.run_ms);
   (ResultRow.deserialize_ms, TaskRec.deserialize_ms);
   (ResultRow.result_serialize_ms, TaskRec.result_serialize_ms);
   (ResultRow.gc_ms, TaskRec.gc_ms);
   (ResultRow.shuffle_fetch_wait_ms, TaskRec.shuffle_fetch_wait_ms);
   (ResultRow.input_bytes, TaskRec.input_bytes);
   (ResultRow.output_bytes, TaskRec.output_bytes);
   (ResultRow.shuffle_read_bytes, TaskRec.shuffle_read_bytes);
   (ResultRow.shuffle_write_bytes, TaskRec.shuffle_write_bytes)].

(** *** Further definitions: the CPU time of a task *)


(** ** Lemmas about the runtime fragment *)

Lemma bind_Ok {A B} (m : Py.result A) (k : A -> Py.result B) (b : B) :
  (m ≫= k) = Ok b ↔ ∃ a, m = Ok a ∧ k a = Ok b.
Proof.
  destruct m as [a|e]; simpl; split.
  - intros H. exists a. split; [reflexivity | exact H].
  - intros (a' & Ha & Hk). injection Ha as ->. exact Hk.
  - intros H. discriminate H.
  - intros (a' & Ha & _). discriminate Ha.
Qed.

Lemma foldM_app {A B} (f : A -> B -> Py.result A) (l1 l2 : list B) (a : A) :
  foldM f a (l1 ++ l2) = (a' ← foldM f a l1; foldM f a' l2).
Proof.
  revert a. induction l1 as [|x l1 IH]; intros a; simpl.
  - reflexivity.
  - destruct (f a x) as [a1|e]; simpl; [apply IH | reflexivity].
Qed.

Lemma foldM_concat {A B} (f : A -> B -> Py.result A) (ls : list (list B)) (a : A) :
  foldM (foldM f) a ls = foldM f a (concat ls).
Proof.
  revert a. induction ls as [|l ls IH]; intros a; simpl.
  - reflexivity.
  - rewrite foldM_app. destruct (foldM f a l) as [a1|e]; simpl;
      [apply IH | reflexivity].
Qed.

Lemma foldM_invariant {A B} (P : A -> Prop) (f : A -> B -> Py.result A) :
  (∀ a x a', P a → f a x = Ok a' → P a') →
  ∀ l a a', P a → foldM f a l = Ok a' → P a'.
Proof.
  intros Hstep. induction l as [|x l IH]; intros a a' Ha Hf; simpl in Hf.
  - injection Hf as <-. exact Ha.
  - apply bind_Ok in Hf as (a1 & H1 & H2). eauto.
Qed.

(** ** The Task Store *)

Lemma odict_get_set_eq {K V} `{EqDecision K} (d : list (K * V)) k v :
  ODict.get (ODict.set d k v) k = Some v.
Proof.
  induction d as [|[k' v'] d IH]; simpl.
  - rewrite decide_True; reflexivity.
  - destruct (decide (k' = k)) as [->|Hne]; simpl.
    + rewrite decide_True; reflexivity.
    + rewrite decide_False; [exact IH | exact Hne].
Qed.

Lemma odict_get_set_ne {K V} `{EqDecision K} (d : list (K * V)) k k' v :
  k ≠ k' → ODict.get (ODict.set d k v) k' = ODict.get d k'.
Proof.
  intros Hne. induction d as [|[k0 v0] d IH]; simpl.
  - rewrite decide_False; [reflexivity | exact Hne].
  - destruct (decide (k0 = k)) as [->|Hk0]; simpl.
    + rewrite !decide_False; [reflexivity | exact Hne | exact Hne].
    + destruct (decide (k0 = k')); [reflexivity | exact IH].
Qed.

Lemma store_task_get tasks key t_rec :
  ODict.get (store_task tasks key t_rec) key
  = Some (retained (ODict.get tasks key) t_rec).
Proof.
  unfold store_task, retained.
  destruct (ODict.get tasks key) as [prev|] eqn:Hget.
  - destruct (negb (TaskRec.success prev) && TaskRec.success t_rec).
    + apply odict_get_set_eq.
    + exact Hget.
  - apply odict_get_set_eq.
Qed.

Lemma store_task_get_ne tasks key key' t_rec :
  key ≠ key' →
  ODict.get (store_task tasks key t_rec) key' = ODict.get tasks key'.
Proof.
  intros Hne. unfold store_task.
  destruct (ODict.get tasks key) as [prev|].
  - destruct (negb (TaskRec.success prev) && TaskRec.success t_rec).
    + apply odict_get_set_ne, Hne.
    + reflexivity.
  - apply odict_get_set_ne, Hne.
Qed.

Lemma store_task_success_fixed tasks key prev t_rec :
  ODict.get tasks key = Some prev →
  TaskRec.success prev = true →
  store_task tasks key t_rec = tasks.
Proof.
  intros Hget Hs. unfold store_task. rewrite Hget, Hs. reflexivity.
Qed.

(** Every branch of the loop body other than the task-end one leaves the
    store alone; the task-end branch goes through [store_task]. *)
Lemma ingest_event_store c ev c' :
  ingest_event c ev = Ok c' →
  tasks_by_key c' = tasks_by_key c
  ∨ ∃ key t_rec, tasks_by_key c' = store_task (tasks_by_key c) key t_rec.
Proof.
  unfold ingest_event.
  destruct (negb (truthy _)); [intros [= <-]; left; reflexivity |].
  destruct (is_sql_start _).
  { unfold on_sql_start. destruct (_as_int _ None) as [exid|];
      [| intros [= <-]; left; reflexivity].
    intros H. apply bind_Ok in H as (desc & _ & H).
    injection H as <-. left. reflexivity. }
  destruct (is_sql_end _).
  { unfold on_sql_end. destruct (_as_int _ None) as [exid|];
      intros [= <-]; left; reflexivity. }
  destruct (eq_str _ "SparkListenerJobStart").
  { unfold on_job_start. destruct (_as_int _ None) as [jobId|];
      [| intros [= <-]; left; reflexivity].
    intros H. apply bind_Ok in H as (sids & _ & H).
    apply bind_Ok in H as (props & _ & H).
    destruct (if is_none _ then _ else _) as [je ej].
    injection H as <-. left. reflexivity. }
  destruct (eq_str _ "SparkListenerTaskEnd").
  { unfold on_task_end. destruct (_as_int _ None) as [stageId|];
      [| intros [= <-]; left; reflexivity].
    intros H. apply bind_Ok in H as ([key t_rec] & _ & H).
    injection H as <-. right. exists key, t_rec. reflexivity. }
  intros [= <-]. left. reflexivity.
Qed.

Lemma ingest_line_store c line c' :
  ingest_line c line = Ok c' →
  tasks_by_key c' = tasks_by_key c
  ∨ ∃ key t_rec, tasks_by_key c' = store_task (tasks_by_key c) key t_rec.
Proof.
  unfold ingest_line. destruct (String.eqb _ _);
    [intros [= <-]; left; reflexivity |].
  destruct (json_loads line) as [ev|];
    [apply ingest_event_store | intros [= <-]; left; reflexivity].
Qed.

(** A stored successful record survives one more line, and so any
    number of lines and files. *)
Lemma ingest_line_keeps_success key prev c line c' :
  holds_success key prev c → ingest_line c line = Ok c' →
  holds_success key prev c'.
Proof.
  intros [Hget Hs] H. split; [| exact Hs].
  apply ingest_line_store in H as [-> | (key' & t_rec & ->)]; [exact Hget |].
  destruct (decide (key' = key)) as [-> | Hne].
  - rewrite (store_task_success_fixed _ _ _ _ Hget Hs). exact Hget.
  - rewrite store_task_get_ne; [exact Hget | exact Hne].
Qed.

Lemma ingest_file_keeps_success key prev c f c' :
  holds_success key prev c → ingest_file c f = Ok c' →
  holds_success key prev c'.
Proof.
  unfold ingest_file.
  apply (foldM_invariant (holds_success key prev) ingest_line).
  intros a x a'. apply ingest_line_keeps_success.
Qed.

Lemma ingest_paths_keeps_success key prev c paths c' :
  holds_success key prev c → ingest_paths c paths = Ok c' →
  holds_success key prev c'.
Proof.
  unfold ingest_paths.
  apply (foldM_invariant (holds_success key prev) ingest_file).
  intros a x a'. apply ingest_file_keeps_success.
Qed.

(** C2 (as amended).  Two task-end records [t1], [t2] for the same key
    reach a store that has no record for it yet, [t1] first.  Whatever
    the order of a success and a failure, the successful record is the one
    retained; when both are unsuccessful (and also when both are
    successful) the earlier-arriving record [t1] is retained. *)
Theorem dedup_keeps_success_else_earlier tasks key t1 t2 :
  ODict.get tasks key = None →
  ∃ r, ODict.get (store_task (store_task tasks key t1) key t2) key = Some r
    ∧ (TaskRec.success t1 || TaskRec.success t2 = true → TaskRec.success r = true)
    ∧ (TaskRec.success t1 = true → r = t1)
    ∧ (TaskRec.success t1 = false → TaskRec.success t2 = true → r = t2)
    ∧ (TaskRec.success t1 = false → TaskRec.success t2 = false → r = t1).
Proof.
  intros Hnone.
  exists (retained (Some t1) t2). split.
  - rewrite store_task_get, store_task_get, Hnone. reflexivity.
  - simpl. destruct (TaskRec.success t1) eqn:H1, (TaskRec.success t2) eqn:H2;
      simpl; repeat split; intros; congruence.
Qed.

(** C9.  Let [prev] be the record stored for [key].  If [prev] is flagged
    successful, storing any further record for [key] (a second success
    included) leaves the whole store unchanged, and [prev] is still the
    record for [key] after any further lines of any further files.  In
    general, if a further record [t_rec] for [key] displaces [prev], then
    [prev] was unsuccessful and [t_rec] is successful. *)
Theorem stored_success_is_never_replaced tasks key prev :
  ODict.get tasks key = Some prev →
  (TaskRec.success prev = true →
     (∀ t_rec, store_task tasks key t_rec = tasks)
     ∧ ∀ c paths c', tasks_by_key c = tasks → ingest_paths c paths = Ok c' →
         ODict.get (tasks_by_key c') key = Some prev)
  ∧ ∀ t_rec, ODict.get (store_task tasks key t_rec) key ≠ Some prev →
      TaskRec.success prev = false ∧ TaskRec.success t_rec = true
      ∧ ODict.get (store_task tasks key t_rec) key = Some t_rec.
Proof.
  intros Hget. split.
  - intros Hs. split.
    + intros t_rec. exact (store_task_success_fixed _ _ _ _ Hget Hs).
    + intros c paths c' Hc Hrun.
      assert (holds_success key prev c) as Hinv
        by (split; [rewrite Hc; exact Hget | exact Hs]).
      exact (proj1 (ingest_paths_keeps_success _ _ _ _ _ Hinv Hrun)).
  - intros t_rec. rewrite store_task_get, Hget. simpl.
    destruct (TaskRec.success prev), (TaskRec.success t_rec); simpl;
      intros Hne; try (exfalso; apply Hne; reflexivity).
    repeat split; reflexivity.
Qed.

(** ** Several input sources *)

Lemma ingest_paths_concat c paths :
  ingest_paths c paths = ingest_file c (concat paths).
Proof. unfold ingest_paths, ingest_file. apply foldM_concat. Qed.

Lemma ingest_paths_app c ps1 ps2 :
  ingest_paths c (ps1 ++ ps2) = (c1 ← ingest_paths c ps1; ingest_paths c1 ps2).
Proof. unfold ingest_paths. apply foldM_app. Qed.

(** C6.  For input sources split into two consecutive sublists [ps1] and
    [ps2]: feeding [ps1] and then [ps2] through one context, which is what
    [analyze_sql_breakdown] does on [ps1 ++ ps2], gives exactly the result
    (rows, or the exception) of analysing the single source made of all
    their lines in order. *)
Theorem sequential_sources_equal_concatenation ps1 ps2 :
  (c1 ← ingest_paths empty_ctx ps1; c2 ← ingest_paths c1 ps2; finalize c2)
  = analyze_sql_breakdown [concat (ps1 ++ ps2)]
  ∧ analyze_sql_breakdown (ps1 ++ ps2)
    = analyze_sql_breakdown [concat (ps1 ++ ps2)].
Proof.
  assert (analyze_sql_breakdown (ps1 ++ ps2)
          = analyze_sql_breakdown [concat (ps1 ++ ps2)]) as Hcat.
  { unfold analyze_sql_breakdown.
    rewrite (ingest_paths_concat _ (ps1 ++ ps2)), (ingest_paths_concat _ [_]).
    simpl. rewrite app_nil_r. reflexivity. }
  split; [| exact Hcat].
  rewrite <- Hcat. unfold analyze_sql_breakdown. rewrite ingest_paths_app.
  destruct (ingest_paths empty_ctx ps1) as [c1|e]; reflexivity.
Qed.

(** ** Exit status *)


(** ** Aggregation *)

Lemma fold_min_spec xs a :
  let m := fold_left Z.min xs a in
  (m = a ∨ m ∈ xs) ∧ m ≤ a ∧ ∀ x, x ∈ xs → m ≤ x.
Proof.
  revert a. induction xs as [|y xs IH]; intros a; simpl.
  - split; [left; reflexivity |]. split; [lia |]. intros x Hx. inversion Hx.
  - destruct (IH (Z.min a y)) as (Hin & Hle & Hall). split; [| split].
    + destruct Hin as [Heq | Hin]; [| right; right; exact Hin].
      destruct (Z.min_spec a y) as [[_ Hm] | [_ Hm]].
      * left. rewrite Heq. exact Hm.
      * right. rewrite Heq, Hm. left.
    + lia.
    + intros x Hx. apply elem_of_cons in Hx as [-> | Hx]; [lia | auto].
Qed.

Lemma fold_max_spec xs a :
  let m := fold_left Z.max xs a in
  (m = a ∨ m ∈ xs) ∧ a ≤ m ∧ ∀ x, x ∈ xs → x ≤ m.
Proof.
  revert a. induction xs as [|y xs IH]; intros a; simpl.
  - split; [left; reflexivity |]. split; [lia |]. intros x Hx. inversion Hx.
  - destruct (IH (Z.max a y)) as (Hin & Hle & Hall). split; [| split].
    + destruct Hin as [Heq | Hin]; [| right; right; exact Hin].
      destruct (Z.max_spec a y) as [[_ Hm] | [_ Hm]].
      * right. rewrite Heq, Hm. left.
      * left. rewrite Heq. exact Hm.
    + lia.
    + intros x Hx. apply elem_of_cons in Hx as [-> | Hx]; [lia | auto].
Qed.

Lemma min_default_spec xs :
  match min_default xs with
  | Some m => m ∈ xs ∧ ∀ x, x ∈ xs → m ≤ x
  | None => xs = []
  end.
Proof.
  destruct xs as [|a xs]; simpl; [reflexivity |].
  destruct (fold_min_spec xs a) as (Hin & Hle & Hall). split.
  - destruct Hin as [-> | Hin]; [left | right; exact Hin].
  - intros x Hx. apply elem_of_cons in Hx as [-> | Hx]; auto.
Qed.

Lemma max_default_spec xs :
  match max_default xs with
  | Some m => m ∈ xs ∧ ∀ x, x ∈ xs → x ≤ m
  | None => xs = []
  end.
Proof.
  destruct xs as [|a xs]; simpl; [reflexivity |].
  destruct (fold_max_spec xs a) as (Hin & Hle & Hall). split.
  - destruct Hin as [-> | Hin]; [left | right; exact Hin].
  - intros x Hx. apply elem_of_cons in Hx as [-> | Hx]; auto.
Qed.

Lemma omap_nil_inv {A B} (f : A -> option B) (l : list A) :
  omap f l = [] → ∀ x, x ∈ l → f x = None.
Proof.
  intros Hnil x Hx. destruct (f x) as [y|] eqn:Hfx; [| reflexivity].
  assert (y ∈ omap f l) as Hy by (apply list_elem_of_omap; eauto).
  rewrite Hnil in Hy. inversion Hy.
Qed.

Lemma makespan_spec ts :
  match makespan ts with
  | Some m => ∃ s e, earliest_launch ts s ∧ latest_finish ts e ∧ m = e - s
  | None => (∀ t, t ∈ ts → TaskRec.launch t = None)
            ∨ (∀ t, t ∈ ts → TaskRec.finish t = None)
  end.
Proof.
  unfold makespan.
  pose proof (min_default_spec (omap TaskRec.launch ts)) as Hmin.
  pose proof (max_default_spec (omap TaskRec.finish ts)) as Hmax.
  destruct (min_default _) as [s|].
  - destruct (max_default _) as [e|].
    + destruct Hmin as [Hs Hsle], Hmax as [He Hele].
      exists s, e. split; [| split; [| reflexivity]].
      * split; [apply list_elem_of_omap in Hs as (t & ? & ?); eauto |].
        intros t l Ht Hl. apply Hsle, list_elem_of_omap. eauto.
      * split; [apply list_elem_of_omap in He as (t & ? & ?); eauto |].
        intros t f Ht Hf. apply Hele, list_elem_of_omap. eauto.
    + right. apply omap_nil_inv, Hmax.
  - left. apply omap_nil_inv, Hmin.
Qed.

Lemma omap_filter_agree {A B} (f : A -> option B) (p : A -> bool) (l : list A) :
  (∀ x, x ∈ l → p x = false → f x = None) →
  omap f (List.filter p l) = omap f l.
Proof.
  induction l as [|a l IH]; intros Hagree; [reflexivity |].
  assert (omap f (List.filter p l) = omap f l) as IH'.
  { apply IH. intros x Hx. apply Hagree. right. exact Hx. }
  change (omap f (a :: l)) with (from_option (λ y, y :: omap f l) (omap f l) (f a)).
  change (List.filter p (a :: l)) with (if p a then a :: List.filter p l else List.filter p l).
  destruct (p a) eqn:Hp.
  - change (omap f (a :: List.filter p l))
      with (from_option (λ y, y :: omap f (List.filter p l))
              (omap f (List.filter p l)) (f a)).
    rewrite IH'. reflexivity.
  - rewrite (Hagree a (list_elem_of_here a l) Hp). exact IH'.
Qed.

(** When no task has one timestamp without the other, the two filters
    select the same tasks as the filter on both. *)
Lemma makespan_claimed_when_paired ts :
  (∀ t, t ∈ ts → is_Some (TaskRec.launch t) ↔ is_Some (TaskRec.finish t)) →
  makespan ts = makespan_claimed ts.
Proof.
  intros Hpair. unfold makespan, makespan_claimed.
  rewrite !omap_filter_agree.
  - destruct (min_default _), (max_default _); reflexivity.
  - intros t Ht Hb. specialize (Hpair t Ht). unfold has_both in Hb.
    destruct (TaskRec.launch t) as [l|]; [| reflexivity].
    destruct (TaskRec.finish t) as [f|]; [discriminate Hb |].
    destruct Hpair as [Hp _]. destruct Hp; [eauto | discriminate].
  - intros t Ht Hb. specialize (Hpair t Ht). unfold has_both in Hb.
    destruct (TaskRec.finish t) as [f|]; [| reflexivity].
    destruct (TaskRec.launch t) as [l|]; [discriminate Hb |].
    destruct Hpair as [_ Hp]. destruct Hp; [eauto | discriminate].
Qed.

(** The fields of an aggregated row. *)
Lemma aggregate_group_Ok c exid ts row :
  aggregate_group c exid ts = Ok row →
  ResultRow.executionId row = Some exid
  ∧ ResultRow.description row
    = strip (default "" (ExecInfo.description
                           (default ExecInfo.empty (exec_info c !! exid))))
  ∧ ResultRow.num_jobs row = size (default (∅ : gset Z) (exec_jobs c !! exid))
  ∧ ResultRow.num_tasks row = length ts
  ∧ ResultRow.makespan_ms row = makespan ts
  ∧ ResultRow.executor_run_ms row = sum (map TaskRec.run_ms ts)
  ∧ ResultRow.executor_cpu_ms row = fsum (map TaskRec.cpu_ms ts)
  ∧ cpu_vs_wall (sum (map TaskRec.run_ms ts)) (fsum (map TaskRec.cpu_ms ts))
    = Ok (ResultRow.cpu_vs_wall_pct row).
Proof.
  unfold aggregate_group. intros H.
  apply bind_Ok in H as (pct & Hpct & H). injection H as <-. simpl.
  repeat split; try reflexivity. exact Hpct.
Qed.

(** The aggregation of a group returns a row unless the group's summed
    run time is positive and too large for a double. *)
Lemma aggregate_group_returns c exid ts :
  sum (map TaskRec.run_ms ts) ≤ 0
  ∨ is_Some (float_of_int (sum (map TaskRec.run_ms ts))) →
  ∃ row, aggregate_group c exid ts = Ok row.
Proof.
  intros H. unfold aggregate_group, cpu_vs_wall.
  destruct (Z.eqb_spec (sum (map TaskRec.run_ms ts)) 0) as [-> | Hne]; simpl;
    [eexists; reflexivity |].
  destruct (Z.ltb_spec 0 (sum (map TaskRec.run_ms ts))) as [Hpos | Hneg];
    [| eexists; reflexivity].
  destruct H as [H | [f Hf]]; [lia |]. rewrite Hf. eexists. reflexivity.
Qed.

(** C1 (as amended).  For every row the aggregation pass builds for a
    group of tasks, [makespan_ms] is the latest finish time present in the
    group minus the earliest launch time present in the group, the two
    taken independently of each other (the task that supplies one need
    not have the other); it is null when no task of the group has a launch
    time or no task has a finish time.  When no task has one timestamp
    without the other, this is the makespan over the tasks having both. *)
Theorem makespan_latest_finish_minus_earliest_launch c exid ts row :
  aggregate_group c exid ts = Ok row →
  match ResultRow.makespan_ms row with
  | Some m => ∃ s e, earliest_launch ts s ∧ latest_finish ts e ∧ m = e - s
  | None => (∀ t, t ∈ ts → TaskRec.launch t = None)
            ∨ (∀ t, t ∈ ts → TaskRec.finish t = None)
  end
  ∧ ((∀ t, t ∈ ts → is_Some (TaskRec.launch t) ↔ is_Some (TaskRec.finish t)) →
     ResultRow.makespan_ms row = makespan_claimed ts).
Proof.
  intros H. apply aggregate_group_Ok in H as (_ & _ & _ & _ & -> & _).
  split; [apply makespan_spec |].
  intros Hpair. apply makespan_claimed_when_paired, Hpair.
Qed.

Lemma cpu_vs_wall_spec run cpu pct :
  cpu_vs_wall run cpu = Ok pct →
  (run ≤ 0 → pct = None)
  ∧ (0 < run → ∃ f, float_of_int run = Some f
                 ∧ pct = Some (PrimFloat.mul (PrimFloat.div cpu f) 100%float)).
Proof.
  unfold cpu_vs_wall. intros H.
  destruct (Z.eqb_spec run 0) as [-> | Hne]; simpl in H.
  - injection H as <-. split; [reflexivity | lia].
  - destruct (Z.ltb_spec 0 run) as [Hpos | Hneg].
    + destruct (float_of_int run) as [f|]; [| discriminate H].
      injection H as <-. split; [lia |]. intros _. exists f. split; reflexivity.
    + injection H as <-. split; [reflexivity | lia].
Qed.

(** C5 (as amended).  For every row the aggregation pass builds for a
    group, with [run] the group's summed executor run time and [cpu] its
    summed CPU time: [cpu_vs_wall_pct] is null (not 0) when [run] is 0 or
    negative, and when [run] is positive it is [(cpu / float(run)) * 100.0]
    in double arithmetic; so the division only ever has the conversion of
    a positive integer as its divisor. *)
Theorem cpu_vs_wall_pct_guard c exid ts row :
  aggregate_group c exid ts = Ok row →
  ResultRow.executor_run_ms row = sum (map TaskRec.run_ms ts)
  ∧ ResultRow.executor_cpu_ms row = fsum (map TaskRec.cpu_ms ts)
  ∧ (ResultRow.executor_run_ms row ≤ 0 → ResultRow.cpu_vs_wall_pct row = None)
  ∧ (0 < ResultRow.executor_run_ms row →
     ∃ f, float_of_int (ResultRow.executor_run_ms row) = Some f
       ∧ ResultRow.cpu_vs_wall_pct row
         = Some (PrimFloat.mul (PrimFloat.div (ResultRow.executor_cpu_ms row) f)
                               100%float)).
Proof.
  intros H. apply aggregate_group_Ok in H as (_ & _ & _ & _ & _ & Hrun & Hcpu & Hpct).
  rewrite Hrun, Hcpu. split; [reflexivity |]. split; [reflexivity |].
  apply cpu_vs_wall_spec, Hpct.
Qed.

(** What a task record carries over from its event. *)
Lemma task_record_Ok stageId ev key t :
  task_record stageId ev = Ok (key, t) →
  TaskRec.stageId t = stageId
  ∧ key = (stageId, TaskRec.taskId t)
  ∧ TaskRec.success t = _success_from_task_end ev
  ∧ ∃ f, float_of_int (cpu_ns ev) = Some f
       ∧ TaskRec.cpu_ms t = PrimFloat.div f 1e6%float.
Proof.
  unfold task_record. destruct (float_of_int (cpu_ns ev)) as [f|];
    [| discriminate].
  intros [= <- <-]. simpl. repeat split. exists f. split; reflexivity.
Qed.

Lemma fsum_app xs ys :
  fsum (xs ++ ys) = fold_left PrimFloat.add ys (fsum xs).
Proof. unfold fsum. apply fold_left_app. Qed.



(** ** Sorting *)

Lemma insert_row_perm r l : insert_row r l ≡ₚ r :: l.
Proof.
  induction l as [|r' l IH]; simpl; [reflexivity |].
  destruct (sort_key r <=? sort_key r'); [reflexivity |].
  rewrite IH. apply Permutation_swap.
Qed.

Lemma sort_rows_perm l : sort_rows l ≡ₚ l.
Proof.
  induction l as [|r l IH]; simpl; [reflexivity |].
  rewrite insert_row_perm, IH. reflexivity.
Qed.

Lemma insert_row_sorted r l :
  StronglySorted key_le l → StronglySorted key_le (insert_row r l).
Proof.
  induction 1 as [|r' l Hl IH Hr']; simpl.
  - repeat constructor.
  - destruct (Z.leb_spec (sort_key r) (sort_key r')) as [Hle | Hgt].
    + constructor; [constructor; assumption |].
      constructor; [exact Hle |].
      eapply Forall_impl; [exact Hr' |]. unfold key_le. intros x Hx. lia.
    + constructor; [exact IH |].
      rewrite insert_row_perm. constructor; [unfold key_le; lia | exact Hr'].
Qed.

Lemma sort_rows_sorted l : StronglySorted key_le (sort_rows l).
Proof.
  induction l as [|r l IH]; simpl; [constructor | apply insert_row_sorted, IH].
Qed.

Lemma sorted_lookup_le {A} (R : A -> A -> Prop) (l : list A) i j x y :
  StronglySorted R l → l !! i = Some x → l !! j = Some y → (i < j)%nat → R x y.
Proof.
  intros Hs. revert i j. induction Hs as [|a l Hl IH Ha]; intros i j Hi Hj Hij.
  - rewrite lookup_nil in Hi. discriminate.
  - destruct j as [|j]; [lia |]. simpl in Hj. destruct i as [|i]; simpl in Hi.
    + injection Hi as <-. rewrite Forall_forall in Ha. apply Ha.
      eapply list_elem_of_lookup_2, Hj.
    + apply (IH i j); [assumption | assumption | lia].
Qed.

Lemma key_le_id_le r1 r2 :
  has_nonneg_id r1 → has_nonneg_id r2 → key_le r1 r2 → id_le r1 r2.
Proof.
  unfold key_le, id_le, sort_key. intros (a & -> & Ha) (b & -> & Hb).
  destruct (Z.eqb_spec a 0), (Z.eqb_spec b 0); lia.
Qed.

Lemma sorted_nonneg_ids l :
  Forall has_nonneg_id l → StronglySorted key_le l → StronglySorted id_le l.
Proof.
  intros Hall Hs. induction Hs as [|a l Hl IH Ha]; [constructor |].
  apply Forall_cons in Hall as [Hna Hnl].
  constructor; [apply IH, Hnl |].
  rewrite Forall_forall in *. intros x Hx.
  apply key_le_id_le; auto.
Qed.

Lemma lacking_id_before_positive l i j r1 r2 :
  StronglySorted key_le l → l !! i = Some r1 → l !! j = Some r2 →
  lacks_id r1 → has_positive_id r2 → (i < j)%nat.
Proof.
  intros Hs Hi Hj Hnone (z & Hz & Hpos).
  destruct (Nat.lt_trichotomy i j) as [Hlt | [-> | Hgt]]; [exact Hlt | |].
  - rewrite Hi in Hj. injection Hj as <-. unfold lacks_id in Hnone. congruence.
  - pose proof (sorted_lookup_le _ _ _ _ _ _ Hs Hj Hi Hgt) as Hle.
    unfold key_le, sort_key, lacks_id in *. rewrite Hnone, Hz in Hle.
    destruct (Z.eqb_spec z 0); lia.
Qed.

(** Every row of the aggregation pass carries its execution id. *)
Lemma aggregate_rows_have_id c groups results :
  aggregate c groups = Ok results →
  Forall (λ r, is_Some (ResultRow.executionId r)) results.
Proof.
  unfold aggregate, ODict.items.
  apply (foldM_invariant (Forall (λ r, is_Some (ResultRow.executionId r)))).
  - intros acc [exid ts] acc' Hacc. unfold aggregate_step. simpl.
    destruct ts as [|t ts]; [intros [= <-]; exact Hacc |].
    intros H. apply bind_Ok in H as (row & Hrow & H). injection H as <-.
    apply Forall_app. split; [exact Hacc |]. constructor; [| constructor].
    apply aggregate_group_Ok in Hrow as (-> & _). eauto.
  - constructor.
Qed.

Lemma analyze_output paths out :
  analyze_sql_breakdown paths = Ok out →
  ∃ c results, ingest_paths empty_ctx paths = Ok c
    ∧ aggregate c (attribute c) = Ok results ∧ out = sort_rows results.
Proof.
  unfold analyze_sql_breakdown, finalize. intros H.
  apply bind_Ok in H as (c & Hc & H). apply bind_Ok in H as (results & Hr & H).
  injection H as <-. eauto.
Qed.

(** How the rows are sorted: in ascending order of the key
    [executionId or -1].  For any list of rows handed to the sort, the
    result is a rearrangement of it, ascending in the key; a row lacking
    an execution id comes before every row whose id is positive; and if
    all ids are present and non-negative the rows are ascending in
    [executionId].  The rows the analysis returns are sorted this way and
    each of them has an execution id. *)
Lemma rows_sorted_by_id_or_minus_one :
  (∀ rs,
     sort_rows rs ≡ₚ rs
     ∧ StronglySorted key_le (sort_rows rs)
     ∧ (∀ i j r1 r2,
          sort_rows rs !! i = Some r1 → sort_rows rs !! j = Some r2 →
          lacks_id r1 → has_positive_id r2 → (i < j)%nat)
     ∧ (Forall has_nonneg_id rs → StronglySorted id_le (sort_rows rs)))
  ∧ (∀ paths out,
       analyze_sql_breakdown paths = Ok out →
       StronglySorted key_le out
       ∧ Forall (λ r, is_Some (ResultRow.executionId r)) out
       ∧ (Forall has_nonneg_id out → StronglySorted id_le out)).
Proof.
  split.
  - intros rs. split; [apply sort_rows_perm |].
    split; [apply sort_rows_sorted |]. split.
    + intros i j r1 r2. apply lacking_id_before_positive, sort_rows_sorted.
    + intros Hall. apply sorted_nonneg_ids; [| apply sort_rows_sorted].
      rewrite sort_rows_perm. exact Hall.
  - intros paths out H.
    apply analyze_output in H as (c & results & _ & Hagg & ->).
    split; [apply sort_rows_sorted |]. split.
    + rewrite sort_rows_perm. eapply aggregate_rows_have_id, Hagg.
    + intros Hall. apply sorted_nonneg_ids; [exact Hall | apply sort_rows_sorted].
Qed.

(** ** Executions without a start event *)

Lemma ingest_event_no_description exid c ev c' :
  is_sql_start_for exid ev = false →
  no_description exid c → ingest_event c ev = Ok c' → no_description exid c'.
Proof.
  unfold ingest_event, is_sql_start_for, no_description. intros Hnot Hnone.
  destruct (truthy _); simpl in *; [| intros [= <-]; exact Hnone].
  destruct (is_sql_start _); simpl in *.
  { unfold on_sql_start. destruct (_as_int _ None) as [exid'|];
      [| intros [= <-]; exact Hnone].
    apply bool_decide_eq_false in Hnot.
    intros H. apply bind_Ok in H as (desc & _ & H). injection H as <-. simpl.
    rewrite lookup_insert_ne; [exact Hnone | congruence]. }
  destruct (is_sql_end _).
  { unfold on_sql_end. destruct (_as_int _ None) as [exid'|];
      intros [= <-]; [| exact Hnone]. simpl.
    destruct (decide (exid' = exid)) as [-> | Hne].
    - rewrite lookup_insert_eq. simpl.
      destruct (exec_info c !! exid) as [info|]; simpl in *;
        destruct (is_none _); simpl; first [exact Hnone | reflexivity].
    - rewrite lookup_insert_ne; [exact Hnone | exact Hne]. }
  destruct (eq_str _ "SparkListenerJobStart").
  { unfold on_job_start. destruct (_as_int _ None) as [jobId|];
      [| intros [= <-]; exact Hnone].
    intros H. apply bind_Ok in H as (sids & _ & H).
    apply bind_Ok in H as (props & _ & H).
    destruct (if is_none _ then _ else _) as [je ej].
    injection H as <-. exact Hnone. }
  destruct (eq_str _ "SparkListenerTaskEnd").
  { unfold on_task_end. destruct (_as_int _ None) as [stageId|];
      [| intros [= <-]; exact Hnone].
    intros H. apply bind_Ok in H as (kt & _ & H). injection H as <-.
    exact Hnone. }
  intros [= <-]. exact Hnone.
Qed.

Lemma foldM_cons {A B} (f : A -> B -> Py.result A) (a : A) (x : B) (l : list B) :
  foldM f a (x :: l) = (a' ← f a x; foldM f a' l).
Proof. reflexivity. Qed.

Lemma events_of_file_cons line f :
  events_of_file (line :: f)
  = if String.eqb (strip line) "" then events_of_file f
    else match json_loads line with
         | Some ev => ev :: events_of_file f
         | None => events_of_file f
         end.
Proof.
  unfold events_of_file.
  change (omap ?g (line :: f)) with (from_option (λ y, y :: omap g f) (omap g f) (g line)).
  cbv beta.
  destruct (String.eqb (strip line) ""); [reflexivity |].
  destruct (json_loads line); reflexivity.
Qed.

Lemma ingest_file_events c f :
  ingest_file c f = foldM ingest_event c (events_of_file f).
Proof.
  unfold ingest_file. revert c.
  induction f as [|line f IH]; intros c; [reflexivity |].
  rewrite foldM_cons, events_of_file_cons. unfold ingest_line.
  destruct (String.eqb (strip line) ""); [apply IH |].
  destruct (json_loads line) as [ev|]; [| apply IH].
  rewrite foldM_cons.
  destruct (ingest_event c ev) as [c1|e]; [apply IH | reflexivity].
Qed.

Lemma ingest_paths_events c paths :
  ingest_paths c paths = foldM ingest_event c (events_of_paths paths).
Proof. rewrite ingest_paths_concat. apply ingest_file_events. Qed.

Lemma foldM_invariant_Forall {A B} (P : A -> Prop) (Q : B -> Prop)
    (f : A -> B -> Py.result A) :
  (∀ a x a', Q x → P a → f a x = Ok a' → P a') →
  ∀ l a a', Forall Q l → P a → foldM f a l = Ok a' → P a'.
Proof.
  intros Hstep. induction l as [|x l IH]; intros a a' HQ Ha Hf; simpl in Hf.
  - injection Hf as <-. exact Ha.
  - apply Forall_cons in HQ as [Hx Hl].
    apply bind_Ok in Hf as (a1 & H1 & H2). eauto.
Qed.

Lemma no_start_no_description exid paths c :
  Forall (λ ev, is_sql_start_for exid ev = false) (events_of_paths paths) →
  ingest_paths empty_ctx paths = Ok c → no_description exid c.
Proof.
  intros Hall Hc. rewrite ingest_paths_events in Hc.
  eapply (foldM_invariant_Forall (no_description exid)); [| exact Hall | | exact Hc].
  - intros a x a' Hx Ha. apply ingest_event_no_description; assumption.
  - unfold no_description. simpl. rewrite lookup_empty. reflexivity.
Qed.

Lemma odict_set_in {K V} `{EqDecision K} (d : list (K * V)) k v :
  (k, v) ∈ ODict.set d k v.
Proof.
  induction d as [|[k' v'] d IH]; simpl; [left |].
  destruct (decide (k' = k)); [left | right; exact IH].
Qed.

Lemma odict_set_keeps_group d k v exid :
  v ≠ [] → has_group exid d → has_group exid (ODict.set d k v).
Proof.
  intros Hv (ts & Hts & Hin). induction d as [|[k' v'] d IH]; [inversion Hin |].
  simpl. apply elem_of_cons in Hin as [Heq | Hin].
  - injection Heq as <- <-. destruct (decide (exid = k)) as [-> | Hne].
    + exists v. split; [exact Hv | left].
    + exists ts. split; [exact Hts | left].
  - destruct (decide (k' = k)).
    + exists ts. split; [exact Hts | right; exact Hin].
    + destruct (IH Hin) as (ts' & Hts' & Hin'). exists ts'.
      split; [exact Hts' | right; exact Hin'].
Qed.

Lemma append_task_nonempty (tbe : list (Z * list TaskRec.t)) exid t :
  (default [] (ODict.get tbe exid) ++ [t])%list ≠ [].
Proof. destruct (default [] (ODict.get tbe exid)); discriminate. Qed.

Lemma attribute_task_keeps_group c tbe t exid :
  has_group exid tbe → has_group exid (attribute_task c tbe t).
Proof.
  intros H. unfold attribute_task.
  destruct (stage_job c !! TaskRec.stageId t) as [jobId|]; [| exact H].
  destruct (job_exec c !! jobId) as [exid'|]; [| exact H].
  apply odict_set_keeps_group; [apply append_task_nonempty | exact H].
Qed.

Lemma fold_attribute_keeps_group c l acc exid :
  has_group exid acc → has_group exid (fold_left (attribute_task c) l acc).
Proof.
  revert acc. induction l as [|t l IH]; intros acc H; simpl; [exact H |].
  apply IH, attribute_task_keeps_group, H.
Qed.

Lemma fold_attribute_has_group c l acc t jobId exid :
  t ∈ l →
  stage_job c !! TaskRec.stageId t = Some jobId →
  job_exec c !! jobId = Some exid →
  has_group exid (fold_left (attribute_task c) l acc).
Proof.
  intros Hin Hs Hj. revert acc.
  induction l as [|t' l IH]; intros acc; [inversion Hin |].
  simpl. apply elem_of_cons in Hin as [<- | Hin]; [| apply IH, Hin].
  apply fold_attribute_keeps_group. unfold attribute_task. rewrite Hs, Hj.
  eexists. split; [apply append_task_nonempty | apply odict_set_in].
Qed.

Lemma aggregate_keeps_rows c groups acc results r :
  foldM (aggregate_step c) acc groups = Ok results → r ∈ acc → r ∈ results.
Proof.
  revert acc. induction groups as [|[exid ts] groups IH]; intros acc H Hr;
    simpl in H.
  - injection H as <-. exact Hr.
  - apply bind_Ok in H as (acc1 & Hstep & H). apply (IH acc1 H).
    unfold aggregate_step in Hstep. simpl in Hstep.
    destruct ts as [|t ts]; [injection Hstep as <-; exact Hr |].
    apply bind_Ok in Hstep as (row & _ & Hstep). injection Hstep as <-.
    apply elem_of_app. left. exact Hr.
Qed.

Lemma aggregate_has_row c groups acc results exid ts :
  foldM (aggregate_step c) acc groups = Ok results →
  (exid, ts) ∈ groups → ts ≠ [] →
  ∃ row, row ∈ results ∧ aggregate_group c exid ts = Ok row.
Proof.
  intros H Hin Hts. revert acc H.
  induction groups as [|g groups IH]; intros acc H; [inversion Hin |].
  simpl in H. apply bind_Ok in H as (acc1 & Hstep & H).
  apply elem_of_cons in Hin as [<- | Hin]; [| exact (IH Hin acc1 H)].
  unfold aggregate_step in Hstep. simpl in Hstep.
  destruct ts as [|t ts]; [contradiction |].
  apply bind_Ok in Hstep as (row & Hrow & Hstep). injection Hstep as <-.
  exists row. split; [| exact Hrow].
  apply (aggregate_keeps_rows _ _ _ _ _ H), elem_of_app. right. left.
Qed.

(** C10.  Suppose the stream was read into context [c] and the
    aggregation returned [rows].  If some retained task is attributable to
    execution [exid] through a job-start mapping (its stage maps to a job
    and that job to [exid]) and no execution-start event for [exid] was
    among the events read, then [rows] still contains a row for [exid],
    and the description of that row is the empty string. *)
Theorem execution_without_start_event_has_row paths c rows exid t jobId :
  ingest_paths empty_ctx paths = Ok c →
  finalize c = Ok rows →
  Forall (λ ev, is_sql_start_for exid ev = false) (events_of_paths paths) →
  t ∈ ODict.values (tasks_by_key c) →
  stage_job c !! TaskRec.stageId t = Some jobId →
  job_exec c !! jobId = Some exid →
  analyze_sql_breakdown paths = Ok rows
  ∧ ∃ row, row ∈ rows
      ∧ ResultRow.executionId row = Some exid
      ∧ ResultRow.description row = "".
Proof.
  intros Hc Hfin Hnostart Ht Hs Hj. split.
  { unfold analyze_sql_breakdown. rewrite Hc. exact Hfin. }
  unfold finalize in Hfin. apply bind_Ok in Hfin as (results & Hagg & Hfin).
  injection Hfin as <-.
  destruct (fold_attribute_has_group c _ [] t jobId exid Ht Hs Hj)
    as (ts & Hts & Hin).
  destruct (aggregate_has_row c _ _ _ exid ts Hagg Hin Hts) as (row & Hrow & Hbuilt).
  exists row. split; [rewrite sort_rows_perm; exact Hrow |].
  apply aggregate_group_Ok in Hbuilt as (Hid & Hdesc & _).
  split; [exact Hid |]. rewrite Hdesc.
  pose proof (no_start_no_description exid paths c Hnostart Hc) as Hnone.
  unfold no_description in Hnone.
  destruct (exec_info c !! exid) as [info|]; simpl in *.
  - rewrite Hnone. reflexivity.
  - reflexivity.
Qed.

(** ** The end-to-end scenario *)

Lemma permutation_of_three {A} (a b c : A) (l : list A) :
  l ≡ₚ [a; b; c] →
  l = [a; b; c] ∨ l = [a; c; b] ∨ l = [b; a; c]
  ∨ l = [b; c; a] ∨ l = [c; a; b] ∨ l = [c; b; a].
Proof.
  intros H. apply Permutation_cons_inv_r in H as (k1 & k2 & -> & H).
  apply Permutation_length_2_inv in H.
  destruct k1 as [|x [|y [|z k1]]]; simpl in H; destruct H as [H | H];
    simplify_eq; simpl; auto 10.
Qed.

(** C4.  The input holds exactly a job-start event (jobId 5, stage ids
    [1], property spark.sql.execution.id = "7"), an execution-start event
    (executionId 7, description "benchmark q1-v2.4") and one successful
    task-end event (stage 1, task 0, launch 1000, finish 1500, run time
    400, CPU time 300000000 ns), in any order, spread over any files, in
    either spelling of the field names, possibly among blank or
    undecodable lines.  Then the analysis returns the single row with
    executionId 7, num_jobs 1, num_tasks 1, makespan_ms 500, task_slot_ms
    500, executor_run_ms 400, executor_cpu_ms 300.0, cpu_vs_wall_pct 75.0. *)
Theorem end_to_end_scenario sp1 sp2 sp3 paths :
  events_of_paths paths
    ≡ₚ [Sample.job_start sp1 5 [1] "7";
        Sample.sql_start sp2 7 "benchmark q1-v2.4";
        Sample.scenario_task sp3] →
  analyze_sql_breakdown paths = Ok [Sample.scenario_row]
  ∧ ∀ row, analyze_sql_breakdown paths = Ok [row] →
      ResultRow.executionId row = Some 7
      ∧ ResultRow.num_jobs row = 1%nat
      ∧ ResultRow.num_tasks row = 1%nat
      ∧ ResultRow.makespan_ms row = Some 500
      ∧ ResultRow.task_slot_ms row = 500
      ∧ ResultRow.executor_run_ms row = 400
      ∧ ResultRow.executor_cpu_ms row = 300%float
      ∧ ResultRow.cpu_vs_wall_pct row = Some 75%float.
Proof.
  intros Hperm.
  assert (analyze_sql_breakdown paths = Ok [Sample.scenario_row]) as Hrow.
  { unfold analyze_sql_breakdown. rewrite ingest_paths_events.
    apply permutation_of_three in Hperm.
    destruct Hperm as [-> | [-> | [-> | [-> | [-> | ->]]]]];
      destruct sp1, sp2, sp3; vm_compute; reflexivity. }
  split; [exact Hrow |].
  intros row H. rewrite Hrow in H. injection H as <-.
  repeat split; reflexivity.
Qed.

(** ** Field lookup and property bags *)

Lemma g_cons d k keys dflt :
  _g d (k :: keys) dflt
  = match field d k with Some v => v | None => _g d keys dflt end.
Proof. destruct d; reflexivity. Qed.

(** [_g] returns the value of the first of [keys] that [d] has, whatever
    the later ones hold, and [dflt] exactly when [d] has none of them (in
    particular when [d] is not a dict). *)
Theorem g_returns_first_present_key d keys dflt :
  (Forall (λ k, field d k = None) keys ∧ _g d keys dflt = dflt)
  ∨ ∃ before k after v,
      keys = (before ++ k :: after)%list
      ∧ Forall (λ k', field d k' = None) before
      ∧ field d k = Some v
      ∧ _g d keys dflt = v.
Proof.
  induction keys as [|k keys IH].
  - left. split; [constructor | reflexivity].
  - rewrite g_cons. destruct (field d k) as [v|] eqn:Hk.
    + right. exists [], k, keys, v. repeat split; [constructor | exact Hk].
    + destruct IH as [[Hnone Hd] | (before & k' & after & v & -> & Hb & Hk' & Hv)].
      * left. split; [constructor; assumption | exact Hd].
      * right. exists (k :: before), k', after, v.
        repeat split; [constructor; assumption | exact Hk' | exact Hv].
Qed.

Lemma dict_get_app kvs1 kvs2 k :
  dict_get (kvs1 ++ kvs2) k
  = match dict_get kvs1 k with Some v => Some v | None => dict_get kvs2 k end.
Proof.
  induction kvs1 as [|[k' v'] kvs1 IH]; simpl; [reflexivity |].
  destruct (String.eqb k' k); [reflexivity | exact IH].
Qed.

Lemma fold_insert_lookup (kvs : list (string * json)) (acc : gmap string json) k :
  fold_left (λ out kv, <[fst kv := snd kv]> out) kvs acc !! k
  = match dict_get (reverse kvs) k with Some v => Some v | None => acc !! k end.
Proof.
  revert acc. induction kvs as [|[k0 v0] kvs IH]; intros acc; [reflexivity |].
  simpl. rewrite IH, reverse_cons, dict_get_app. simpl.
  destruct (dict_get (reverse kvs) k); [reflexivity |].
  destruct (String.eqb_spec k0 k) as [-> | Hne].
  - apply lookup_insert_eq.
  - apply lookup_insert_ne, Hne.
Qed.

Lemma fold_wrapped_bindings (kvs : list (string * json)) (acc : gmap string json) :
  fold_left (λ out kv, <[fst kv := unwrap_value (snd kv)]> out)
    (map (λ kv, (fst kv, JObj [("value", snd kv)])) kvs) acc
  = fold_left (λ out kv, <[fst kv := snd kv]> out) kvs acc.
Proof.
  revert acc. induction kvs as [|[k v] kvs IH]; intros acc; [reflexivity |].
  simpl. apply IH.
Qed.

Lemma fold_flat_bindings (kvs : list (string * json)) (acc : gmap string json) :
  Forall (λ kv, unwrap_value (snd kv) = snd kv) kvs →
  fold_left (λ out kv, <[fst kv := unwrap_value (snd kv)]> out) kvs acc
  = fold_left (λ out kv, <[fst kv := snd kv]> out) kvs acc.
Proof.
  intros H. revert acc. induction H as [|[k v] kvs Hv _ IH]; intros acc;
    [reflexivity |].
  simpl in *. rewrite Hv. apply IH.
Qed.

Lemma fold_pairs_bindings (kvs : list (string * json)) (acc : gmap string json) :
  foldM norm_pair acc
    (map (λ kv, JObj [("key", JStr (fst kv)); ("value", snd kv)]) kvs)
  = Ok (fold_left (λ out kv, <[fst kv := snd kv]> out) kvs acc).
Proof.
  revert acc. induction kvs as [|[k v] kvs IH]; intros acc; [reflexivity |].
  simpl. apply IH.
Qed.

(** The encodings of a property bag agree.  For any bindings, the dict
    with wrapped values and the list of key/value pairs both normalise,
    without raising, to the same flat mapping; so does the plain dict when
    none of its values is itself a single-field ["value"] object.  In that
    mapping a name has the value of its last binding. *)
Theorem norm_properties_encodings_agree kvs :
  _norm_properties (props_wrapped kvs) = Ok (bindings kvs)
  ∧ _norm_properties (props_pairs kvs) = Ok (bindings kvs)
  ∧ (Forall (λ kv, unwrap_value (snd kv) = snd kv) kvs →
     _norm_properties (JObj kvs) = Ok (bindings kvs))
  ∧ ∀ k, bindings kvs !! k = dict_get (reverse kvs) k.
Proof.
  unfold bindings. split; [| split; [| split]].
  - destruct kvs as [|kv kvs]; [reflexivity |].
    unfold _norm_properties, props_wrapped. simpl truthy. cbv iota beta. simpl negb.
    cbv iota. rewrite fold_wrapped_bindings. reflexivity.
  - destruct kvs as [|kv kvs]; [reflexivity |].
    unfold _norm_properties, props_pairs. simpl truthy. simpl negb. cbv iota.
    apply fold_pairs_bindings.
  - intros H. destruct kvs as [|kv kvs]; [reflexivity |].
    unfold _norm_properties. simpl truthy. simpl negb. cbv iota.
    rewrite (fold_flat_bindings _ _ H). reflexivity.
  - intros k. rewrite fold_insert_lookup, lookup_empty.
    destruct (dict_get (reverse kvs) k); reflexivity.
Qed.

(** ** What the loop ignores *)

Lemma eq_str_true x s : eq_str x s = true → x = JStr s.
Proof.
  destruct x; simpl; try discriminate.
  intros H. apply String.eqb_eq in H. rewrite H. reflexivity.
Qed.

(** A line leaves the context as it is, and raises nothing, when it is
    blank, when it does not decode, when its event tag is none of the six
    spellings the loop knows (or is missing or empty), and when it is a
    known event without the id its branch requires: no execution id on an
    execution start or end, no job id on a job start, no stage id on a
    task end. *)
Theorem ignored_line_leaves_context c line :
  strip line = ""
  ∨ json_loads line = None
  ∨ (∃ ev, json_loads line = Some ev
       ∧ (recognized (discriminator ev) = false
          ∨ (is_sql_start (discriminator ev) || is_sql_end (discriminator ev) = true
             ∧ execution_id_of ev = None)
          ∨ (eq_str (discriminator ev) "SparkListenerJobStart" = true
             ∧ job_id_of ev = None)
          ∨ (eq_str (discriminator ev) "SparkListenerTaskEnd" = true
             ∧ stage_id_of ev = None))) →
  ingest_line c line = Ok c.
Proof.
  unfold ingest_line. intros [Hblank | [Hnone | (ev & Hev & H)]].
  - rewrite Hblank. reflexivity.
  - rewrite Hnone. destruct (String.eqb _ _); reflexivity.
  - rewrite Hev. destruct (String.eqb _ _); [reflexivity |].
    unfold ingest_event. fold (discriminator ev).
    destruct (truthy (discriminator ev)); [| reflexivity]. simpl negb. cbv iota.
    unfold recognized, execution_id_of, job_id_of, stage_id_of in H.
    destruct H as [Hunk | [[Hsql Hid] | [[Hjob Hid] | [Htask Hid]]]].
    + apply orb_false_elim in Hunk as [Hunk Ht].
      apply orb_false_elim in Hunk as [Hunk Hj].
      apply orb_false_elim in Hunk as [Hs He].
      rewrite Hs, He, Hj, Ht. reflexivity.
    + destruct (is_sql_start (discriminator ev)).
      * unfold on_sql_start. rewrite Hid. reflexivity.
      * simpl in Hsql. rewrite Hsql. unfold on_sql_end. rewrite Hid. reflexivity.
    + apply eq_str_true in Hjob. rewrite Hjob. simpl.
      unfold on_job_start. rewrite Hid. reflexivity.
    + apply eq_str_true in Htask. rewrite Htask. simpl.
      unfold on_task_end. rewrite Hid. reflexivity.
Qed.

(** ** Job starts *)

Lemma fold_set_stage_job_lookup jobId sids (m : gmap Z Z) s :
  fold_left (set_stage_job jobId) sids m !! s
  = if bool_decide (Some s ∈ sids) then Some jobId else m !! s.
Proof.
  revert m. induction sids as [|sid sids IH]; intros m; [reflexivity |].
  simpl. rewrite IH.
  destruct (bool_decide_reflect (Some s ∈ sids)) as [Hin | Hnin].
  - rewrite bool_decide_eq_true_2; [reflexivity | right; exact Hin].
  - destruct sid as [s'|]; simpl.
    + destruct (decide (s' = s)) as [-> | Hne].
      * rewrite lookup_insert_eq, bool_decide_eq_true_2; [reflexivity | left].
      * rewrite lookup_insert_ne by exact Hne.
        rewrite bool_decide_eq_false_2; [reflexivity |].
        intros Hin. apply elem_of_cons in Hin as [Heq | Hin]; congruence.
    + rewrite bool_decide_eq_false_2; [reflexivity |].
      intros Hin. apply elem_of_cons in Hin as [Heq | Hin]; congruence.
Qed.

(** A job-start event with a job id, when it does not raise, maps every
    stage id it lists to that job, overwriting what the stage was mapped
    to before, and leaves the other stages' mappings, the execution
    metadata and the task store untouched; this happens whether or not
    its property bag names an execution. *)
Theorem job_start_maps_its_stages c ev c' jobId sids :
  eq_str (discriminator ev) "SparkListenerJobStart" = true →
  job_id_of ev = Some jobId →
  job_stage_ids ev = Ok sids →
  ingest_event c ev = Ok c' →
  (∀ s, stage_job c' !! s
        = if bool_decide (Some s ∈ sids) then Some jobId else stage_job c !! s)
  ∧ exec_info c' = exec_info c
  ∧ tasks_by_key c' = tasks_by_key c.
Proof.
  intros Het Hjob Hsids. unfold ingest_event. fold (discriminator ev).
  apply eq_str_true in Het. rewrite Het. simpl.
  unfold on_job_start. unfold job_id_of in Hjob. rewrite Hjob, Hsids. simpl.
  intros H. apply bind_Ok in H as (props & _ & H).
  destruct (if is_none _ then _ else _) as [je ej].
  injection H as <-. simpl. split; [| split; reflexivity].
  intros s. apply fold_set_stage_job_lookup.
Qed.

(** ** Task records *)

(** The duration of a task record: when the event has both a launch and a
    finish time it is their difference, or 0 if the finish precedes the
    launch, hence never negative; when either is missing it is the
    reported executor run time. *)
Theorem task_duration_is_clamped_or_run_time stageId ev key t :
  task_record stageId ev = Ok (key, t) →
  match TaskRec.launch t, TaskRec.finish t with
  | Some l, Some f =>
      TaskRec.duration_ms t = Z.max 0 (f - l) ∧ 0 ≤ TaskRec.duration_ms t
  | _, _ => TaskRec.duration_ms t = TaskRec.run_ms t
  end.
Proof.
  unfold task_record. destruct (float_of_int (cpu_ns ev)); [| discriminate].
  intros [= <- <-].
  cbn [TaskRec.launch TaskRec.finish TaskRec.duration_ms TaskRec.run_ms].
  destruct (if is_none _ then None else _as_int _ None) as [l|]; [| reflexivity].
  destruct (if is_none _ then None else _as_int _ None) as [fin|]; [| reflexivity].
  split; [reflexivity | lia].
Qed.

(** ** The Task Store over a whole stream *)

Lemma odict_set_keys {K V} `{EqDecision K} (d : list (K * V)) k v :
  map fst (ODict.set d k v)
  = if bool_decide (k ∈ map fst d) then map fst d else (map fst d ++ [k])%list.
Proof.
  induction d as [|[k' v'] d IH]; simpl; [reflexivity |].
  destruct (decide (k' = k)) as [-> | Hne]; simpl.
  - rewrite bool_decide_eq_true_2; [reflexivity | left].
  - rewrite IH. destruct (bool_decide_reflect (k ∈ map fst d)) as [Hin | Hnin].
    + rewrite bool_decide_eq_true_2; [reflexivity | right; exact Hin].
    + rewrite bool_decide_eq_false_2; [reflexivity |].
      intros Hin. apply elem_of_cons in Hin as [-> | Hin]; [apply Hne | apply Hnin];
        done.
Qed.

Lemma odict_set_keys_nodup {K V} `{EqDecision K} (d : list (K * V)) k v :
  NoDup (map fst d) → NoDup (map fst (ODict.set d k v)).
Proof.
  intros Hnd. rewrite odict_set_keys.
  destruct (bool_decide_reflect (k ∈ map fst d)) as [Hin | Hnin]; [exact Hnd |].
  apply NoDup_app. split; [exact Hnd |]. split; [| apply NoDup_singleton].
  intros x Hx Hk. apply list_elem_of_singleton in Hk as ->. contradiction.
Qed.

Lemma odict_set_elem {K V} `{EqDecision K} (d : list (K * V)) k v kv :
  kv ∈ ODict.set d k v → kv = (k, v) ∨ kv ∈ d.
Proof.
  induction d as [|[k' v'] d IH]; simpl.
  - intros H. apply list_elem_of_singleton in H. left. exact H.
  - destruct (decide (k' = k)) as [-> | Hne]; intros H;
      apply elem_of_cons in H as [-> | H].
    + left. reflexivity.
    + right. right. exact H.
    + right. left.
    + destruct (IH H) as [-> | Hin]; [left; reflexivity | right; right; exact Hin].
Qed.

Lemma odict_get_in {K V} `{EqDecision K} (d : list (K * V)) k v :
  ODict.get d k = Some v → (k, v) ∈ d.
Proof.
  induction d as [|[k' v'] d IH]; simpl; [discriminate |].
  destruct (decide (k' = k)) as [-> | Hne].
  - intros [= ->]. left.
  - intros H. right. apply IH, H.
Qed.

Lemma odict_in_get {K V} `{EqDecision K} (d : list (K * V)) k v :
  NoDup (map fst d) → (k, v) ∈ d → ODict.get d k = Some v.
Proof.
  induction d as [|[k' v'] d IH]; simpl; intros Hnd Hin; [inversion Hin |].
  apply NoDup_cons in Hnd as [Hk' Hnd].
  apply elem_of_cons in Hin as [[= -> ->] | Hin].
  - rewrite decide_True; reflexivity.
  - destruct (decide (k' = k)) as [-> | Hne]; [| apply IH; assumption].
    exfalso. apply Hk'. apply list_elem_of_fmap. exists (k, v). split; [reflexivity | exact Hin].
Qed.

Lemma store_task_ok d key t :
  key = (TaskRec.stageId t, TaskRec.taskId t) →
  store_ok d → store_ok (store_task d key t).
Proof.
  intros Hkey [Hnd Hall]. unfold store_task.
  assert (store_ok (ODict.set d key t)) as Hset.
  { split; [apply odict_set_keys_nodup, Hnd |].
    apply Forall_forall. intros kt Hin.
    apply odict_set_elem in Hin as [-> | Hin]; [exact Hkey |].
    rewrite Forall_forall in Hall. apply Hall, Hin. }
  destruct (ODict.get d key) as [prev|]; [| exact Hset].
  destruct (negb (TaskRec.success prev) && TaskRec.success t);
    [exact Hset | split; assumption].
Qed.

Lemma eq_str_truthy x s : s ≠ "" → eq_str x s = true → truthy x = true.
Proof.
  intros Hs H. apply eq_str_true in H as ->. simpl.
  destruct (String.eqb_spec s ""); [contradiction | reflexivity].
Qed.

(** What one event does to the Task Store. *)
Lemma ingest_event_tasks c ev c' :
  ingest_event c ev = Ok c' →
  tasks_by_key c'
  = match event_record ev with
    | Some kt => store_task (tasks_by_key c) (fst kt) (snd kt)
    | None => tasks_by_key c
    end.
Proof.
  unfold ingest_event, event_record. fold (discriminator ev).
  destruct (truthy (discriminator ev)) eqn:Htruthy; simpl.
  2:{ intros [= <-].
      destruct (eq_str (discriminator ev) "SparkListenerTaskEnd") eqn:He;
        [| reflexivity].
      apply eq_str_truthy in He; [congruence | discriminate]. }
  destruct (is_sql_start (discriminator ev)) eqn:Hs.
  { assert (eq_str (discriminator ev) "SparkListenerTaskEnd" = false) as ->.
    { unfold is_sql_start in Hs. apply orb_true_iff in Hs as [Hs | Hs];
        apply eq_str_true in Hs; rewrite Hs; reflexivity. }
    unfold on_sql_start. destruct (_as_int _ None) as [exid|];
      [| intros [= <-]; reflexivity].
    intros H. apply bind_Ok in H as (desc & _ & H). injection H as <-. reflexivity. }
  destruct (is_sql_end (discriminator ev)) eqn:He.
  { assert (eq_str (discriminator ev) "SparkListenerTaskEnd" = false) as ->.
    { unfold is_sql_end in He. apply orb_true_iff in He as [He | He];
        apply eq_str_true in He; rewrite He; reflexivity. }
    unfold on_sql_end. destruct (_as_int _ None) as [exid|];
      intros [= <-]; reflexivity. }
  destruct (eq_str (discriminator ev) "SparkListenerJobStart") eqn:Hj.
  { assert (eq_str (discriminator ev) "SparkListenerTaskEnd" = false) as ->.
    { apply eq_str_true in Hj. rewrite Hj. reflexivity. }
    unfold on_job_start. destruct (_as_int _ None) as [jobId|];
      [| intros [= <-]; reflexivity].
    intros H. apply bind_Ok in H as (sids & _ & H).
    apply bind_Ok in H as (props & _ & H).
    destruct (if is_none _ then _ else _) as [je ej].
    injection H as <-. reflexivity. }
  destruct (eq_str (discriminator ev) "SparkListenerTaskEnd");
    [| intros [= <-]; reflexivity].
  unfold on_task_end, stage_id_of. destruct (_as_int _ None) as [stageId|];
    [| intros [= <-]; reflexivity].
  intros H. apply bind_Ok in H as (kt & Hkt & H). injection H as <-.
  rewrite Hkt. reflexivity.
Qed.

Lemma event_record_key ev key t :
  event_record ev = Some (key, t) →
  key = (TaskRec.stageId t, TaskRec.taskId t).
Proof.
  unfold event_record. destruct (eq_str _ _); [| discriminate].
  destruct (stage_id_of ev) as [stageId|]; [| discriminate].
  destruct (task_record stageId ev) as [kt|] eqn:Hrec; [| discriminate].
  intros [= ->]. apply task_record_Ok in Hrec as (Hs & Hk & _).
  rewrite Hs. exact Hk.
Qed.

Lemma store_all_snoc d recs kt :
  store_all d (recs ++ [kt]) = store_task (store_all d recs) (fst kt) (snd kt).
Proof. unfold store_all. rewrite fold_left_app. reflexivity. Qed.

Lemma ingest_events_tasks evs c c' :
  foldM ingest_event c evs = Ok c' →
  tasks_by_key c' = store_all (tasks_by_key c) (omap event_record evs).
Proof.
  revert c. induction evs as [|ev evs IH]; intros c H.
  - injection H as <-. reflexivity.
  - rewrite foldM_cons in H. apply bind_Ok in H as (c1 & H1 & H).
    rewrite (IH _ H), (ingest_event_tasks _ _ _ H1).
    change (omap event_record (ev :: evs))
      with (from_option (λ y, y :: omap event_record evs)
              (omap event_record evs) (event_record ev)).
    destruct (event_record ev) as [kt|]; reflexivity.
Qed.

Lemma store_all_ok d recs :
  Forall (λ kt, fst kt = (TaskRec.stageId (snd kt), TaskRec.taskId (snd kt))) recs →
  store_ok d → store_ok (store_all d recs).
Proof.
  intros Hrecs. revert d. induction Hrecs as [|kt recs Hkt _ IH]; intros d Hd;
    [exact Hd |].
  simpl. apply IH, store_task_ok; assumption.
Qed.

Lemma event_records_keyed evs :
  Forall (λ kt, fst kt = (TaskRec.stageId (snd kt), TaskRec.taskId (snd kt)))
         (omap event_record evs).
Proof.
  apply Forall_forall. intros [key t] Hin.
  apply list_elem_of_omap in Hin as (ev & _ & Hev).
  apply event_record_key in Hev. exact Hev.
Qed.

(** After any stream that is read without raising, the Task Store holds
    at most one record per key (its keys are pairwise distinct), every
    record sits under the key (stageId, taskId) of its own fields, and
    looking a key up finds exactly the record listed under it. *)
Theorem task_store_has_one_record_per_key paths c :
  ingest_paths empty_ctx paths = Ok c →
  NoDup (map fst (tasks_by_key c))
  ∧ Forall (λ kt, fst kt = (TaskRec.stageId (snd kt), TaskRec.taskId (snd kt)))
           (tasks_by_key c)
  ∧ ∀ key t, (key, t) ∈ tasks_by_key c ↔ ODict.get (tasks_by_key c) key = Some t.
Proof.
  intros H. rewrite ingest_paths_events in H. apply ingest_events_tasks in H.
  assert (store_ok (tasks_by_key c)) as [Hnd Hall].
  { rewrite H. apply store_all_ok; [apply event_records_keyed |].
    split; [constructor | constructor]. }
  split; [exact Hnd |]. split; [exact Hall |].
  intros key t. split; [apply odict_in_get, Hnd | apply odict_get_in].
Qed.

Lemma store_all_get d recs key :
  ODict.get (store_all d recs) key
  = fold_left (λ prev t, Some (retained prev t))
      (map snd (List.filter (λ kt, bool_decide (fst kt = key)) recs))
      (ODict.get d key).
Proof.
  revert d. induction recs as [|[k t] recs IH]; intros d; [reflexivity |].
  simpl. rewrite IH. destruct (bool_decide_reflect (k = key)) as [-> | Hne]; simpl.
  - rewrite store_task_get. reflexivity.
  - rewrite store_task_get_ne by exact Hne. reflexivity.
Qed.

Lemma retained_fold_some l p :
  fold_left (λ prev t, Some (retained prev t)) l (Some p)
  = Some (if TaskRec.success p then p
          else default p (List.find TaskRec.success l)).
Proof.
  revert p. induction l as [|t l IH]; intros p; simpl.
  - destruct (TaskRec.success p); reflexivity.
  - rewrite IH. destruct (TaskRec.success p) eqn:Hp; simpl.
    + rewrite Hp. reflexivity.
    + destruct (TaskRec.success t) eqn:Ht; simpl.
      * rewrite Ht. reflexivity.
      * rewrite Hp. reflexivity.
Qed.

Lemma retained_fold_none l :
  fold_left (λ prev t, Some (retained prev t)) l None = first_success_or_first l.
Proof.
  destruct l as [|t l]; [reflexivity |].
  simpl. rewrite retained_fold_some. unfold first_success_or_first. simpl.
  destruct (TaskRec.success t); [reflexivity |].
  destruct (List.find TaskRec.success l); reflexivity.
Qed.

(** Over a whole stream read without raising, and for every key: the
    record the Task Store retains is the first successful one among the
    records the task-end events offered for that key, in arrival order,
    or, when none of them is successful, the first one offered; the key
    is absent exactly when no record was offered for it. *)
Theorem task_store_keeps_first_success_or_first paths c key :
  ingest_paths empty_ctx paths = Ok c →
  ODict.get (tasks_by_key c) key
  = first_success_or_first (records_for key (events_of_paths paths)).
Proof.
  intros H. rewrite ingest_paths_events in H. apply ingest_events_tasks in H.
  rewrite H, store_all_get. apply retained_fold_none.
Qed.

(** ** Attribution *)

Lemma attribute_task_cases c acc t :
  attribute_task c acc t
  = match attributed_to c t with
    | Some exid => append_task acc exid t
    | None => acc
    end.
Proof.
  unfold attribute_task, attributed_to.
  destruct (stage_job c !! TaskRec.stageId t); reflexivity.
Qed.

Lemma append_task_concat (acc : list (Z * list TaskRec.t)) exid t :
  concat (map snd (append_task acc exid t)) ≡ₚ (concat (map snd acc) ++ [t])%list.
Proof.
  unfold append_task. induction acc as [|[k v] acc IH]; simpl; [reflexivity |].
  destruct (decide (k = exid)) as [-> | Hne]; simpl.
  - rewrite <- !app_assoc. apply Permutation_app_head, Permutation_app_comm.
  - rewrite IH, app_assoc. reflexivity.
Qed.

Lemma append_task_elem (acc : list (Z * list TaskRec.t)) exid t exid' ts t' :
  (exid', ts) ∈ append_task acc exid t → t' ∈ ts →
  (∃ ts0, (exid', ts0) ∈ acc ∧ t' ∈ ts0) ∨ (exid' = exid ∧ t' = t).
Proof.
  unfold append_task. intros Hin Ht'.
  apply odict_set_elem in Hin as [[= -> ->] | Hin]; [| left; eauto].
  apply elem_of_app in Ht' as [Hold | Hnew].
  - left. destruct (ODict.get acc exid) as [old|] eqn:Hget; [| inversion Hold].
    exists old. split; [apply odict_get_in, Hget | exact Hold].
  - right. apply list_elem_of_singleton in Hnew. split; [reflexivity | exact Hnew].
Qed.

Lemma filter_attributable_cons c t l :
  List.filter (λ t, bool_decide (is_Some (attributed_to c t))) (t :: l)
  = match attributed_to c t with
    | Some _ => t :: List.filter (λ t, bool_decide (is_Some (attributed_to c t))) l
    | None => List.filter (λ t, bool_decide (is_Some (attributed_to c t))) l
    end.
Proof.
  simpl. destruct (attributed_to c t) as [exid|].
  - rewrite bool_decide_eq_true_2; [reflexivity | eauto].
  - rewrite bool_decide_eq_false_2; [reflexivity |]. intros [x Hx]. discriminate.
Qed.

(** The attribution loop, from any groups it starts with. *)
Lemma fold_attribute_spec c l acc :
  NoDup (map fst acc) → Forall (λ g, snd g ≠ []) acc →
  NoDup (map fst (fold_left (attribute_task c) l acc))
  ∧ Forall (λ g, snd g ≠ []) (fold_left (attribute_task c) l acc)
  ∧ concat (map snd (fold_left (attribute_task c) l acc))
    ≡ₚ (concat (map snd acc)
        ++ List.filter (λ t, bool_decide (is_Some (attributed_to c t))) l)%list
  ∧ ∀ exid ts t, (exid, ts) ∈ fold_left (attribute_task c) l acc → t ∈ ts →
      (∃ ts0, (exid, ts0) ∈ acc ∧ t ∈ ts0)
      ∨ (t ∈ l ∧ attributed_to c t = Some exid).
Proof.
  revert acc. induction l as [|t l IH]; intros acc Hnd Hne.
  - simpl. rewrite app_nil_r. repeat split; try assumption; [reflexivity |].
    intros exid ts t Hin Ht. left. eauto.
  - simpl fold_left. rewrite attribute_task_cases, filter_attributable_cons.
    destruct (attributed_to c t) as [exid0|] eqn:Hatt.
    + destruct (IH (append_task acc exid0 t)) as (H1 & H2 & H3 & H4).
      { apply odict_set_keys_nodup, Hnd. }
      { apply Forall_forall. intros g Hg.
        apply odict_set_elem in Hg as [-> | Hg];
          [apply append_task_nonempty | rewrite Forall_forall in Hne; auto]. }
      split; [exact H1 |]. split; [exact H2 |]. split.
      * rewrite H3, append_task_concat, <- app_assoc. reflexivity.
      * intros exid ts t' Hin Ht'.
        destruct (H4 exid ts t' Hin Ht') as [(ts0 & Hin0 & Ht0) | [Hl Ha]].
        -- destruct (append_task_elem _ _ _ _ _ _ Hin0 Ht0)
             as [Hold | [-> ->]]; [left; exact Hold |].
           right. split; [left | exact Hatt].
        -- right. split; [right; exact Hl | exact Ha].
    + destruct (IH acc Hnd Hne) as (H1 & H2 & H3 & H4).
      split; [exact H1 |]. split; [exact H2 |]. split; [exact H3 |].
      intros exid ts t' Hin Ht'.
      destruct (H4 exid ts t' Hin Ht') as [Hold | [Hl Ha]]; [left; exact Hold |].
      right. split; [right; exact Hl | exact Ha].
Qed.

(** The groups of the join: distinct ids, none empty, only attributable
    retained tasks, each of them once. *)
Lemma attribute_groups c :
  NoDup (map fst (attribute c))
  ∧ Forall (λ g, snd g ≠ []) (attribute c)
  ∧ (∀ exid ts t, (exid, ts) ∈ attribute c → t ∈ ts →
       t ∈ ODict.values (tasks_by_key c) ∧ attributed_to c t = Some exid)
  ∧ concat (map snd (attribute c)) ≡ₚ attributable_tasks c.
Proof.
  destruct (fold_attribute_spec c (ODict.values (tasks_by_key c)) [])
    as (H1 & H2 & H3 & H4); [constructor | constructor |].
  split; [exact H1 |]. split; [exact H2 |]. split; [| exact H3].
  intros exid ts t Hin Ht.
  destruct (H4 exid ts t Hin Ht) as [(ts0 & Hin0 & _) | H]; [inversion Hin0 | exact H].
Qed.

(** The join.  The groups it builds have pairwise distinct execution ids
    and none of them is empty; a task is in the group of [exid] only if it
    is a retained task whose stage maps to a job that maps to [exid]; and
    the groups together hold every such attributable task exactly once.
    So a retained task whose stage no job start listed, or whose job
    names no execution, is in no group at all. *)
Theorem attribution_groups_each_attributable_task_once c :
  NoDup (map fst (attribute c))
  ∧ Forall (λ g, snd g ≠ []) (attribute c)
  ∧ (∀ exid ts t, (exid, ts) ∈ attribute c → t ∈ ts →
       t ∈ ODict.values (tasks_by_key c) ∧ attributed_to c t = Some exid)
  ∧ concat (map snd (attribute c)) ≡ₚ attributable_tasks c
  ∧ ∀ t, attributed_to c t = None →
      Forall (λ g, t ∉ snd g) (attribute c).
Proof.
  destruct (attribute_groups c) as (H1 & H2 & Hsound & H3).
  split; [exact H1 |]. split; [exact H2 |]. split; [exact Hsound |].
  split; [exact H3 |].
  intros t Hnone. apply Forall_forall. intros [exid ts] Hg Ht.
  destruct (Hsound exid ts t Hg Ht) as [_ Hsome]. congruence.
Qed.

(** ** Rows and groups *)

Lemma aggregate_rows_of_groups c groups acc results :
  Forall (λ g, snd g ≠ []) groups →
  foldM (aggregate_step c) acc groups = Ok results →
  ∃ rows, results = (acc ++ rows)%list
    ∧ Forall2 (λ g r, aggregate_group c (fst g) (snd g) = Ok r) groups rows.
Proof.
  intros Hne. revert acc. induction Hne as [|[exid ts] groups Hts _ IH];
    intros acc H.
  - injection H as <-. exists []. rewrite app_nil_r. split; [reflexivity | constructor].
  - rewrite foldM_cons in H. apply bind_Ok in H as (acc1 & Hstep & H).
    unfold aggregate_step in Hstep. simpl in Hstep, Hts.
    destruct ts as [|t ts]; [contradiction |].
    apply bind_Ok in Hstep as (row & Hrow & Hstep). injection Hstep as <-.
    destruct (IH _ H) as (rows & -> & Hrows).
    exists (row :: rows). rewrite <- app_assoc. split; [reflexivity |].
    constructor; [exact Hrow | exact Hrows].
Qed.

(** The rows of a context: one per group, each the aggregate of its
    group, then sorted. *)
Lemma finalize_rows c rows :
  finalize c = Ok rows →
  ∃ results,
    Forall2 (λ g r, aggregate_group c (fst g) (snd g) = Ok r) (attribute c) results
    ∧ rows ≡ₚ results ∧ rows = sort_rows results.
Proof.
  unfold finalize. intros H. apply bind_Ok in H as (results & Hagg & H).
  injection H as <-.
  destruct (attribute_groups c) as (_ & Hne & _).
  destruct (aggregate_rows_of_groups c _ [] _ Hne Hagg) as (rows & -> & Hrows).
  exists rows. split; [exact Hrows |]. split; [apply sort_rows_perm | reflexivity].
Qed.

Lemma rows_ids_of_groups c groups results :
  Forall2 (λ g r, aggregate_group c (fst g) (snd g) = Ok r) groups results →
  map ResultRow.executionId results = map (λ g, Some (fst g)) groups
  ∧ map ResultRow.num_tasks results = map (λ g, length (snd g)) groups.
Proof.
  induction 1 as [|g r groups results Hr _ [IH1 IH2]]; [split; reflexivity |].
  apply aggregate_group_Ok in Hr as (Hid & _ & _ & Hn & _).
  simpl. rewrite Hid, Hn, IH1, IH2. split; reflexivity.
Qed.

Lemma row_of_some_group c groups results r :
  Forall2 (λ g r, aggregate_group c (fst g) (snd g) = Ok r) groups results →
  r ∈ results → ∃ g, g ∈ groups ∧ aggregate_group c (fst g) (snd g) = Ok r.
Proof.
  induction 1 as [|g r' groups results Hr _ IH]; intros Hin; [inversion Hin |].
  apply elem_of_cons in Hin as [-> | Hin].
  - exists g. split; [left | exact Hr].
  - destruct (IH Hin) as (g' & Hg' & Hr'). exists g'. split; [right; exact Hg' | exact Hr'].
Qed.

Lemma strictly_sorted_ids l :
  NoDup (map ResultRow.executionId l) → Forall has_nonneg_id l →
  StronglySorted id_le l → StronglySorted id_lt l.
Proof.
  intros Hnd Hall Hs. induction Hs as [|a l Hl IH Ha]; [constructor |].
  simpl in Hnd. apply NoDup_cons in Hnd as [Hnotin Hnd].
  apply Forall_cons in Hall as [Hna Hnl].
  constructor; [apply IH; assumption |].
  rewrite Forall_forall in *. intros x Hx.
  specialize (Ha x Hx). destruct Hna as (ia & Hia & _), (Hnl x Hx) as (ix & Hix & _).
  unfold id_le in Ha. unfold id_lt. rewrite Hia, Hix in Ha. rewrite Hia, Hix.
  destruct (decide (ia = ix)) as [-> | Hne]; [| lia].
  exfalso. apply Hnotin. rewrite Hia, <- Hix.
  apply list_elem_of_fmap. exists x. split; [reflexivity | exact Hx].
Qed.

(** One row per execution.  The rows the analysis returns have pairwise
    distinct execution ids, one row for each execution that some retained
    task is attributed to; and when no id is negative they are strictly
    ascending in [executionId]. *)
Theorem one_row_per_execution paths rows :
  analyze_sql_breakdown paths = Ok rows →
  NoDup (map ResultRow.executionId rows)
  ∧ (∀ c, ingest_paths empty_ctx paths = Ok c →
       ∀ exid, (∃ r, r ∈ rows ∧ ResultRow.executionId r = Some exid)
               ↔ ∃ t, t ∈ ODict.values (tasks_by_key c)
                      ∧ attributed_to c t = Some exid)
  ∧ (Forall has_nonneg_id rows → StronglySorted id_lt rows).
Proof.
  intros H. unfold analyze_sql_breakdown in H.
  apply bind_Ok in H as (c & Hc & Hfin).
  destruct (finalize_rows c rows Hfin) as (results & Hrows & Hperm & Hsort).
  destruct (rows_ids_of_groups _ _ _ Hrows) as [Hids _].
  destruct (attribute_groups c) as (Hnd & Hne & Hsound & _).
  assert (NoDup (map ResultRow.executionId rows)) as Hdistinct.
  { rewrite Hperm, Hids.
    rewrite <- (map_map fst Some). apply NoDup_fmap_2; [| exact Hnd].
    intros x y [= ->]. reflexivity. }
  split; [exact Hdistinct |]. split.
  - intros c' Hc'. rewrite Hc in Hc'. injection Hc' as <-. intros exid. split.
    + intros (r & Hr & Hid). rewrite Hperm in Hr.
      destruct (row_of_some_group _ _ _ _ Hrows Hr) as ([exid' ts] & Hg & Hagg).
      apply aggregate_group_Ok in Hagg as (Hid' & _). simpl in Hid'.
      rewrite Hid in Hid'. injection Hid' as ->.
      rewrite Forall_forall in Hne. specialize (Hne _ Hg). simpl in Hne.
      destruct ts as [|t ts]; [contradiction |].
      exists t. apply (Hsound exid' (t :: ts) t Hg). left.
    + intros (t & Ht & Hatt). unfold attributed_to in Hatt.
      destruct (stage_job c !! TaskRec.stageId t) as [jobId|] eqn:Hs; [| discriminate].
      destruct (fold_attribute_has_group c _ [] t jobId exid Ht Hs Hatt)
        as (ts & Hts & Hin).
      unfold finalize in Hfin. apply bind_Ok in Hfin as (results' & Hagg & _).
      destruct (aggregate_has_row c _ _ _ exid ts Hagg Hin Hts) as (row & Hrow & Hbuilt).
      destruct (aggregate_rows_of_groups c _ [] _ Hne Hagg) as (rows' & -> & Hrows').
      simpl in Hrow.
      assert (rows' = results) as ->.
      { clear -Hrows Hrows'. revert rows' Hrows'.
        induction Hrows as [|g r gs rs Hr _ IH]; intros rows' Hrows';
          inversion Hrows' as [|g' r' gs' rs' Hr' Hrest]; subst; [reflexivity |].
        rewrite Hr in Hr'. injection Hr' as ->. f_equal. apply IH, Hrest. }
      exists row. split; [rewrite Hperm; exact Hrow |].
      apply aggregate_group_Ok in Hbuilt as (Hid & _). exact Hid.
  - intros Hall. rewrite Hsort. apply strictly_sorted_ids.
    + rewrite <- Hsort. exact Hdistinct.
    + rewrite <- Hsort. exact Hall.
    + apply sorted_nonneg_ids; [rewrite <- Hsort; exact Hall | apply sort_rows_sorted].
Qed.

(** ** Counts *)

Lemma ingest_event_jobs_consistent c ev c' :
  jobs_consistent c → ingest_event c ev = Ok c' → jobs_consistent c'.
Proof.
  unfold ingest_event. intros Hc.
  destruct (negb (truthy _)); [intros [= <-]; exact Hc |].
  destruct (is_sql_start _).
  { unfold on_sql_start. destruct (_as_int _ None) as [exid|];
      [| intros [= <-]; exact Hc].
    intros H. apply bind_Ok in H as (desc & _ & H). injection H as <-. exact Hc. }
  destruct (is_sql_end _).
  { unfold on_sql_end. destruct (_as_int _ None) as [exid|];
      intros [= <-]; exact Hc. }
  destruct (eq_str _ "SparkListenerJobStart").
  { unfold on_job_start. destruct (_as_int _ None) as [jobId|];
      [| intros [= <-]; exact Hc].
    intros H. apply bind_Ok in H as (sids & _ & H).
    apply bind_Ok in H as (props & _ & H).
    destruct (is_none _); [injection H as <-; exact Hc |].
    destruct (int _) as [exid|]; injection H as <-; [| exact Hc].
    unfold jobs_consistent in *. simpl. intros j e Hj.
    destruct (decide (j = jobId)) as [-> | Hne].
    - rewrite lookup_insert_eq in Hj. injection Hj as <-.
      rewrite lookup_insert_eq. simpl. set_solver.
    - rewrite lookup_insert_ne in Hj by congruence. specialize (Hc j e Hj).
      destruct (decide (exid = e)) as [-> | Hne'].
      + rewrite lookup_insert_eq. simpl. set_solver.
      + rewrite lookup_insert_ne by exact Hne'. exact Hc. }
  destruct (eq_str _ "SparkListenerTaskEnd").
  { unfold on_task_end. destruct (_as_int _ None) as [stageId|];
      [| intros [= <-]; exact Hc].
    intros H. apply bind_Ok in H as (kt & _ & H). injection H as <-. exact Hc. }
  intros [= <-]. exact Hc.
Qed.

Lemma ingest_paths_jobs_consistent paths c :
  ingest_paths empty_ctx paths = Ok c → jobs_consistent c.
Proof.
  rewrite ingest_paths_events.
  apply (foldM_invariant jobs_consistent ingest_event).
  - intros a x a'. apply ingest_event_jobs_consistent.
  - intros j e H. simpl in H. rewrite lookup_empty in H. discriminate.
Qed.

Lemma sum_list_perm (l1 l2 : list nat) : l1 ≡ₚ l2 → sum_list l1 = sum_list l2.
Proof.
  induction 1 as [| x l1 l2 _ IH | x y l | l1 l2 l3 _ IH1 _ IH2]; simpl; lia.
Qed.

Lemma sum_list_lengths {A} (ls : list (list A)) :
  sum_list (map length ls) = length (concat ls).
Proof.
  induction ls as [|l ls IH]; simpl; [reflexivity |].
  rewrite length_app, IH. reflexivity.
Qed.

(** The task counts of the rows: none is zero, and they add up to the
    number of attributable tasks. *)
Lemma rows_task_counts c rows :
  finalize c = Ok rows →
  Forall (λ r, (1 ≤ ResultRow.num_tasks r)%nat) rows
  ∧ sum_list (map ResultRow.num_tasks rows) = length (attributable_tasks c).
Proof.
  intros Hfin.
  destruct (finalize_rows c rows Hfin) as (results & Hrows & Hperm & _).
  destruct (attribute_groups c) as (_ & Hne & _ & Hall).
  split.
  - apply Forall_forall. intros r Hr. rewrite Hperm in Hr.
    destruct (row_of_some_group _ _ _ _ Hrows Hr) as ([exid ts] & Hg & Hagg).
    rewrite Forall_forall in Hne. specialize (Hne _ Hg). simpl in Hne, Hagg.
    apply aggregate_group_Ok in Hagg as (_ & _ & _ & Htasks & _).
    rewrite Htasks. destruct ts as [|t ts]; [contradiction | simpl; lia].
  - rewrite (sum_list_perm _ _ (Permutation_map ResultRow.num_tasks Hperm)).
    destruct (rows_ids_of_groups _ _ _ Hrows) as [_ ->].
    rewrite <- (map_map snd length), sum_list_lengths.
    apply Permutation_length, Hall.
Qed.

(** No row is hollow, and no task is counted twice.  Every row the
    analysis returns counts at least one task and at least one job.  The
    task counts of all rows add up to the number of retained tasks that
    the join attributes to an execution. *)
Theorem rows_count_every_attributed_task_once paths c rows :
  ingest_paths empty_ctx paths = Ok c →
  finalize c = Ok rows →
  Forall (λ r, (1 ≤ ResultRow.num_tasks r)%nat ∧ (1 ≤ ResultRow.num_jobs r)%nat) rows
  ∧ sum_list (map ResultRow.num_tasks rows) = length (attributable_tasks c).
Proof.
  intros Hc Hfin.
  destruct (rows_task_counts c rows Hfin) as [Hpos Hsum].
  split; [| exact Hsum].
  destruct (finalize_rows c rows Hfin) as (results & Hrows & Hperm & _).
  destruct (attribute_groups c) as (_ & Hne & Hsound & _).
  rewrite Forall_forall in Hpos.
  apply Forall_forall. intros r Hr. split; [exact (Hpos r Hr) |].
  rewrite Hperm in Hr.
  destruct (row_of_some_group _ _ _ _ Hrows Hr) as ([exid ts] & Hg & Hagg).
  rewrite Forall_forall in Hne. specialize (Hne _ Hg). simpl in Hne, Hagg.
  apply aggregate_group_Ok in Hagg as (_ & _ & Hjobs & _).
  rewrite Hjobs. destruct ts as [|t ts]; [contradiction |].
  destruct (Hsound exid (t :: ts) t Hg) as [_ Hatt]; [left |].
  unfold attributed_to in Hatt.
  destruct (stage_job c !! TaskRec.stageId t) as [jobId|]; [| discriminate].
  pose proof (ingest_paths_jobs_consistent paths c Hc jobId exid Hatt) as Hin.
  destruct (size (default (∅ : gset Z) (exec_jobs c !! exid))) eqn:Hsize; [| lia].
  apply size_empty_iff in Hsize. exfalso.
  apply (not_elem_of_empty (C := gset Z) jobId). rewrite <- Hsize. exact Hin.
Qed.

(** The zero-result condition.  For a stream read into context [c], the
    analysis returns no row exactly when no retained task is attributable
    (its stage maps to no job, or its job to no execution); and that is
    exactly when the process exits with status 2. *)
Theorem no_rows_iff_no_attributable_task paths c rows output_file :
  ingest_paths empty_ctx paths = Ok c →
  finalize c = Ok rows →
  (rows = [] ↔ attributable_tasks c = [])
  ∧ (exit_status (main paths output_file) = 2 ↔ attributable_tasks c = []).
Proof.
  intros Hc Hfin.
  assert (rows = [] ↔ attributable_tasks c = []) as Hiff.
  { destruct (rows_task_counts c rows Hfin) as [Hpos Hsum].
    split.
    - intros ->. simpl in Hsum. symmetry in Hsum.
      apply length_zero_iff_nil in Hsum. exact Hsum.
    - intros Hnil. rewrite Hnil in Hsum. simpl in Hsum.
      destruct rows as [|r rows]; [reflexivity |].
      apply Forall_cons in Hpos as [Hr _]. simpl in Hsum. lia. }
  split; [exact Hiff |].
  assert (analyze_sql_breakdown paths = Ok rows) as Hrun.
  { unfold analyze_sql_breakdown. rewrite Hc. exact Hfin. }
  rewrite <- Hiff. unfold main. rewrite Hrun. simpl.
  destruct rows as [|r rows]; simpl; [| destruct (write_destination _ _)];
    simpl; split; intros H; try reflexivity; discriminate.
Qed.

(** ** Makespan of a growing group *)

Lemma makespan_grows ts1 ts2 m :
  (∀ t, t ∈ ts1 → t ∈ ts2) →
  makespan ts1 = Some m → ∃ m', makespan ts2 = Some m' ∧ m ≤ m'.
Proof.
  intros Hsub H1.
  pose proof (makespan_spec ts1) as S1. rewrite H1 in S1.
  destruct S1 as (s1 & e1 & [(tl & Htl & Hl) _] & [(tf & Htf & Hf) _] & ->).
  pose proof (makespan_spec ts2) as S2.
  destruct (makespan ts2) as [m2|].
  - destruct S2 as (s2 & e2 & [_ Hs2] & [_ He2] & ->).
    exists (e2 - s2). split; [reflexivity |].
    specialize (Hs2 tl s1 (Hsub _ Htl) Hl). specialize (He2 tf e1 (Hsub _ Htf) Hf).
    lia.
  - exfalso. destruct S2 as [Hnone | Hnone].
    + rewrite (Hnone tl (Hsub _ Htl)) in Hl. discriminate.
    + rewrite (Hnone tf (Hsub _ Htf)) in Hf. discriminate.
Qed.

(** Adding tasks to a group never shrinks its makespan: if the row of a
    group has a makespan, the row of any group containing all its tasks
    has one too, and it is at least as large. *)
Theorem makespan_never_shrinks c exid ts1 ts2 row1 row2 m :
  (∀ t, t ∈ ts1 → t ∈ ts2) →
  aggregate_group c exid ts1 = Ok row1 →
  aggregate_group c exid ts2 = Ok row2 →
  ResultRow.makespan_ms row1 = Some m →
  ∃ m', ResultRow.makespan_ms row2 = Some m' ∧ m ≤ m'.
Proof.
  intros Hsub H1 H2.
  apply aggregate_group_Ok in H1 as (_ & _ & _ & _ & -> & _).
  apply aggregate_group_Ok in H2 as (_ & _ & _ & _ & -> & _).
  apply makespan_grows, Hsub.
Qed.

(** ** Descriptions *)

Lemma lstrip_with_shape sp s :
  lstrip_with sp s = ""
  ∨ ∃ c s', lstrip_with sp s = String c s' ∧ sp c = false.
Proof.
  induction s as [|c s IH]; simpl; [left; reflexivity |].
  destruct (sp c) eqn:Hc; [exact IH |]. right. eauto.
Qed.

Lemma rstrip_with_idempotent sp s :
  rstrip_with sp (rstrip_with sp s) = rstrip_with sp s.
Proof.
  induction s as [|c s IH]; simpl; [reflexivity |].
  destruct (rstrip_with sp s) as [|c' r] eqn:Hr.
  - destruct (sp c) eqn:Hc; simpl; [reflexivity |]. rewrite Hc. reflexivity.
  - simpl in *. rewrite IH. reflexivity.
Qed.

Lemma rstrip_with_keeps_head sp c s :
  sp c = false → ∃ r, rstrip_with sp (String c s) = String c r.
Proof.
  intros Hc. simpl. destruct (rstrip_with sp s); [rewrite Hc |]; eauto.
Qed.

Lemma strip_idempotent s : strip (strip s) = strip s.
Proof.
  unfold strip.
  destruct (lstrip_with_shape isspace s) as [-> | (c & s' & -> & Hc)];
    [reflexivity |].
  destruct (rstrip_with_keeps_head isspace c s' Hc) as (r & Hr).
  rewrite Hr at 1. simpl lstrip_with. rewrite Hc, <- Hr.
  apply rstrip_with_idempotent.
Qed.

Lemma ingest_event_description c ev c' exid :
  ingest_event c ev = Ok c' →
  if is_sql_start_for exid ev
  then ∃ d, event_description ev = Ok d ∧ description_of exid c' = Some d
  else description_of exid c' = description_of exid c.
Proof.
  unfold ingest_event, is_sql_start_for, description_of, event_description.
  destruct (truthy _); simpl; [| intros [= <-]; reflexivity].
  destruct (is_sql_start _); simpl.
  { unfold on_sql_start. destruct (_as_int _ None) as [exid'|].
    2:{ intros [= <-]. rewrite bool_decide_eq_false_2 by discriminate. reflexivity. }
    intros H. apply bind_Ok in H as (desc & Hdesc & H). injection H as <-. simpl.
    destruct (bool_decide_reflect (Some exid' = Some exid)) as [[= ->] | Hne].
    - exists desc. split; [exact Hdesc |]. rewrite lookup_insert_eq. reflexivity.
    - rewrite lookup_insert_ne by congruence. reflexivity. }
  destruct (is_sql_end _).
  { unfold on_sql_end. destruct (_as_int _ None) as [exid'|];
      intros [= <-]; [| reflexivity]. simpl.
    destruct (decide (exid' = exid)) as [-> | Hne].
    - rewrite lookup_insert_eq. simpl.
      destruct (exec_info c !! exid) as [info|]; simpl;
        destruct (is_none _); reflexivity.
    - rewrite lookup_insert_ne by exact Hne. reflexivity. }
  destruct (eq_str _ "SparkListenerJobStart").
  { unfold on_job_start. destruct (_as_int _ None) as [jobId|];
      [| intros [= <-]; reflexivity].
    intros H. apply bind_Ok in H as (sids & _ & H).
    apply bind_Ok in H as (props & _ & H).
    destruct (if is_none _ then _ else _) as [je ej].
    injection H as <-. reflexivity. }
  destruct (eq_str _ "SparkListenerTaskEnd").
  { unfold on_task_end. destruct (_as_int _ None) as [stageId|];
      [| intros [= <-]; reflexivity].
    intros H. apply bind_Ok in H as (kt & _ & H). injection H as <-. reflexivity. }
  intros [= <-]. reflexivity.
Qed.

Lemma ingest_events_keep_description exid evs c c' :
  Forall (λ ev, is_sql_start_for exid ev = false) evs →
  foldM ingest_event c evs = Ok c' →
  description_of exid c' = description_of exid c.
Proof.
  intros Hall. revert c. induction Hall as [|ev evs Hev _ IH]; intros c H.
  - injection H as <-. reflexivity.
  - rewrite foldM_cons in H. apply bind_Ok in H as (c1 & H1 & H).
    rewrite (IH _ H). pose proof (ingest_event_description c ev c1 exid H1) as Hd.
    rewrite Hev in Hd. exact Hd.
Qed.

(** The description of a row is that of the last execution-start event
    of its execution: if the events read are [before], then a start event
    [ev] of execution [exid], then [after] with no further start event of
    [exid], the row of [exid] shows the trimmed description of [ev],
    whatever [before] held.  And no row's description has leading or
    trailing blanks. *)
Theorem row_description_is_last_start_event paths before ev after c rows exid :
  events_of_paths paths = (before ++ ev :: after)%list →
  is_sql_start_for exid ev = true →
  Forall (λ ev', is_sql_start_for exid ev' = false) after →
  ingest_paths empty_ctx paths = Ok c →
  finalize c = Ok rows →
  (∃ d, event_description ev = Ok d
      ∧ ∀ r, r ∈ rows → ResultRow.executionId r = Some exid →
          ResultRow.description r = d)
  ∧ Forall (λ r, strip (ResultRow.description r) = ResultRow.description r) rows.
Proof.
  intros Hevs Hstart Hafter Hc Hfin.
  destruct (finalize_rows c rows Hfin) as (results & Hrows & Hperm & _).
  assert (∀ r, r ∈ rows →
            ∃ exid', ResultRow.executionId r = Some exid'
              ∧ ResultRow.description r
                = strip (default "" (description_of exid' c))) as Hdesc.
  { intros r Hr. rewrite Hperm in Hr.
    destruct (row_of_some_group _ _ _ _ Hrows Hr) as ([exid' ts] & _ & Hagg).
    apply aggregate_group_Ok in Hagg as (Hid & Hd & _). simpl in Hid, Hd.
    exists exid'. split; [exact Hid |]. rewrite Hd. unfold description_of.
    destruct (exec_info c !! exid'); reflexivity. }
  split.
  - rewrite ingest_paths_events, Hevs, foldM_app in Hc.
    apply bind_Ok in Hc as (c0 & _ & Hc). rewrite foldM_cons in Hc.
    apply bind_Ok in Hc as (c1 & H1 & Hc).
    pose proof (ingest_event_description c0 ev c1 exid H1) as Hd.
    rewrite Hstart in Hd. destruct Hd as (d & Hd & Hc1).
    exists d. split; [exact Hd |]. intros r Hr Hid.
    destruct (Hdesc r Hr) as (exid' & Hid' & ->).
    rewrite Hid in Hid'. injection Hid' as <-.
    rewrite (ingest_events_keep_description exid after c1 c Hafter Hc), Hc1. simpl.
    unfold event_description, strip_method in Hd.
    destruct (or_else _ _); try discriminate. injection Hd as <-.
    apply strip_idempotent.
  - apply Forall_forall. intros r Hr. destruct (Hdesc r Hr) as (exid' & _ & ->).
    apply strip_idempotent.
Qed.

(** ** Task ends commute with the other events *)

Lemma task_end_event_shape ev :
  eq_str (discriminator ev) "SparkListenerTaskEnd" = true →
  (∀ c, ingest_event c ev = Ok c)
  ∨ (∃ e, ∀ c, ingest_event c ev = Raise e)
  ∨ (∃ key t, ∀ c, ingest_event c ev
                   = Ok (with_tasks (store_task (tasks_by_key c) key t) c)).
Proof.
  intros Het. apply eq_str_true in Het.
  assert (∀ c, ingest_event c ev = on_task_end c ev) as Hbranch.
  { intros c. unfold ingest_event. fold (discriminator ev). rewrite Het. reflexivity. }
  unfold on_task_end in Hbranch.
  destruct (_as_int (_g ev ["Stage ID"; "stageId"] JNull) None) as [stageId|].
  - destruct (task_record stageId ev) as [[key t]|e] eqn:Hrec.
    + right. right. exists key, t. intros c. rewrite Hbranch. reflexivity.
    + right. left. exists e. intros c. rewrite Hbranch. reflexivity.
  - left. exact Hbranch.
Qed.

Lemma other_event_frame ev d c :
  eq_str (discriminator ev) "SparkListenerTaskEnd" = false →
  ingest_event (with_tasks d c) ev
  = (c' ← ingest_event c ev; Ok (with_tasks d c')).
Proof.
  intros Het. unfold ingest_event. fold (discriminator ev).
  destruct (negb (truthy (discriminator ev))); [reflexivity |].
  destruct (is_sql_start (discriminator ev)).
  { unfold on_sql_start. destruct (_as_int _ None) as [exid|]; [| reflexivity].
    simpl. destruct (strip_method _); reflexivity. }
  destruct (is_sql_end (discriminator ev)).
  { unfold on_sql_end. destruct (_as_int _ None) as [exid|]; reflexivity. }
  destruct (eq_str (discriminator ev) "SparkListenerJobStart").
  { unfold on_job_start. destruct (_as_int _ None) as [jobId|]; [| reflexivity].
    simpl. destruct (job_stage_ids ev); [| reflexivity]. simpl.
    destruct (_norm_properties _); [| reflexivity]. simpl.
    destruct (if is_none _ then _ else _) as [je ej]. reflexivity. }
  rewrite Het. reflexivity.
Qed.

Lemma other_event_keeps_tasks ev c c' :
  eq_str (discriminator ev) "SparkListenerTaskEnd" = false →
  ingest_event c ev = Ok c' → tasks_by_key c' = tasks_by_key c.
Proof.
  intros Het H. rewrite (ingest_event_tasks _ _ _ H).
  unfold event_record. rewrite Het. reflexivity.
Qed.

Lemma task_end_commutes ev1 ev2 c c' :
  eq_str (discriminator ev1) "SparkListenerTaskEnd" = true →
  eq_str (discriminator ev2) "SparkListenerTaskEnd" = false →
  (c1 ← ingest_event c ev1; ingest_event c1 ev2) = Ok c'
  ↔ (c2 ← ingest_event c ev2; ingest_event c2 ev1) = Ok c'.
Proof.
  intros H1 H2.
  destruct (task_end_event_shape ev1 H1) as [Hskip | [(e & Hraise) | (key & t & Hstore)]].
  - rewrite Hskip. simpl. destruct (ingest_event c ev2) as [c2|e]; simpl;
      [rewrite Hskip |]; reflexivity.
  - rewrite Hraise. simpl. destruct (ingest_event c ev2) as [c2|e']; simpl;
      [rewrite Hraise |]; split; discriminate.
  - rewrite Hstore. simpl. rewrite (other_event_frame ev2 _ c H2).
    destruct (ingest_event c ev2) as [c2|e] eqn:H; simpl; [| reflexivity].
    rewrite Hstore, (other_event_keeps_tasks ev2 c c2 H2 H). reflexivity.
Qed.

Lemma foldM_two {A B} (f : A -> B -> Py.result A) (a : A) (x y : B) (l : list B) :
  foldM f a (x :: y :: l) = (a2 ← (a1 ← f a x; f a1 y); foldM f a2 l).
Proof. simpl. destruct (f a x); reflexivity. Qed.

(** The join is deferred, so it does not matter where a task end sits
    among the other events: swapping a task-end event with a neighbouring
    event of another kind (job start, execution start or end, or anything
    ignored) changes neither whether the stream is read without raising
    nor the context it is read into, hence not the rows either. *)
Theorem task_end_position_is_irrelevant before ev1 ev2 after c c' :
  eq_str (discriminator ev1) "SparkListenerTaskEnd" = true →
  eq_str (discriminator ev2) "SparkListenerTaskEnd" = false →
  foldM ingest_event c (before ++ ev1 :: ev2 :: after) = Ok c'
  ↔ foldM ingest_event c (before ++ ev2 :: ev1 :: after) = Ok c'.
Proof.
  intros H1 H2. rewrite !foldM_app.
  destruct (foldM ingest_event c before) as [c0|e]; [| reflexivity].
  change (Ok c0 ≫= ?k) with (k c0). cbv beta. rewrite !foldM_two.
  pose proof (λ x, task_end_commutes ev1 ev2 c0 x H1 H2) as Hswap.
  destruct (c1 ← ingest_event c0 ev1; ingest_event c1 ev2) as [x|e1];
    destruct (c2 ← ingest_event c0 ev2; ingest_event c2 ev1) as [y|e2].
  - assert (x = y) as ->; [| reflexivity].
    assert (Ok y = Ok x :> Py.result ctx) as Heq by (apply Hswap; reflexivity).
    injection Heq as ->. reflexivity.
  - exfalso. assert (Raise e2 = Ok x :> Py.result ctx) as Heq
      by (apply Hswap; reflexivity). discriminate.
  - exfalso. assert (Raise e1 = Ok y :> Py.result ctx) as Heq
      by (apply Hswap; reflexivity). discriminate.
  - split; discriminate.
Qed.

(** ** The mappings over a whole stream *)

(** What one event does to the three mappings. *)
Lemma ingest_event_maps c ev c' :
  ingest_event c ev = Ok c' →
  match job_start_effect ev with
  | Some (j, sids, oe) =>
      stage_job c' = fold_left (set_stage_job j) sids (stage_job c)
      ∧ job_exec c' = match oe with
                      | Some e => <[j := e]> (job_exec c)
                      | None => job_exec c
                      end
      ∧ exec_jobs c' = match oe with
                       | Some e => <[e := default ∅ (exec_jobs c !! e) ∪ {[j]}]>
                                     (exec_jobs c)
                       | None => exec_jobs c
                       end
  | None => stage_job c' = stage_job c ∧ job_exec c' = job_exec c
            ∧ exec_jobs c' = exec_jobs c
  end.
Proof.
  unfold ingest_event, job_start_effect. fold (discriminator ev).
  destruct (truthy (discriminator ev)) eqn:Htruthy; cbn [negb].
  2:{ intros [= <-].
      destruct (eq_str (discriminator ev) "SparkListenerJobStart") eqn:He;
        [| repeat split].
      apply eq_str_truthy in He; [congruence | discriminate]. }
  destruct (is_sql_start (discriminator ev)) eqn:Hs.
  { assert (eq_str (discriminator ev) "SparkListenerJobStart" = false) as ->.
    { unfold is_sql_start in Hs. apply orb_true_iff in Hs as [Hs | Hs];
        apply eq_str_true in Hs; rewrite Hs; reflexivity. }
    unfold on_sql_start. destruct (_as_int _ None) as [exid|];
      [| intros [= <-]; repeat split].
    intros H. apply bind_Ok in H as (desc & _ & H). injection H as <-.
    repeat split. }
  destruct (is_sql_end (discriminator ev)) eqn:He.
  { assert (eq_str (discriminator ev) "SparkListenerJobStart" = false) as ->.
    { unfold is_sql_end in He. apply orb_true_iff in He as [He | He];
        apply eq_str_true in He; rewrite He; reflexivity. }
    unfold on_sql_end. destruct (_as_int _ None) as [exid|];
      intros [= <-]; repeat split. }
  destruct (eq_str (discriminator ev) "SparkListenerJobStart").
  { unfold on_job_start, job_id_of, execution_of_props.
    destruct (_as_int _ None) as [jobId|]; [| intros [= <-]; repeat split].
    intros H. apply bind_Ok in H as (sids & Hsids & H).
    apply bind_Ok in H as (props & Hprops & H). rewrite Hsids, Hprops.
    destruct (is_none _); [injection H as <-; repeat split |].
    destruct (int _) as [exid|]; injection H as <-; repeat split. }
  destruct (eq_str (discriminator ev) "SparkListenerTaskEnd");
    [| intros [= <-]; repeat split].
  unfold on_task_end. destruct (_as_int _ None) as [stageId|];
    [| intros [= <-]; repeat split].
  intros H. apply bind_Ok in H as (kt & _ & H). injection H as <-. repeat split.
Qed.

Lemma ingest_event_stage_job c ev c' s :
  ingest_event c ev = Ok c' →
  stage_job c' !! s
  = if lists_stage s ev
    then (λ x, fst (fst x)) <$> job_start_effect ev
    else stage_job c !! s.
Proof.
  intros H. apply ingest_event_maps in H. unfold lists_stage.
  destruct (job_start_effect ev) as [[[j sids] oe]|].
  - destruct H as (-> & _). rewrite fold_set_stage_job_lookup.
    destruct (bool_decide (Some s ∈ sids)); reflexivity.
  - destruct H as (-> & _). reflexivity.
Qed.

Lemma ingest_event_job_exec c ev c' j :
  ingest_event c ev = Ok c' →
  job_exec c' !! j
  = if names_execution_for j ev
    then job_start_effect ev ≫= snd
    else job_exec c !! j.
Proof.
  intros H. apply ingest_event_maps in H. unfold names_execution_for.
  destruct (job_start_effect ev) as [[[j' sids] [e|]]|].
  - destruct H as (_ & -> & _).
    destruct (bool_decide_reflect (j' = j)) as [-> | Hne]; simpl.
    + apply lookup_insert_eq.
    + apply lookup_insert_ne, Hne.
  - destruct H as (_ & -> & _). reflexivity.
  - destruct H as (_ & -> & _). reflexivity.
Qed.

Lemma ingest_event_exec_jobs c ev c' e j :
  ingest_event c ev = Ok c' →
  j ∈ default (∅ : gset Z) (exec_jobs c' !! e)
  ↔ j ∈ default (∅ : gset Z) (exec_jobs c !! e) ∨ maps_job_to j e ev = true.
Proof.
  intros H. apply ingest_event_maps in H. unfold maps_job_to.
  destruct (job_start_effect ev) as [[[j' sids] [e'|]]|].
  - destruct H as (_ & _ & ->).
    destruct (decide (e' = e)) as [-> | Hne].
    + rewrite lookup_insert_eq. simpl. rewrite elem_of_union, elem_of_singleton.
      rewrite (bool_decide_eq_true_2 (e = e)) by reflexivity.
      rewrite andb_true_r, bool_decide_eq_true. split; intros [Hl | Hr]; auto.
    + rewrite lookup_insert_ne by exact Hne.
      rewrite (bool_decide_eq_false_2 (e' = e)) by exact Hne.
      rewrite andb_false_r. split; [auto | intros [Hl | Hr]; [exact Hl | discriminate]].
  - destruct H as (_ & _ & ->). split; [auto | intros [Hl | Hr]; [exact Hl | discriminate]].
  - destruct H as (_ & _ & ->). split; [auto | intros [Hl | Hr]; [exact Hl | discriminate]].
Qed.

Lemma ingest_events_exec_jobs evs c c' e j :
  foldM ingest_event c evs = Ok c' →
  j ∈ default (∅ : gset Z) (exec_jobs c' !! e)
  ↔ j ∈ default (∅ : gset Z) (exec_jobs c !! e)
    ∨ ∃ ev, ev ∈ evs ∧ maps_job_to j e ev = true.
Proof.
  revert c. induction evs as [|ev evs IH]; intros c H.
  - injection H as <-. split; [auto |]. intros [Hl | (ev & Hin & _)];
      [exact Hl | inversion Hin].
  - rewrite foldM_cons in H. apply bind_Ok in H as (c1 & H1 & H).
    rewrite (IH _ H), (ingest_event_exec_jobs _ _ _ e j H1). split.
    + intros [[Hc | Hev] | (ev' & Hin & Hev')]; [left; exact Hc | |].
      * right. exists ev. split; [left | exact Hev].
      * right. exists ev'. split; [right; exact Hin | exact Hev'].
    + intros [Hc | (ev' & Hin & Hev')]; [left; left; exact Hc |].
      apply elem_of_cons in Hin as [-> | Hin]; [left; right; exact Hev' |].
      right. exists ev'. split; assumption.
Qed.

Lemma ingest_events_keep_stage s evs c c' :
  Forall (λ ev, lists_stage s ev = false) evs →
  foldM ingest_event c evs = Ok c' → stage_job c' !! s = stage_job c !! s.
Proof.
  intros Hall. revert c. induction Hall as [|ev evs Hev _ IH]; intros c H.
  - injection H as <-. reflexivity.
  - rewrite foldM_cons in H. apply bind_Ok in H as (c1 & H1 & H).
    rewrite (IH _ H), (ingest_event_stage_job _ _ _ s H1), Hev. reflexivity.
Qed.

Lemma ingest_events_keep_job j evs c c' :
  Forall (λ ev, names_execution_for j ev = false) evs →
  foldM ingest_event c evs = Ok c' → job_exec c' !! j = job_exec c !! j.
Proof.
  intros Hall. revert c. induction Hall as [|ev evs Hev _ IH]; intros c H.
  - injection H as <-. reflexivity.
  - rewrite foldM_cons in H. apply bind_Ok in H as (c1 & H1 & H).
    rewrite (IH _ H), (ingest_event_job_exec _ _ _ j H1), Hev. reflexivity.
Qed.

(** Last write wins on both mappings.  Let the events read be [before],
    then a job-start event [ev] of job [j], then [after].  If [ev] lists
    stage [s] and no job start in [after] lists [s], then [s] maps to [j],
    whatever [before] mapped it to.  If [ev] names execution [e] and no
    start of job [j] in [after] names an execution, then [j] maps to [e].
    A stage that no job start lists maps to no job, and a job for which no
    start names an execution maps to no execution. *)
Theorem mappings_take_the_last_job_start paths c :
  ingest_paths empty_ctx paths = Ok c →
  (∀ before ev after j sids oe s,
     events_of_paths paths = (before ++ ev :: after)%list →
     job_start_effect ev = Some (j, sids, oe) → Some s ∈ sids →
     Forall (λ ev', lists_stage s ev' = false) after →
     stage_job c !! s = Some j)
  ∧ (∀ before ev after j sids e,
       events_of_paths paths = (before ++ ev :: after)%list →
       job_start_effect ev = Some (j, sids, Some e) →
       Forall (λ ev', names_execution_for j ev' = false) after →
       job_exec c !! j = Some e)
  ∧ (∀ s, Forall (λ ev, lists_stage s ev = false) (events_of_paths paths) →
       stage_job c !! s = None)
  ∧ (∀ j, Forall (λ ev, names_execution_for j ev = false) (events_of_paths paths) →
       job_exec c !! j = None).
Proof.
  intros Hc. rewrite ingest_paths_events in Hc. split; [| split; [| split]].
  - intros before ev after j sids oe s Hevs Heff Hs Hafter.
    rewrite Hevs, foldM_app in Hc. apply bind_Ok in Hc as (c0 & _ & Hc).
    rewrite foldM_cons in Hc. apply bind_Ok in Hc as (c1 & H1 & Hc).
    rewrite (ingest_events_keep_stage s after c1 c Hafter Hc).
    rewrite (ingest_event_stage_job _ _ _ s H1). unfold lists_stage.
    rewrite Heff, bool_decide_eq_true_2 by exact Hs. reflexivity.
  - intros before ev after j sids e Hevs Heff Hafter.
    rewrite Hevs, foldM_app in Hc. apply bind_Ok in Hc as (c0 & _ & Hc).
    rewrite foldM_cons in Hc. apply bind_Ok in Hc as (c1 & H1 & Hc).
    rewrite (ingest_events_keep_job j after c1 c Hafter Hc).
    rewrite (ingest_event_job_exec _ _ _ j H1). unfold names_execution_for.
    rewrite Heff, bool_decide_eq_true_2 by reflexivity. reflexivity.
  - intros s Hall. rewrite (ingest_events_keep_stage s _ _ c Hall Hc).
    apply lookup_empty.
  - intros j Hall. rewrite (ingest_events_keep_job j _ _ c Hall Hc).
    apply lookup_empty.
Qed.

(** [num_jobs] counts the distinct jobs ever mapped to the execution.
    For every row, [num_jobs] is the size of a set that holds exactly the
    job ids of the job-start events read that name the row's execution;
    a job counts once however often it was started, and it counts whether
    or not any of its tasks was attributed. *)
Theorem num_jobs_counts_jobs_naming_the_execution paths c rows r exid :
  ingest_paths empty_ctx paths = Ok c →
  finalize c = Ok rows →
  r ∈ rows →
  ResultRow.executionId r = Some exid →
  ∃ jobs : gset Z,
    ResultRow.num_jobs r = size jobs
    ∧ ∀ j, j ∈ jobs ↔ ∃ ev, ev ∈ events_of_paths paths ∧ maps_job_to j exid ev = true.
Proof.
  intros Hc Hfin Hr Hid.
  destruct (finalize_rows c rows Hfin) as (results & Hrows & Hperm & _).
  rewrite Hperm in Hr.
  destruct (row_of_some_group _ _ _ _ Hrows Hr) as ([exid' ts] & _ & Hagg).
  apply aggregate_group_Ok in Hagg as (Hid' & _ & Hjobs & _). simpl in Hid', Hjobs.
  rewrite Hid in Hid'. injection Hid' as <-.
  exists (default ∅ (exec_jobs c !! exid)). split; [exact Hjobs |].
  intros j. rewrite ingest_paths_events in Hc.
  rewrite (ingest_events_exec_jobs _ _ _ exid j Hc). simpl.
  rewrite lookup_empty. simpl. split.
  - intros [Hempty | H]; [| exact H]. exfalso. revert Hempty. apply not_elem_of_empty.
  - intros H. right. exact H.
Qed.

(** ** Exceptions *)

Lemma foldM_norm_pair_raises l acc e :
  foldM norm_pair acc l = Raise e → e = TypeError.
Proof.
  revert acc. induction l as [|p l IH]; intros acc; [discriminate |].
  rewrite foldM_cons. destruct (norm_pair acc p) as [acc1|e1] eqn:Hp; simpl.
  - apply IH.
  - intros [= <-]. unfold norm_pair in Hp.
    destruct p; try discriminate.
    destruct (default JNull (dict_get kvs "key")); try discriminate.
    + injection Hp as <-. reflexivity.
    + injection Hp as <-. reflexivity.
Qed.

Lemma norm_properties_raises props e :
  _norm_properties props = Raise e → e = TypeError.
Proof.
  unfold _norm_properties. destruct (negb (truthy props)); [discriminate |].
  destruct props; try discriminate. apply foldM_norm_pair_raises.
Qed.

Lemma iter_raises v e : iter v = Raise e → e = TypeError.
Proof. destruct v; simpl; intros H; try discriminate; injection H as <-; reflexivity. Qed.

Lemma job_stage_ids_raises ev e : job_stage_ids ev = Raise e → e = TypeError.
Proof.
  unfold job_stage_ids. destruct (is_none _).
  - destruct (iter _) as [l|e'] eqn:Hit; simpl; [discriminate |].
    intros [= <-]. apply iter_raises in Hit. exact Hit.
  - destruct (iter _) as [l|e'] eqn:Hit; simpl; [discriminate |].
    intros [= <-]. apply iter_raises in Hit. exact Hit.
Qed.

(** The exceptions that escape the loop.  When reading an event raises,
    it is one of three cases: an execution start whose description is
    neither a str nor falsy ([AttributeError]); a job start whose stage
    ids cannot be iterated or whose property list has a key that cannot
    be hashed ([TypeError]); a task end whose CPU time does not fit a
    double ([OverflowError]).  Execution ends and unknown events never
    raise. *)
Theorem escaping_exceptions c ev e :
  ingest_event c ev = Raise e →
  (is_sql_start (discriminator ev) = true ∧ e = AttributeError
   ∧ event_description ev = Raise AttributeError)
  ∨ (eq_str (discriminator ev) "SparkListenerJobStart" = true ∧ e = TypeError
     ∧ (job_stage_ids ev = Raise TypeError
        ∨ _norm_properties (_g ev ["Properties"; "properties"] (JObj []))
          = Raise TypeError))
  ∨ (eq_str (discriminator ev) "SparkListenerTaskEnd" = true ∧ e = OverflowError
     ∧ float_of_int (cpu_ns ev) = None).
Proof.
  unfold ingest_event. fold (discriminator ev).
  destruct (negb (truthy (discriminator ev))); [discriminate |].
  destruct (is_sql_start (discriminator ev)).
  { unfold on_sql_start. destruct (_as_int _ None) as [exid|]; [| discriminate].
    fold (event_description ev).
    destruct (event_description ev) as [d|e'] eqn:Hd; simpl; [discriminate |].
    intros [= <-]. left.
    assert (e' = AttributeError) as ->.
    { unfold event_description, strip_method in Hd.
      destruct (or_else _ _); try discriminate; injection Hd as <-; reflexivity. }
    repeat split. }
  destruct (is_sql_end (discriminator ev)); [discriminate |].
  destruct (eq_str (discriminator ev) "SparkListenerJobStart").
  { unfold on_job_start. destruct (_as_int _ None) as [jobId|]; [| discriminate].
    destruct (job_stage_ids ev) as [sids|e1] eqn:Hs; simpl.
    - destruct (_norm_properties _) as [props|e2] eqn:Hp; simpl.
      + destruct (if is_none _ then _ else _) as [je ej]. discriminate.
      + intros [= <-]. apply norm_properties_raises in Hp as Hp'. subst e2.
        right. left. repeat split. right. reflexivity.
    - intros [= <-]. apply job_stage_ids_raises in Hs as Hs'. subst e1.
      right. left. repeat split. left. reflexivity. }
  destruct (eq_str (discriminator ev) "SparkListenerTaskEnd"); [| discriminate].
  unfold on_task_end. destruct (_as_int _ None) as [stageId|]; [| discriminate].
  destruct (task_record stageId ev) as [kt|e1] eqn:Hrec; simpl; [discriminate |].
  intros [= <-]. right. right. unfold task_record in Hrec.
  destruct (float_of_int (cpu_ns ev)); [discriminate |].
  injection Hrec as <-. repeat split.
Qed.

(** ** What the rows depend on *)

Ltac view_split :=
  split; [| split; [| split; [| split]]];
  cbn [tasks_by_key stage_job job_exec exec_jobs exec_info].

Lemma same_rows_view_refl c : same_rows_view c c.
Proof. view_split; reflexivity. Qed.

Lemma same_rows_view_sym c1 c2 : same_rows_view c1 c2 → same_rows_view c2 c1.
Proof.
  intros (Ht & Hs & Hj & He & Hd).
  split; [congruence |]. split; [congruence |]. split; [congruence |].
  split; intros exid; [rewrite He | rewrite Hd]; reflexivity.
Qed.

Lemma same_rows_view_trans c1 c2 c3 :
  same_rows_view c1 c2 → same_rows_view c2 c3 → same_rows_view c1 c3.
Proof.
  intros (Ht & Hs & Hj & He & Hd) (Ht' & Hs' & Hj' & He' & Hd').
  split; [congruence |]. split; [congruence |]. split; [congruence |].
  split; intros exid; [rewrite He; apply He' | rewrite Hd; apply Hd'].
Qed.

Lemma description_of_default exid c :
  ExecInfo.description (default ExecInfo.empty (exec_info c !! exid))
  = description_of exid c.
Proof.
  unfold description_of. destruct (exec_info c !! exid); reflexivity.
Qed.

Lemma fold_left_pointwise {A B} (f g : A → B → A) l a :
  (∀ a x, f a x = g a x) → fold_left f l a = fold_left g l a.
Proof.
  intros H. revert a. induction l as [|x l IH]; intros a; simpl.
  - reflexivity.
  - rewrite H. apply IH.
Qed.

Lemma foldM_pointwise {A B} (f g : A → B → Py.result A) l a :
  (∀ a x, f a x = g a x) → foldM f a l = foldM g a l.
Proof.
  intros H. revert a. induction l as [|x l IH]; intros a.
  - reflexivity.
  - rewrite !foldM_cons, H. destruct (g a x) as [a'|e]; simpl; [apply IH | reflexivity].
Qed.

Lemma aggregate_group_same_view c1 c2 exid ts :
  same_rows_view c1 c2 →
  aggregate_group c1 exid ts = aggregate_group c2 exid ts.
Proof.
  intros (_ & _ & _ & He & Hd). unfold aggregate_group.
  rewrite !description_of_default, (He exid), (Hd exid). reflexivity.
Qed.

(** The rows are a function of the view. *)
Lemma finalize_same_view c1 c2 :
  same_rows_view c1 c2 → finalize c1 = finalize c2.
Proof.
  intros Hv. pose proof Hv as (Ht & Hs & Hj & _).
  assert (attribute c1 = attribute c2) as Ha.
  { unfold attribute. rewrite Ht. apply fold_left_pointwise.
    intros acc t. unfold attribute_task. rewrite Hs, Hj. reflexivity. }
  unfold finalize, aggregate. rewrite Ha.
  rewrite (foldM_pointwise (aggregate_step c1) (aggregate_step c2)); [reflexivity |].
  intros acc g. unfold aggregate_step.
  rewrite (aggregate_group_same_view c1 c2 _ _ Hv). reflexivity.
Qed.

Lemma same_outcome_finalize r1 r2 :
  same_outcome r1 r2 → (r1 ≫= finalize) = (r2 ≫= finalize).
Proof.
  destruct r1 as [c1|e1], r2 as [c2|e2]; simpl; intros H; try contradiction.
  - apply finalize_same_view, H.
  - rewrite H. reflexivity.
Qed.

(** An execution-end event changes nothing the rows depend on. *)
Lemma on_sql_end_same_view c ev : same_rows_view (on_sql_end c ev) c.
Proof.
  unfold on_sql_end.
  destruct (_as_int (_g ev ["executionId"; "Execution ID"] JNull) None) as [exid|];
    [| apply same_rows_view_refl].
  view_split; try reflexivity. intros exid'. unfold description_of. simpl.
  destruct (decide (exid' = exid)) as [-> | Hne].
  - rewrite lookup_insert_eq.
    destruct (exec_info c !! exid) as [info|];
      destruct (is_none _); reflexivity.
  - rewrite lookup_insert_ne by congruence. reflexivity.
Qed.

(** Reading one event from two contexts with the same view gives the
    same view again, or the same exception. *)
Lemma ingest_event_same_view c1 c2 ev :
  same_rows_view c1 c2 →
  same_outcome (ingest_event c1 ev) (ingest_event c2 ev).
Proof.
  intros Hv. pose proof Hv as (Ht & Hs & Hj & He & Hd). unfold ingest_event.
  destruct (negb (truthy _)); [exact Hv |].
  destruct (is_sql_start _).
  { unfold on_sql_start.
    destruct (_as_int (_g ev ["executionId"; "Execution ID"] JNull) None)
      as [exid|]; [| exact Hv].
    destruct (strip_method _) as [desc|e]; simpl; [| reflexivity].
    view_split; try assumption. intros exid'. unfold description_of. simpl.
    destruct (decide (exid' = exid)) as [-> | Hne].
    - rewrite !lookup_insert_eq. reflexivity.
    - rewrite !lookup_insert_ne by congruence. apply Hd. }
  destruct (is_sql_end _).
  { simpl. eapply same_rows_view_trans; [apply on_sql_end_same_view |].
    eapply same_rows_view_trans; [exact Hv |].
    apply same_rows_view_sym, on_sql_end_same_view. }
  destruct (eq_str _ "SparkListenerJobStart").
  { unfold on_job_start.
    destruct (_as_int (_g ev ["Job ID"; "jobId"] JNull) None) as [jobId|];
      [| exact Hv].
    destruct (job_stage_ids ev) as [sids|e]; simpl; [| reflexivity].
    destruct (_norm_properties _) as [props|e]; simpl; [| reflexivity].
    destruct (is_none _); [simpl; rewrite Hs; view_split; solve [assumption | reflexivity] |].
    destruct (int _) as [exid|];
      [| simpl; rewrite Hs; view_split; solve [assumption | reflexivity]].
    simpl. rewrite Hs, Hj. view_split; try assumption; try reflexivity.
    intros exid'. destruct (decide (exid' = exid)) as [-> | Hne].
    - rewrite !lookup_insert_eq. simpl. rewrite He. reflexivity.
    - rewrite !lookup_insert_ne by congruence. apply He. }
  destruct (eq_str _ "SparkListenerTaskEnd"); [| exact Hv].
  unfold on_task_end.
  destruct (_as_int (_g ev ["Stage ID"; "stageId"] JNull) None) as [stageId|];
    [| exact Hv].
  destruct (task_record stageId ev) as [kt|e]; simpl; [| reflexivity].
  view_split; try assumption. rewrite Ht. reflexivity.
Qed.

Lemma sql_end_event_ingest c ev :
  is_sql_end_event ev = true → ingest_event c ev = Ok (on_sql_end c ev).
Proof.
  unfold is_sql_end_event, ingest_event, discriminator.
  intros H. apply andb_true_iff in H as [H He].
  apply andb_true_iff in H as [Ht Hs].
  rewrite Ht. apply negb_true_iff in Hs. rewrite Hs, He. reflexivity.
Qed.

Lemma drop_sql_ends_same_outcome evs c1 c2 :
  same_rows_view c1 c2 →
  same_outcome
    (foldM ingest_event c1 (List.filter (λ ev, negb (is_sql_end_event ev)) evs))
    (foldM ingest_event c2 evs).
Proof.
  revert c1 c2. induction evs as [|ev evs IH]; intros c1 c2 Hv.
  - exact Hv.
  - cbn [List.filter]. destruct (is_sql_end_event ev) eqn:Hend; cbn [negb].
    + rewrite (foldM_cons _ c2), (sql_end_event_ingest c2 ev Hend). simpl.
      apply IH. eapply same_rows_view_trans; [exact Hv |].
      apply same_rows_view_sym, on_sql_end_same_view.
    + rewrite !foldM_cons.
      pose proof (ingest_event_same_view c1 c2 ev Hv) as Hstep.
      destruct (ingest_event c1 ev) as [c1'|e1], (ingest_event c2 ev) as [c2'|e2];
        simpl in *; try contradiction; [apply IH, Hstep | exact Hstep].
Qed.

Lemma events_without_sql_ends paths :
  events_of_paths (without_sql_ends paths)
  = List.filter (λ ev, negb (is_sql_end_event ev)) (events_of_paths paths).
Proof.
  unfold events_of_paths, without_sql_ends.
  induction paths as [|f paths IH].
  - reflexivity.
  - cbn [map concat]. unfold events_of_file in *.
    rewrite !omap_app, List.filter_app, IH. f_equal.
    clear IH. induction f as [|line f IHf]; [reflexivity |].
    cbn [List.filter]. unfold is_sql_end_line at 1.
    destruct (String.eqb (strip line) "") eqn:Hb.
    + cbn [negb omap list_omap]. rewrite Hb. exact IHf.
    + destruct (json_loads line) as [ev|] eqn:Hl.
      * destruct (is_sql_end_event ev) eqn:Hend; cbn [negb omap list_omap];
          rewrite Hb, Hl; cbn [List.filter]; rewrite Hend; cbn [negb];
          [exact IHf | f_equal; exact IHf].
      * cbn [negb omap list_omap]. rewrite Hb, Hl. exact IHf.
Qed.

(** Execution-end events do not matter.  Removing every line that
    decodes to an execution-end event from the input changes nothing: the
    analysis returns the same rows, or raises the same exception.  (The
    rows show neither end times nor anything else such an event
    records.) *)
Theorem execution_end_events_do_not_matter paths :
  analyze_sql_breakdown (without_sql_ends paths) = analyze_sql_breakdown paths.
Proof.
  unfold analyze_sql_breakdown.
  rewrite !ingest_paths_events, events_without_sql_ends.
  apply same_outcome_finalize, drop_sql_ends_same_outcome, same_rows_view_refl.
Qed.

(** ** Reading the same input twice *)

(** Whether an event raises does not depend on the context. *)
Lemma ingest_event_raises_anywhere c1 c2 ev e :
  ingest_event c1 ev = Raise e → ingest_event c2 ev = Raise e.
Proof.
  unfold ingest_event.
  destruct (negb (truthy _)); [discriminate |].
  destruct (is_sql_start _).
  { unfold on_sql_start.
    destruct (_as_int (_g ev ["executionId"; "Execution ID"] JNull) None);
      [| discriminate].
    destruct (strip_method _); simpl; [discriminate | trivial]. }
  destruct (is_sql_end _); [discriminate |].
  destruct (eq_str _ "SparkListenerJobStart").
  { unfold on_job_start.
    destruct (_as_int (_g ev ["Job ID"; "jobId"] JNull) None); [| discriminate].
    destruct (job_stage_ids ev); simpl; [| trivial].
    destruct (_norm_properties _); simpl; [| trivial].
    destruct (is_none _); [discriminate |].
    destruct (int _); discriminate. }
  destruct (eq_str _ "SparkListenerTaskEnd"); [| discriminate].
  unfold on_task_end.
  destruct (_as_int (_g ev ["Stage ID"; "stageId"] JNull) None); [| discriminate].
  destruct (task_record _ ev); simpl; [discriminate | trivial].
Qed.

Lemma ingest_events_ok_anywhere evs c1 c1' c2 :
  foldM ingest_event c1 evs = Ok c1' → ∃ c2', foldM ingest_event c2 evs = Ok c2'.
Proof.
  revert c1 c2. induction evs as [|ev evs IH]; intros c1 c2 H.
  - exists c2. reflexivity.
  - rewrite foldM_cons in H. apply bind_Ok in H as (c1a & H1 & H).
    rewrite foldM_cons. destruct (ingest_event c2 ev) as [c2a|e] eqn:H2.
    + simpl. exact (IH c1a c2a H).
    + rewrite (ingest_event_raises_anywhere c2 c1 ev e H2) in H1. discriminate.
Qed.

(** A fold of steps that each overwrite or keep the value is the
    identity or a constant; either way, running it again changes
    nothing. *)
Lemma overwrite_fold_cases {A B} (b : B → bool) (v : B → A) (l : list B) :
  (∀ x, fold_left (λ x ev, if b ev then v ev else x) l x = x)
  ∨ (∀ x y, fold_left (λ x ev, if b ev then v ev else x) l x
            = fold_left (λ x ev, if b ev then v ev else x) l y).
Proof.
  induction l as [|ev l IH].
  - left. reflexivity.
  - simpl. destruct IH as [Hid | Hconst].
    + destruct (b ev).
      * right. intros x y. rewrite !Hid. reflexivity.
      * left. intros x. apply Hid.
    + right. intros x y. apply Hconst.
Qed.

Lemma overwrite_fold_idempotent {A B} (b : B → bool) (v : B → A) (l : list B) x :
  fold_left (λ x ev, if b ev then v ev else x) l
    (fold_left (λ x ev, if b ev then v ev else x) l x)
  = fold_left (λ x ev, if b ev then v ev else x) l x.
Proof.
  destruct (overwrite_fold_cases b v l) as [Hid | Hconst].
  - rewrite !Hid. reflexivity.
  - apply Hconst.
Qed.

(** A component that every event overwrites or keeps is, after a stream,
    the fold of these steps. *)
Lemma ingest_events_overwrite {A} (get : ctx → A) (b : json → bool) (v : json → A) :
  (∀ c ev c', ingest_event c ev = Ok c' → get c' = if b ev then v ev else get c) →
  ∀ evs c c', foldM ingest_event c evs = Ok c' →
    get c' = fold_left (λ x ev, if b ev then v ev else x) evs (get c).
Proof.
  intros Hstep evs. induction evs as [|ev evs IH]; intros c c' H.
  - injection H as <-. reflexivity.
  - rewrite foldM_cons in H. apply bind_Ok in H as (c1 & H1 & H).
    simpl. rewrite (IH _ _ H), (Hstep _ _ _ H1). reflexivity.
Qed.

Lemma ingest_events_twice_overwrite {A} (get : ctx → A) (b : json → bool)
    (v : json → A) evs c c' c'' :
  (∀ c ev c', ingest_event c ev = Ok c' → get c' = if b ev then v ev else get c) →
  foldM ingest_event c evs = Ok c' →
  foldM ingest_event c' evs = Ok c'' →
  get c'' = get c'.
Proof.
  intros Hstep H1 H2.
  rewrite (ingest_events_overwrite get b v Hstep _ _ _ H2).
  rewrite (ingest_events_overwrite get b v Hstep _ _ _ H1).
  apply overwrite_fold_idempotent.
Qed.

Lemma ingest_event_description_step exid c ev c' :
  ingest_event c ev = Ok c' →
  description_of exid c'
  = if is_sql_start_for exid ev
    then match event_description ev with Ok d => Some d | Raise _ => None end
    else description_of exid c.
Proof.
  intros H. pose proof (ingest_event_description c ev c' exid H) as Hd.
  destruct (is_sql_start_for exid ev); [| exact Hd].
  destruct Hd as (d & -> & ->). reflexivity.
Qed.

Lemma store_all_fixed T recs :
  (∀ kt, kt ∈ recs → store_task T (fst kt) (snd kt) = T) → store_all T recs = T.
Proof.
  unfold store_all. induction recs as [|kt recs IH]; intros Habs; [reflexivity |].
  simpl. rewrite (Habs kt) by left.
  apply IH. intros kt' Hin. apply Habs. right. exact Hin.
Qed.

(** Offering a store the records it was built from changes nothing. *)
Lemma store_all_absorbs d recs :
  store_all (store_all d recs) recs = store_all d recs.
Proof.
  apply store_all_fixed.
  intros [key t] Hin. simpl. unfold store_task. rewrite store_all_get.
  assert (t ∈ map snd (List.filter (λ kt, bool_decide (fst kt = key)) recs))
    as Ht.
  { apply list_elem_of_fmap. exists (key, t). split; [reflexivity |].
    apply list_elem_of_In, filter_In. split; [apply list_elem_of_In, Hin |].
    apply bool_decide_eq_true_2. reflexivity. }
  set (l := map snd _) in *.
  assert (∀ q, List.find TaskRec.success l = Some q → TaskRec.success q = true)
    as Hfound.
  { intros q Hq. apply find_some in Hq. tauto. }
  assert (List.find TaskRec.success l = None → TaskRec.success t = false)
    as Hnone.
  { intros Hn. apply list_elem_of_In in Ht.
    exact (find_none _ _ Hn t Ht). }
  destruct (ODict.get d key) as [p0|].
  - rewrite retained_fold_some.
    destruct (TaskRec.success p0) eqn:Hp0; [rewrite Hp0; reflexivity |].
    destruct (List.find TaskRec.success l) as [q|] eqn:Hq; simpl.
    + rewrite (Hfound q eq_refl). reflexivity.
    + rewrite Hp0, (Hnone eq_refl). reflexivity.
  - rewrite retained_fold_none. unfold first_success_or_first.
    destruct (List.find TaskRec.success l) as [q|] eqn:Hq.
    + rewrite (Hfound q eq_refl). reflexivity.
    + destruct l as [|p l']; [inversion Ht |]. simpl.
      rewrite (Hnone eq_refl), andb_false_r. reflexivity.
Qed.

(** Reading a stream again, from the context it was read into, changes
    nothing the rows depend on. *)
Lemma reread_same_view evs c c' :
  foldM ingest_event c evs = Ok c' →
  ∃ c'', foldM ingest_event c' evs = Ok c'' ∧ same_rows_view c'' c'.
Proof.
  intros H1. destruct (ingest_events_ok_anywhere evs c c' c' H1) as [c'' H2].
  exists c''. split; [exact H2 |]. view_split.
  - rewrite (ingest_events_tasks _ _ _ H2), (ingest_events_tasks _ _ _ H1).
    apply store_all_absorbs.
  - apply map_eq. intros s.
    exact (ingest_events_twice_overwrite (λ c, stage_job c !! s) _ _ evs c c' c''
             (λ c ev c', ingest_event_stage_job c ev c' s) H1 H2).
  - apply map_eq. intros j.
    exact (ingest_events_twice_overwrite (λ c, job_exec c !! j) _ _ evs c c' c''
             (λ c ev c', ingest_event_job_exec c ev c' j) H1 H2).
  - intros exid. apply set_eq. intros j.
    rewrite (ingest_events_exec_jobs evs c' c'' exid j H2).
    rewrite (ingest_events_exec_jobs evs c c' exid j H1). tauto.
  - intros exid.
    exact (ingest_events_twice_overwrite (description_of exid) _ _ evs c c' c''
             (ingest_event_description_step exid) H1 H2).
Qed.

(** Reading the same input twice changes nothing: the analysis of the
    sources followed by the same sources again returns the rows of the
    analysis of the sources, or raises the same exception.  No task, job
    or metric is counted twice. *)
Theorem reading_input_twice_changes_nothing paths :
  analyze_sql_breakdown (paths ++ paths) = analyze_sql_breakdown paths.
Proof.
  unfold analyze_sql_breakdown. rewrite !ingest_paths_events.
  assert (events_of_paths (paths ++ paths)
          = (events_of_paths paths ++ events_of_paths paths)%list) as ->.
  { unfold events_of_paths, events_of_file. rewrite concat_app, omap_app.
    reflexivity. }
  rewrite foldM_app.
  destruct (foldM ingest_event empty_ctx (events_of_paths paths)) as [c'|e] eqn:H1;
    [| reflexivity].
  destruct (reread_same_view _ _ _ H1) as (c'' & H2 & Hv).
  simpl. rewrite H2. simpl. apply finalize_same_view, Hv.
Qed.

(** ** Totals *)

Lemma sum_from (xs : list Z) a : fold_left Z.add xs a = a + sum xs.
Proof.
  unfold sum. revert a. induction xs as [|x xs IH]; intros a; simpl.
  - lia.
  - rewrite (IH (a + x)), (IH (0 + x)). lia.
Qed.

Lemma sum_cons x xs : sum (x :: xs) = x + sum xs.
Proof. unfold sum at 1. simpl. apply sum_from. Qed.

Lemma sum_app xs ys : sum (xs ++ ys) = sum xs + sum ys.
Proof.
  induction xs as [|x xs IH]; [reflexivity |].
  rewrite <- app_comm_cons, !sum_cons, IH. lia.
Qed.

Lemma sum_perm xs ys : xs ≡ₚ ys → sum xs = sum ys.
Proof.
  induction 1 as [| x xs ys _ IH | x y xs | xs ys zs _ IH1 _ IH2].
  - reflexivity.
  - rewrite !sum_cons, IH. reflexivity.
  - rewrite !sum_cons. lia.
  - rewrite IH1. exact IH2.
Qed.

(** Each integer column of a row is the sum of its field over the group. *)
Lemma aggregate_group_int_columns c exid ts row :
  aggregate_group c exid ts = Ok row →
  Forall (λ col, fst col row = sum (map (snd col) ts)) int_columns.
Proof.
  unfold aggregate_group. intros H. apply bind_Ok in H as (pct & _ & H).
  injection H as <-. repeat constructor.
Qed.

Lemma group_totals (fr : ResultRow.t → Z) (ft : TaskRec.t → Z) c groups results :
  Forall2 (λ g r, aggregate_group c (fst g) (snd g) = Ok r) groups results →
  (∀ exid ts row, aggregate_group c exid ts = Ok row → fr row = sum (map ft ts)) →
  sum (map fr results) = sum (map ft (concat (map snd groups))).
Proof.
  intros Hrows Hcol. induction Hrows as [|g r groups results Hr _ IH].
  - reflexivity.
  - cbn [map concat]. rewrite sum_cons, map_app, sum_app, IH, (Hcol _ _ _ Hr).
    reflexivity.
Qed.

(** Nothing is lost and nothing is counted twice.  For each of the ten
    integer columns, the values of all rows add up to the total of the
    column's field over the retained tasks that the join attributes to an
    execution. *)
Theorem integer_columns_add_up_over_attributed_tasks c rows :
  finalize c = Ok rows →
  Forall (λ col, sum (map (fst col) rows)
                 = sum (map (snd col) (attributable_tasks c)))
         int_columns.
Proof.
  intros Hfin.
  destruct (finalize_rows c rows Hfin) as (results & Hrows & Hperm & _).
  destruct (attribute_groups c) as (_ & _ & _ & Hall).
  apply Forall_forall. intros [fr ft] Hcol. cbn [fst snd].
  rewrite (sum_perm _ _ (Permutation_map fr Hperm)).
  rewrite (group_totals fr ft c _ _ Hrows).
  - apply sum_perm, Permutation_map, Hall.
  - intros exid ts row Hagg.
    pose proof (aggregate_group_int_columns c exid ts row Hagg) as Hcols.
    rewrite Forall_forall in Hcols. exact (Hcols (fr, ft) Hcol).
Qed.
(** ** Exceptions of the aggregation *)

Lemma foldM_raise {A B} (f : A → B → Py.result A) l a e :
  foldM f a l = Raise e → ∃ a' x, x ∈ l ∧ f a' x = Raise e.
Proof.
  revert a. induction l as [|x l IH]; intros a H; [discriminate |].
  rewrite foldM_cons in H. destruct (f a x) as [a1|e1] eqn:Hx; simpl in H.
  - destruct (IH a1 H) as (a' & y & Hy & Hf). exists a', y. split; [right |]; assumption.
  - injection H as ->. exists a, x. split; [left | exact Hx].
Qed.

Lemma foldM_raises_at {A B} (f : A → B → Py.result A) l x :
  x ∈ l → (∀ a, ∃ e, f a x = Raise e) → ∀ a, ∃ e, foldM f a l = Raise e.
Proof.
  intros Hin Hx. induction l as [|y l IH]; intros a; [inversion Hin |].
  rewrite foldM_cons. destruct (f a y) as [a1|e1] eqn:Hy; simpl.
  - apply elem_of_cons in Hin as [-> | Hin].
    + destruct (Hx a) as [e He]. congruence.
    + apply IH, Hin.
  - exists e1. reflexivity.
Qed.

Lemma cpu_vs_wall_raise run_ms cpu_ms e :
  cpu_vs_wall run_ms cpu_ms = Raise e ↔
  e = OverflowError ∧ 0 < run_ms ∧ float_of_int run_ms = None.
Proof.
  unfold cpu_vs_wall.
  destruct (Z.eqb_spec run_ms 0) as [-> | Hnz]; simpl.
  - split; [discriminate | lia].
  - destruct (Z.ltb_spec 0 run_ms) as [Hpos | Hneg].
    + destruct (float_of_int run_ms) as [f|]; split.
      * discriminate.
      * intros (_ & _ & H). discriminate.
      * intros [= <-]. auto.
      * intros (-> & _). reflexivity.
    + split; [discriminate | lia].
Qed.

Lemma aggregate_group_raise c exid ts e :
  aggregate_group c exid ts = Raise e ↔
  e = OverflowError ∧ 0 < sum (map TaskRec.run_ms ts)
  ∧ float_of_int (sum (map TaskRec.run_ms ts)) = None.
Proof.
  rewrite <- cpu_vs_wall_raise with (cpu_ms := fsum (map TaskRec.cpu_ms ts)).
  unfold aggregate_group. destruct (cpu_vs_wall _ _) as [pct|e']; simpl.
  - split; discriminate.
  - split; intros [= ->]; reflexivity.
Qed.

(** The exceptions of the aggregation.  Once the input is read, the only
    exception left is [OverflowError], and it is raised exactly when some
    execution's total executor run time is positive and too large to
    convert to a float (the percentage column divides by it).  Summing,
    the makespan and the sort never raise. *)
Theorem aggregation_raises_only_on_overflow c :
  (∀ e, finalize c = Raise e → e = OverflowError)
  ∧ ((∃ e, finalize c = Raise e) ↔
     ∃ exid ts, (exid, ts) ∈ attribute c
                ∧ 0 < sum (map TaskRec.run_ms ts)
                ∧ float_of_int (sum (map TaskRec.run_ms ts)) = None).
Proof.
  assert (∀ e, finalize c = Raise e →
            e = OverflowError
            ∧ ∃ exid ts, (exid, ts) ∈ attribute c
                         ∧ 0 < sum (map TaskRec.run_ms ts)
                         ∧ float_of_int (sum (map TaskRec.run_ms ts)) = None)
    as Hraise.
  { intros e H. unfold finalize, aggregate in H.
    destruct (foldM _ _ _) as [results|e'] eqn:Hagg; simpl in H; [discriminate |].
    injection H as ->.
    apply foldM_raise in Hagg as (acc & [exid ts] & Hin & Hstep).
    unfold aggregate_step in Hstep. simpl in Hstep.
    destruct ts as [|t ts]; [discriminate |].
    destruct (aggregate_group c exid (t :: ts)) as [row|e'] eqn:Hg; simpl in Hstep;
      [discriminate |].
    injection Hstep as ->. apply aggregate_group_raise in Hg as (-> & Hpos & Hf).
    split; [reflexivity |]. exists exid, (t :: ts). auto. }
  split; [intros e H; exact (proj1 (Hraise e H)) |].
  split; [intros [e H]; exact (proj2 (Hraise e H)) |].
  intros (exid & ts & Hin & Hpos & Hf).
  destruct (attribute_groups c) as (_ & Hne & _).
  rewrite Forall_forall in Hne. specialize (Hne _ Hin). simpl in Hne.
  assert (aggregate_group c exid ts = Raise OverflowError) as Hg.
  { apply aggregate_group_raise. auto. }
  destruct (foldM_raises_at (aggregate_step c) (ODict.items (attribute c)) (exid, ts)
              Hin) with (a := @nil ResultRow.t) as [e He].
  { intros acc. exists OverflowError. unfold aggregate_step. simpl.
    destruct ts as [|t ts]; [contradiction |]. rewrite Hg. reflexivity. }
  exists e. unfold finalize, aggregate. rewrite He. reflexivity.
Qed.

End Analyzer.

(** ** The properties on the test vectors *)

(** The sample events yield the sample records. *)
Example sample_records :
  task_record Sample.float_of_str 1 (Sample.scenario_task Sample.Legacy)
    = Ok ((1, Some 0), Sample.scenario_rec)
  ∧ task_record Sample.float_of_str 1 Sample.unfinished_task
    = Ok ((1, Some 0), Sample.unfinished_rec)
  ∧ task_record Sample.float_of_str 1 Sample.late_task
    = Ok ((1, Some 1), Sample.late_rec)
  ∧ task_record Sample.float_of_str 1 Sample.first_failure
    = Ok ((1, Some 0), Sample.first_failure_rec)
  ∧ task_record Sample.float_of_str 1 Sample.second_failure
    = Ok ((1, Some 0), Sample.second_failure_rec)
  ∧ task_record Sample.float_of_str 1 Sample.retry_success
    = Ok ((1, Some 0), Sample.retry_success_rec)
  ∧ task_record Sample.float_of_str 1 Sample.negative_run_task
    = Ok ((1, Some 0), Sample.negative_run_rec).
Proof. repeat split; vm_compute; reflexivity. Qed.

(** C1, counterexample.  A log with a job of execution 7 and two tasks of
    its stage: task 0 launched at 100 and never reports a finish time,
    task 1 runs from 500 to 600.  The row has makespan_ms = 600 - 100 =
    500, whereas over the tasks with both timestamps (task 1 alone) the
    makespan is 100. *)
Lemma makespan_counts_launch_of_unfinished_task :
  (∃ c, ingest_paths Sample.json_loads Sample.float_of_str empty_ctx Sample.gap_log
        = Ok c
      ∧ attribute c = [(7, Sample.gap_tasks)])
  ∧ analyze_sql_breakdown Sample.json_loads Sample.float_of_str Sample.gap_log
    = Ok [Sample.gap_row]
  ∧ ResultRow.makespan_ms Sample.gap_row = Some 500
  ∧ makespan_claimed Sample.gap_tasks = Some 100
  ∧ ResultRow.makespan_ms Sample.gap_row ≠ makespan_claimed Sample.gap_tasks.
Proof.
  split; [eexists; split; vm_compute; reflexivity |].
  split; [vm_compute; reflexivity |].
  split; [reflexivity |]. split; [reflexivity |].
  vm_compute. intros H. discriminate H.
Qed.

(** The group of the unfinished and the late task: its makespan is the
    latest finish present minus the earliest launch present. *)
Lemma makespan_witness :
  aggregate_group empty_ctx 7 Sample.gap_tasks
    = Ok (Sample.row (Some 7) "" 0 2 (Some 500) 150 140 0%float (Some 0%float))
  ∧ ∃ s e, earliest_launch Sample.gap_tasks s
         ∧ latest_finish Sample.gap_tasks e ∧ 500 = e - s.
Proof.
  split; [vm_compute; reflexivity |].
  exact (proj1 (makespan_latest_finish_minus_earliest_launch empty_ctx 7
                  Sample.gap_tasks _ eq_refl)).
Defined.

(** C2, counterexample.  Two failed attempts of task 0 of stage 1 arrive
    one after the other.  The store keeps the record of the first one;
    the later-arriving record is not retained. *)
Lemma second_failure_does_not_replace_first :
  ∃ c, ingest_file Sample.json_loads Sample.float_of_str empty_ctx
         Sample.failures_log = Ok c
     ∧ TaskRec.success Sample.first_failure_rec = false
     ∧ TaskRec.success Sample.second_failure_rec = false
     ∧ ODict.get (tasks_by_key c) (1, Some 0) = Some Sample.first_failure_rec
     ∧ ODict.get (tasks_by_key c) (1, Some 0) ≠ Some Sample.second_failure_rec.
Proof.
  eexists. split; [vm_compute; reflexivity |].
  split; [reflexivity |]. split; [reflexivity |].
  split; [vm_compute; reflexivity |].
  vm_compute. intros H. discriminate H.
Qed.

(** A failure followed by a success of the same task, on an empty store:
    the success is retained. *)
Lemma dedup_witness :
  ODict.get ([] : list ((Z * option Z) * TaskRec.t)) (1, Some 0) = None
  ∧ ∃ r, ODict.get (store_task (store_task [] (1, Some 0) Sample.first_failure_rec)
                               (1, Some 0) Sample.retry_success_rec) (1, Some 0)
         = Some r
       ∧ r = Sample.retry_success_rec.
Proof.
  split; [reflexivity |].
  destruct (dedup_keeps_success_else_earlier [] (1, Some 0)
              Sample.first_failure_rec Sample.retry_success_rec eq_refl)
    as (r & Hget & _ & _ & Hr & _).
  exists r. split; [exact Hget | apply Hr; reflexivity].
Defined.

(** C3, the failing input.  A log whose two job starts name the
    executions 0 and -1, followed by one task end for each: the analysis
    returns the row of execution 0 before the row of execution -1.  Both
    ids have the sort key -1 ([0 or -1] is -1), and the stable sort keeps
    the rows in the order in which they were built.  The rows are not
    ascending by [executionId]. *)
Theorem ids_zero_and_minus_one_are_not_ascending :
  analyze_sql_breakdown Sample.json_loads Sample.float_of_str
    Sample.zero_and_minus_one_log
  = Ok [Sample.row (Some 0) "" 1 1 None 0 0 0%float None;
        Sample.row (Some (-1)) "" 1 1 None 0 0 0%float None]
  ∧ sort_key (Sample.row (Some 0) "" 1 1 None 0 0 0%float None) = -1
  ∧ sort_key (Sample.row (Some (-1)) "" 1 1 None 0 0 0%float None) = -1
  ∧ ¬ StronglySorted id_le
        [Sample.row (Some 0) "" 1 1 None 0 0 0%float None;
         Sample.row (Some (-1)) "" 1 1 None 0 0 0%float None].
Proof.
  split; [vm_compute; reflexivity |].
  split; [reflexivity |]. split; [reflexivity |].
  intros Hsorted. apply StronglySorted_inv in Hsorted as [_ Hall].
  apply Forall_inv in Hall. unfold id_le in Hall. simpl in Hall. lia.
Qed.

(** The scenario with the task first, a blank line, the execution start,
    an undecodable line in a second file and the job start last. *)
Lemma end_to_end_witness :
  events_of_paths Sample.json_loads Sample.scenario_log
    ≡ₚ [Sample.job_start Sample.Compact 5 [1] "7";
        Sample.sql_start Sample.Legacy 7 "benchmark q1-v2.4";
        Sample.scenario_task Sample.Legacy]
  ∧ analyze_sql_breakdown Sample.json_loads Sample.float_of_str Sample.scenario_log
    = Ok [Sample.scenario_row].
Proof.
  assert (events_of_paths Sample.json_loads Sample.scenario_log
          ≡ₚ [Sample.job_start Sample.Compact 5 [1] "7";
              Sample.sql_start Sample.Legacy 7 "benchmark q1-v2.4";
              Sample.scenario_task Sample.Legacy]) as H.
  { vm_compute.
    eapply perm_trans; [apply perm_swap |].
    eapply perm_trans; [apply perm_skip, perm_swap |]. apply perm_swap. }
  split; [exact H |].
  exact (proj1 (end_to_end_scenario Sample.json_loads Sample.float_of_str
                  Sample.Compact Sample.Legacy Sample.Legacy Sample.scenario_log H)).
Defined.

(** C5, counterexample.  A log with a job of execution 7 and one task of
    its stage whose executor run time is -5 ms and CPU time 2 ms.  The
    summed run time of the group is -5, not 0, yet [cpu_vs_wall_pct] is
    null; by the claim it would be 100 * 2.0 / -5 = -40.0. *)
Lemma negative_run_time_gives_null_percentage :
  analyze_sql_breakdown Sample.json_loads Sample.float_of_str Sample.negative_run_log
    = Ok [Sample.negative_run_row]
  ∧ ResultRow.executor_run_ms Sample.negative_run_row = -5
  ∧ ResultRow.cpu_vs_wall_pct Sample.negative_run_row = None
  ∧ cpu_vs_wall_claimed (ResultRow.executor_run_ms Sample.negative_run_row)
                        (ResultRow.executor_cpu_ms Sample.negative_run_row)
    = Some (-40)%float.
Proof. repeat split; vm_compute; reflexivity. Qed.

(** The task of the scenario alone in a group: 300.0 / 400 * 100 = 75.0. *)
Lemma cpu_vs_wall_witness :
  aggregate_group empty_ctx 7 [Sample.scenario_rec]
    = Ok (Sample.row (Some 7) "" 0 1 (Some 500) 500 400 300%float (Some 75%float))
  ∧ (∃ f, float_of_int 400 = Some f
        ∧ Some 75%float = Some (PrimFloat.mul (PrimFloat.div 300%float f) 100%float)).
Proof.
  split; [vm_compute; reflexivity |].
  refine (proj2 (proj2 (proj2
            (cpu_vs_wall_pct_guard empty_ctx 7 [Sample.scenario_rec] _ eq_refl))) _).
  vm_compute. reflexivity.
Defined.





(** A stored success is not displaced by another success for its key. *)
Lemma stored_success_witness :
  ODict.get [((1, Some 0), Sample.retry_success_rec)] (1, Some 0)
    = Some Sample.retry_success_rec
  ∧ TaskRec.success Sample.retry_success_rec = true
  ∧ store_task [((1, Some 0), Sample.retry_success_rec)] (1, Some 0)
      Sample.scenario_rec
    = [((1, Some 0), Sample.retry_success_rec)].
Proof.
  split; [reflexivity |]. split; [reflexivity |].
  exact (proj1 (proj1 (stored_success_is_never_replaced Sample.json_loads
                         Sample.float_of_str
                         [((1, Some 0), Sample.retry_success_rec)] (1, Some 0)
                         Sample.retry_success_rec eq_refl) eq_refl)
               Sample.scenario_rec).
Defined.

(** A job of execution 7 and a task of its stage, without any
    execution-start event: the row of execution 7 has the empty description. *)
Lemma no_start_event_witness :
  Forall (λ ev, is_sql_start_for 7 ev = false)
         (events_of_paths Sample.json_loads Sample.no_start_log)
  ∧ analyze_sql_breakdown Sample.json_loads Sample.float_of_str Sample.no_start_log
    = Ok [Sample.row (Some 7) "" 1 1 (Some 500) 500 400 300%float (Some 75%float)]
  ∧ ∃ row, row ∈ [Sample.row (Some 7) "" 1 1 (Some 500) 500 400 300%float
                    (Some 75%float)]
      ∧ ResultRow.executionId row = Some 7
      ∧ ResultRow.description row = "".
Proof.
  assert (Forall (λ ev, is_sql_start_for 7 ev = false)
            (events_of_paths Sample.json_loads Sample.no_start_log)) as Hno.
  { assert (events_of_paths Sample.json_loads Sample.no_start_log
            = [Sample.job_start Sample.Legacy 5 [1] "7";
               Sample.scenario_task Sample.Legacy]) as ->
      by (vm_compute; reflexivity).
    repeat (constructor; [vm_compute; reflexivity |]). constructor. }
  split; [exact Hno |].
  refine (execution_without_start_event_has_row Sample.json_loads
            Sample.float_of_str Sample.no_start_log _ _ 7 Sample.scenario_rec 5
            _ _ Hno _ _ _).
  - vm_compute. reflexivity.
  - vm_compute. reflexivity.
  - vm_compute. left.
  - vm_compute. reflexivity.
  - vm_compute. reflexivity.
Defined.

(** ** Exceptions that escape

    Four inputs on which the script raises instead of returning rows: a
    description that is not a str, stage ids that cannot be iterated, a
    property key that cannot be hashed, and a CPU time beyond the range
    of a double. *)

Example description_not_a_str_raises :
  ingest_event Sample.float_of_str empty_ctx
    (JObj [("Event", JStr "SparkListenerSQLExecutionStart");
           ("executionId", JInt 1); ("description", JInt 5)])
  = Raise AttributeError.
Proof. vm_compute. reflexivity. Qed.

Example stage_ids_not_iterable_raises :
  ingest_event Sample.float_of_str empty_ctx
    (JObj [("Event", JStr "SparkListenerJobStart"); ("Job ID", JInt 1);
           ("Stage IDs", JInt 3)])
  = Raise TypeError.
Proof. vm_compute. reflexivity. Qed.

Example property_key_not_hashable_raises :
  ingest_event Sample.float_of_str empty_ctx
    (JObj [("Event", JStr "SparkListenerJobStart"); ("Job ID", JInt 1);
           ("Stage IDs", JArr []);
           ("Properties", JArr [JObj [("key", JArr [JInt 1]); ("value", JInt 2)]])])
  = Raise TypeError.
Proof. vm_compute. reflexivity. Qed.

Example cpu_time_too_large_raises :
  ingest_event Sample.float_of_str empty_ctx
    (JObj [("Event", JStr "SparkListenerTaskEnd"); ("Stage ID", JInt 1);
           ("Task Metrics", JObj [("Executor CPU Time", JInt (2 ^ 1024))])])
  = Raise OverflowError.
Proof. vm_compute. reflexivity. Qed.

(** ** The comparison tool: file names *)

Lemma rsplit_dash_none s : Compare.rsplit_dash s = None ↔ Compare.has_dash s = false.
Proof.
  induction s as [|c s IH]; simpl; [split; reflexivity |].
  destruct (Compare.rsplit_dash s) as [[h t]|].
  - split; [discriminate |]. intros H. apply orb_false_elim in H as [_ H].
    apply IH in H. discriminate.
  - destruct (Ascii.eqb c "-"); simpl; [split; discriminate |].
    split; intros _; [apply IH |]; reflexivity.
Qed.

Lemma rsplit_dash_app config run :
  Compare.has_dash run = false →
  Compare.rsplit_dash (config ++ String "-" run) = Some (config, run).
Proof.
  intros Hrun. induction config as [|c config IH]; simpl.
  - apply rsplit_dash_none in Hrun. rewrite Hrun. reflexivity.
  - rewrite IH. reflexivity.
Qed.

Lemma rsplit_dash_some s config run :
  Compare.rsplit_dash s = Some (config, run) →
  s = config ++ String "-" run ∧ Compare.has_dash run = false.
Proof.
  revert config. induction s as [|c s IH]; intros config; simpl; [discriminate |].
  destruct (Compare.rsplit_dash s) as [[h t]|] eqn:Hs.
  - intros [= <- <-]. destruct (IH h eq_refl) as [-> Ht].
    split; [reflexivity | exact Ht].
  - destruct (Ascii.eqb_spec c "-") as [-> | Hne]; [| discriminate].
    intros [= <- <-]. split; [reflexivity | apply rsplit_dash_none, Hs].
Qed.

Lemma digit_of_nonneg c d : Py.digit_of c = Some d → 0 ≤ d.
Proof.
  unfold Py.digit_of.
  destruct ((48 <=? N_of_ascii c)%N && (N_of_ascii c <=? 57)%N) eqn:H;
    [| discriminate].
  intros [= <-]. apply andb_true_iff in H as [H _]. apply N.leb_le in H. lia.
Qed.

Lemma int_digits_nonneg s acc b n :
  0 ≤ acc → Py.int_digits s acc b = Some n → 0 ≤ n.
Proof.
  revert acc b. induction s as [|c s IH]; intros acc b Hacc; simpl.
  - destruct b; [intros [= <-]; exact Hacc | discriminate].
  - destruct (Py.digit_of c) as [d|] eqn:Hd.
    + apply IH. apply digit_of_nonneg in Hd. lia.
    + destruct (Ascii.eqb c "_"); [| discriminate].
      destruct b; [apply IH, Hacc | discriminate].
Qed.

Lemma lstrip_with_no_dash sp s :
  Compare.has_dash s = false → Compare.has_dash (Py.lstrip_with sp s) = false.
Proof.
  induction s as [|c s IH]; simpl; [reflexivity |].
  intros H. destruct (sp c); [| exact H].
  apply orb_false_elim in H as [_ H]. apply IH, H.
Qed.

Lemma rstrip_with_no_dash sp s :
  Compare.has_dash s = false → Compare.has_dash (Py.rstrip_with sp s) = false.
Proof.
  induction s as [|c s IH]; simpl; [reflexivity |].
  intros H. apply orb_false_elim in H as [Hc H]. specialize (IH H).
  destruct (Py.rstrip_with sp s) as [|c' r].
  - destruct (sp c); simpl; [reflexivity |]. rewrite Hc. reflexivity.
  - simpl in *. rewrite Hc. exact IH.
Qed.

Lemma int_of_str_no_dash_nonneg s n :
  Compare.has_dash s = false → Py.int_of_str s = Some n → 0 ≤ n.
Proof.
  intros Hs. unfold Py.int_of_str.
  pose proof (rstrip_with_no_dash Py.int_space _
                (lstrip_with_no_dash Py.int_space s Hs)) as Hr.
  destruct (Py.rstrip_with Py.int_space (Py.lstrip_with Py.int_space s))
    as [|c r]; [discriminate |].
  simpl in Hr. apply orb_false_elim in Hr as [Hc _].
  destruct (Ascii.eqb_spec c "-") as [-> | Hne]; [discriminate |].
  assert (∀ t m, Py.int_numeral t = Some m → 0 ≤ m) as Hnum.
  { intros t m. unfold Py.int_numeral.
    destruct (Py.max_str_digits <? Py.count_digits t); [discriminate |].
    apply int_digits_nonneg. lia. }
  pose proof (Hnum (String c r)) as Hplain. pose proof (Hnum r) as Htail.
  destruct c as [[] [] [] [] [] [] [] []]; try (apply Hplain); try (apply Htail).
  contradiction.
Qed.

(** A file name splits at its last dash.  [split_filename] succeeds
    exactly on the stems of the form config-run whose run part has no
    dash and reads as an integer ([int()] accepts it, which excludes a
    numeral of more than 4300 digits); the configuration is everything
    before the last dash (it may contain dashes itself), and the run
    number is never negative.  A stem without a dash raises. *)
Theorem split_filename_splits_at_last_dash stem :
  (∀ config n, Compare.split_filename stem = Some (config, n) ↔
     ∃ run, stem = config ++ String "-" run
          ∧ Compare.has_dash run = false ∧ Py.int_of_str run = Some n)
  ∧ (∀ config n, Compare.split_filename stem = Some (config, n) → 0 ≤ n)
  ∧ (Compare.has_dash stem = false → Compare.split_filename stem = None).
Proof.
  assert (∀ config n, Compare.split_filename stem = Some (config, n) ↔
            ∃ run, stem = config ++ String "-" run
                 ∧ Compare.has_dash run = false ∧ Py.int_of_str run = Some n)
    as Hiff.
  { intros config n. unfold Compare.split_filename. split.
    - destruct (Compare.rsplit_dash stem) as [[h t]|] eqn:Hs; [| discriminate].
      destruct (Py.int_of_str t) as [m|] eqn:Ht; [| discriminate].
      intros [= <- <-]. apply rsplit_dash_some in Hs as [-> Hd]. eauto.
    - intros (run & -> & Hd & Hn). rewrite (rsplit_dash_app _ _ Hd), Hn.
      reflexivity. }
  split; [exact Hiff |]. split.
  - intros config n H. apply Hiff in H as (run & _ & Hd & Hn).
    exact (int_of_str_no_dash_nonneg run n Hd Hn).
  - intros Hd. unfold Compare.split_filename.
    apply rsplit_dash_none in Hd. rewrite Hd. reflexivity.
Qed.

Lemma select_configs_sound stems baseline target :
  Compare.select_configs stems = Some (baseline, target) →
  baseline ≠ target
  ∧ (∃ first rest n, stems = first :: rest
                     ∧ Compare.split_filename first = Some (baseline, n))
  ∧ (∃ stem n, stem ∈ stems ∧ Compare.split_filename stem = Some (target, n))
  ∧ ∀ stem, stem ∈ stems →
      ∃ config n, Compare.split_filename stem = Some (config, n)
                  ∧ (config = baseline ∨ config = target).
Proof.
  unfold Compare.select_configs. destruct stems as [|first rest]; [discriminate |].
  destruct (Compare.split_filename first) as [[b n0]|] eqn:Hfirst; [| discriminate].
  destruct (mapM Compare.split_filename (first :: rest)) as [splits|] eqn:Hmap;
    [| discriminate].
  destruct (Nat.eqb_spec (size (list_to_set (map fst splits) : gset string)) 2)
    as [Hsize | Hsize]; [| discriminate].
  destruct (elements _) as [|t ts] eqn:Hel; [discriminate |].
  intros [= <- <-].
  apply mapM_Some in Hmap.
  assert (t ∈ (list_to_set (map fst splits) : gset string) ∖ {[b]}) as Ht.
  { apply elem_of_elements. rewrite Hel. left. }
  apply elem_of_difference in Ht as [Ht Htb].
  rewrite elem_of_singleton in Htb.
  assert (∀ config, config ∈ (list_to_set (map fst splits) : gset string) ↔
            ∃ stem n, stem ∈ first :: rest
                      ∧ Compare.split_filename stem = Some (config, n)) as Hconf.
  { intros config. rewrite elem_of_list_to_set, list_elem_of_fmap. split.
    - intros ([cfg n] & -> & Hin). simpl.
      apply list_elem_of_lookup in Hin as [i Hi].
      destruct (Forall2_lookup_r _ _ _ _ _ Hmap Hi) as (stem & Hstem & Hsplit).
      exists stem, n. split; [eapply list_elem_of_lookup_2, Hstem | exact Hsplit].
    - intros (stem & n & Hin & Hsplit).
      apply list_elem_of_lookup in Hin as [i Hi].
      destruct (Forall2_lookup_l _ _ _ _ _ Hmap Hi) as (y & Hy & Hsplit').
      rewrite Hsplit in Hsplit'. injection Hsplit' as <-.
      exists (config, n). split; [reflexivity | eapply list_elem_of_lookup_2, Hy]. }
  assert (b ∈ (list_to_set (map fst splits) : gset string)) as Hb.
  { apply Hconf. exists first, n0. split; [left | exact Hfirst]. }
  split; [congruence |]. split; [eauto |]. split.
  - apply Hconf in Ht as (stem & n & Hin & Hsplit). eauto.
  - intros stem Hin.
    apply list_elem_of_lookup in Hin as [i Hi].
    destruct (Forall2_lookup_l _ _ _ _ _ Hmap Hi) as ([config n] & Hy & Hsplit).
    exists config, n. split; [exact Hsplit |].
    destruct (decide (config = b)) as [-> | Hne]; [left; reflexivity |]. right.
    assert (config ∈ (list_to_set (map fst splits) : gset string)) as Hc.
    { apply Hconf. exists stem, n. split; [eapply list_elem_of_lookup_2, Hi | exact Hsplit]. }
    assert (size ((list_to_set (map fst splits) : gset string) ∖ {[b]}) = 1%nat)
      as Hone.
    { rewrite size_difference by (apply singleton_subseteq_l, Hb).
      rewrite size_singleton, Hsize. reflexivity. }
    apply (size_singleton_inv _ _ _ Hone); apply elem_of_difference;
      (split; [assumption | rewrite elem_of_singleton; assumption]).
Qed.

Lemma select_configs_complete first rest n baseline target :
  Compare.split_filename first = Some (baseline, n) →
  baseline ≠ target →
  (∃ stem m, stem ∈ first :: rest ∧ Compare.split_filename stem = Some (target, m)) →
  (∀ stem, stem ∈ first :: rest →
     ∃ config m, Compare.split_filename stem = Some (config, m)
                 ∧ (config = baseline ∨ config = target)) →
  Compare.select_configs (first :: rest) = Some (baseline, target).
Proof.
  intros Hfirst Hne (st & m & Hst & Hsplit) Hall.
  unfold Compare.select_configs. rewrite Hfirst.
  assert (is_Some (mapM Compare.split_filename (first :: rest))) as [splits Hmap].
  { apply mapM_is_Some, Forall_forall. intros stem Hin.
    destruct (Hall stem Hin) as (config & k & Hk & _). simpl. rewrite Hk. eauto. }
  rewrite Hmap. apply mapM_Some in Hmap.
  assert ((list_to_set (map fst splits) : gset string) = {[baseline; target]}) as ->.
  { apply set_eq. intros config.
    rewrite elem_of_list_to_set, list_elem_of_fmap, elem_of_union, !elem_of_singleton.
    split.
    - intros ([cfg k] & -> & Hin). simpl.
      apply list_elem_of_lookup in Hin as [i Hi].
      destruct (Forall2_lookup_r _ _ _ _ _ Hmap Hi) as (stem & Hstem & Hs).
      destruct (Hall stem (list_elem_of_lookup_2 _ _ _ Hstem))
        as (config & k' & Hk & Hor).
      rewrite Hs in Hk. injection Hk as <- <-. exact Hor.
    - assert (∀ stem cfg k, stem ∈ first :: rest →
                Compare.split_filename stem = Some (cfg, k) →
                ∃ y, cfg = y.1 ∧ y ∈ splits) as Hin.
      { intros stem cfg k Hin Hs.
        apply list_elem_of_lookup in Hin as [i Hi].
        destruct (Forall2_lookup_l _ _ _ _ _ Hmap Hi) as (y & Hy & Hs').
        rewrite Hs in Hs'. injection Hs' as <-.
        exists (cfg, k). split; [reflexivity | eapply list_elem_of_lookup_2, Hy]. }
      intros [-> | ->].
      + apply (Hin first baseline n); [left | exact Hfirst].
      + apply (Hin st target m); assumption. }
  assert (({[baseline; target]} : gset string) ∖ {[baseline]} = {[target]}) as ->.
  { apply set_eq. intros x.
    rewrite elem_of_difference, elem_of_union, !elem_of_singleton.
    split; [intros [[-> | ->] Hx]; [contradiction | reflexivity]
           | intros ->; split; [right; reflexivity | congruence]]. }
  rewrite size_union by (apply disjoint_singleton_l; rewrite elem_of_singleton; exact Hne).
  rewrite !size_singleton, elements_singleton. reflexivity.
Qed.

(** Baseline and target.  [main] settles on a baseline and a target
    exactly when every file name splits and the files have exactly two
    configurations: the two are different, the baseline is that of the
    first file, the target is that of some file, and every file belongs
    to one of the two.  In every other case it raises. *)
Theorem select_configs_picks_the_two_configurations stems baseline target :
  Compare.select_configs stems = Some (baseline, target)
  ↔ baseline ≠ target
    ∧ (∃ first rest n, stems = first :: rest
                       ∧ Compare.split_filename first = Some (baseline, n))
    ∧ (∃ stem n, stem ∈ stems ∧ Compare.split_filename stem = Some (target, n))
    ∧ ∀ stem, stem ∈ stems →
        ∃ config n, Compare.split_filename stem = Some (config, n)
                    ∧ (config = baseline ∨ config = target).
Proof.
  split; [apply select_configs_sound |].
  intros (Hne & (first & rest & n & -> & Hfirst) & Htarget & Hall).
  exact (select_configs_complete first rest n baseline target Hfirst Hne Htarget Hall).
Qed.

(** ** The further properties on the test vectors *)

(** An undecodable line is skipped. *)
Lemma ignored_line_witness :
  Sample.json_loads "not json" = None
  ∧ ingest_line Sample.json_loads Sample.float_of_str empty_ctx "not json"
    = Ok empty_ctx.
Proof.
  split; [reflexivity |].
  apply ignored_line_leaves_context. right. left. reflexivity.
Defined.

(** The job start of the scenario maps stage 1 to job 5 and no other
    stage. *)
Lemma job_start_witness :
  ingest_event Sample.float_of_str empty_ctx
    (Sample.job_start Sample.Legacy 5 [1] "7") = Ok Sample.job_ctx
  ∧ ∀ s, stage_job Sample.job_ctx !! s
         = if bool_decide (Some s ∈ [Some 1]) then Some 5
           else stage_job empty_ctx !! s.
Proof.
  split; [vm_compute; reflexivity |].
  apply (job_start_maps_its_stages Sample.float_of_str empty_ctx
           (Sample.job_start Sample.Legacy 5 [1] "7") Sample.job_ctx 5 [Some 1]);
    vm_compute; reflexivity.
Defined.

(** The task of the scenario lasts 1500 - 1000 ms. *)
Lemma task_duration_witness :
  task_record Sample.float_of_str 1 (Sample.scenario_task Sample.Legacy)
    = Ok ((1, Some 0), Sample.scenario_rec)
  ∧ TaskRec.duration_ms Sample.scenario_rec = Z.max 0 (1500 - 1000)
  ∧ 0 ≤ TaskRec.duration_ms Sample.scenario_rec.
Proof.
  assert (task_record Sample.float_of_str 1 (Sample.scenario_task Sample.Legacy)
          = Ok ((1, Some 0), Sample.scenario_rec)) as H by (vm_compute; reflexivity).
  split; [exact H |].
  exact (task_duration_is_clamped_or_run_time Sample.float_of_str 1 _ _ _ H).
Defined.

(** The store after the log of the unfinished and the late task. *)
Lemma task_store_witness :
  ingest_paths Sample.json_loads Sample.float_of_str empty_ctx Sample.gap_log
    = Ok Sample.gap_ctx
  ∧ NoDup (map fst (tasks_by_key Sample.gap_ctx)).
Proof.
  assert (ingest_paths Sample.json_loads Sample.float_of_str empty_ctx Sample.gap_log
          = Ok Sample.gap_ctx) as H by (vm_compute; reflexivity).
  split; [exact H |].
  exact (proj1 (task_store_has_one_record_per_key Sample.json_loads
                  Sample.float_of_str Sample.gap_log Sample.gap_ctx H)).
Defined.

(** Two failures and then a success of the same task: the success is
    the record retained. *)
Lemma first_success_witness :
  ingest_paths Sample.json_loads Sample.float_of_str empty_ctx Sample.attempts_log
    = Ok Sample.attempts_ctx
  ∧ ODict.get (tasks_by_key Sample.attempts_ctx) (1, Some 0)
    = first_success_or_first
        (records_for Sample.float_of_str (1, Some 0)
           (events_of_paths Sample.json_loads Sample.attempts_log))
  ∧ first_success_or_first
      (records_for Sample.float_of_str (1, Some 0)
         (events_of_paths Sample.json_loads Sample.attempts_log))
    = Some Sample.retry_success_rec.
Proof.
  assert (ingest_paths Sample.json_loads Sample.float_of_str empty_ctx
            Sample.attempts_log = Ok Sample.attempts_ctx) as H
    by (vm_compute; reflexivity).
  split; [exact H |]. split; [| vm_compute; reflexivity].
  exact (task_store_keeps_first_success_or_first Sample.json_loads
           Sample.float_of_str Sample.attempts_log Sample.attempts_ctx (1, Some 0) H).
Defined.

(** The log of the unfinished and the late task gives one row. *)
Lemma one_row_witness :
  analyze_sql_breakdown Sample.json_loads Sample.float_of_str Sample.gap_log
    = Ok [Sample.gap_row]
  ∧ NoDup (map ResultRow.executionId [Sample.gap_row]).
Proof.
  assert (analyze_sql_breakdown Sample.json_loads Sample.float_of_str Sample.gap_log
          = Ok [Sample.gap_row]) as H by (vm_compute; reflexivity).
  split; [exact H |].
  exact (proj1 (one_row_per_execution Sample.json_loads Sample.float_of_str
                  Sample.gap_log _ H)).
Defined.

(** That row counts both attributable tasks, and one job. *)
Lemma rows_count_witness :
  ingest_paths Sample.json_loads Sample.float_of_str empty_ctx Sample.gap_log
    = Ok Sample.gap_ctx
  ∧ finalize Sample.gap_ctx = Ok [Sample.gap_row]
  ∧ sum_list (map ResultRow.num_tasks [Sample.gap_row])
    = length (attributable_tasks Sample.gap_ctx).
Proof.
  assert (ingest_paths Sample.json_loads Sample.float_of_str empty_ctx Sample.gap_log
          = Ok Sample.gap_ctx) as H by (vm_compute; reflexivity).
  assert (finalize Sample.gap_ctx = Ok [Sample.gap_row]) as Hf
    by (vm_compute; reflexivity).
  split; [exact H |]. split; [exact Hf |].
  exact (proj2 (rows_count_every_attributed_task_once Sample.json_loads
                  Sample.float_of_str Sample.gap_log _ _ H Hf)).
Defined.

(** A log without a decodable line: no task, no row, exit status 2. *)
Lemma no_rows_witness :
  ingest_paths Sample.json_loads Sample.float_of_str empty_ctx [["not json"]]
    = Ok empty_ctx
  ∧ finalize empty_ctx = Ok []
  ∧ (exit_status (main Sample.json_loads Sample.float_of_str Sample.writable
                      [["not json"]] None) = 2
     ↔ attributable_tasks empty_ctx = []).
Proof.
  assert (ingest_paths Sample.json_loads Sample.float_of_str empty_ctx [["not json"]]
          = Ok empty_ctx) as H by (vm_compute; reflexivity).
  assert (finalize empty_ctx = Ok []) as Hf by (vm_compute; reflexivity).
  split; [exact H |]. split; [exact Hf |].
  exact (proj2 (no_rows_iff_no_attributable_task Sample.json_loads
                  Sample.float_of_str Sample.writable [["not json"]] empty_ctx
                  [] None H Hf)).
Defined.

(** The late task alone spans 100 ms; with the unfinished task the span
    is 500 ms. *)
Lemma makespan_grows_witness :
  aggregate_group empty_ctx 7 [Sample.late_rec]
    = Ok (Sample.row (Some 7) "" 0 1 (Some 100) 100 90 0%float (Some 0%float))
  ∧ aggregate_group empty_ctx 7 Sample.gap_tasks
    = Ok (Sample.row (Some 7) "" 0 2 (Some 500) 150 140 0%float (Some 0%float))
  ∧ ∃ m', Some 500 = Some m' ∧ 100 ≤ m'.
Proof.
  split; [vm_compute; reflexivity |]. split; [vm_compute; reflexivity |].
  apply (makespan_never_shrinks empty_ctx 7 [Sample.late_rec] Sample.gap_tasks
           (Sample.row (Some 7) "" 0 1 (Some 100) 100 90 0%float (Some 0%float))
           (Sample.row (Some 7) "" 0 2 (Some 500) 150 140 0%float (Some 0%float))
           100).
  - intros t Ht. apply list_elem_of_singleton in Ht as ->. right. left.
  - vm_compute. reflexivity.
  - vm_compute. reflexivity.
  - reflexivity.
Defined.

(** The scenario: the row shows the description of the start event. *)
Lemma description_witness :
  events_of_paths Sample.json_loads Sample.scenario_log
    = ([Sample.scenario_task Sample.Legacy]
       ++ Sample.sql_start Sample.Legacy 7 "benchmark q1-v2.4"
       :: [Sample.job_start Sample.Compact 5 [1] "7"])%list
  ∧ ingest_paths Sample.json_loads Sample.float_of_str empty_ctx
      Sample.scenario_log = Ok Sample.scenario_ctx
  ∧ finalize Sample.scenario_ctx = Ok [Sample.scenario_row]
  ∧ ∃ d, event_description (Sample.sql_start Sample.Legacy 7 "benchmark q1-v2.4")
         = Ok d
       ∧ ∀ r, r ∈ [Sample.scenario_row] → ResultRow.executionId r = Some 7 →
           ResultRow.description r = d.
Proof.
  assert (events_of_paths Sample.json_loads Sample.scenario_log
          = ([Sample.scenario_task Sample.Legacy]
             ++ Sample.sql_start Sample.Legacy 7 "benchmark q1-v2.4"
             :: [Sample.job_start Sample.Compact 5 [1] "7"])%list) as He
    by (vm_compute; reflexivity).
  assert (ingest_paths Sample.json_loads Sample.float_of_str empty_ctx
            Sample.scenario_log = Ok Sample.scenario_ctx) as H
    by (vm_compute; reflexivity).
  assert (finalize Sample.scenario_ctx = Ok [Sample.scenario_row]) as Hf
    by (vm_compute; reflexivity).
  split; [exact He |]. split; [exact H |]. split; [exact Hf |].
  apply (row_description_is_last_start_event Sample.json_loads
           Sample.float_of_str Sample.scenario_log
           [Sample.scenario_task Sample.Legacy]
           (Sample.sql_start Sample.Legacy 7 "benchmark q1-v2.4")
           [Sample.job_start Sample.Compact 5 [1] "7"]
           Sample.scenario_ctx [Sample.scenario_row] 7 He); [| | exact H | exact Hf].
  - vm_compute. reflexivity.
  - repeat (constructor; [vm_compute; reflexivity |]). constructor.
Defined.

(** The task end of the scenario before or after its job start: the
    same context. *)
Lemma task_end_swap_witness :
  foldM (ingest_event Sample.float_of_str) empty_ctx
    [Sample.job_start Sample.Legacy 5 [1] "7"; Sample.scenario_task Sample.Legacy]
    = Ok Sample.joined_ctx
  ∧ foldM (ingest_event Sample.float_of_str) empty_ctx
      [Sample.scenario_task Sample.Legacy; Sample.job_start Sample.Legacy 5 [1] "7"]
    = Ok Sample.joined_ctx.
Proof.
  split; [vm_compute; reflexivity |].
  apply (task_end_position_is_irrelevant Sample.float_of_str []
           (Sample.scenario_task Sample.Legacy)
           (Sample.job_start Sample.Legacy 5 [1] "7") [] empty_ctx);
    vm_compute; reflexivity.
Defined.

(** After the log of the unfinished and the late task, stage 1 maps to
    job 5 and job 5 to execution 7. *)
Lemma mappings_witness :
  ingest_paths Sample.json_loads Sample.float_of_str empty_ctx Sample.gap_log
    = Ok Sample.gap_ctx
  ∧ stage_job Sample.gap_ctx !! 1 = Some 5
  ∧ job_exec Sample.gap_ctx !! 5 = Some 7.
Proof.
  assert (ingest_paths Sample.json_loads Sample.float_of_str empty_ctx Sample.gap_log
          = Ok Sample.gap_ctx) as H by (vm_compute; reflexivity).
  split; [exact H |].
  destruct (mappings_take_the_last_job_start Sample.json_loads
              Sample.float_of_str Sample.gap_log _ H) as (Hs & Hj & _).
  split.
  - apply (Hs [] (Sample.job_start Sample.Legacy 5 [1] "7")
              [Sample.unfinished_task; Sample.late_task] 5 [Some 1] (Some 7) 1).
    + vm_compute. reflexivity.
    + vm_compute. reflexivity.
    + left.
    + repeat (constructor; [vm_compute; reflexivity |]). constructor.
  - apply (Hj [] (Sample.job_start Sample.Legacy 5 [1] "7")
              [Sample.unfinished_task; Sample.late_task] 5 [Some 1] 7).
    + vm_compute. reflexivity.
    + vm_compute. reflexivity.
    + repeat (constructor; [vm_compute; reflexivity |]). constructor.
Defined.

(** The row of execution 7 counts its one job. *)
Lemma num_jobs_witness :
  ingest_paths Sample.json_loads Sample.float_of_str empty_ctx Sample.gap_log
    = Ok Sample.gap_ctx
  ∧ finalize Sample.gap_ctx = Ok [Sample.gap_row]
  ∧ ∃ jobs : gset Z,
      ResultRow.num_jobs Sample.gap_row = size jobs
      ∧ ∀ j, j ∈ jobs ↔
          ∃ ev, ev ∈ events_of_paths Sample.json_loads Sample.gap_log
                ∧ maps_job_to j 7 ev = true.
Proof.
  assert (ingest_paths Sample.json_loads Sample.float_of_str empty_ctx Sample.gap_log
          = Ok Sample.gap_ctx) as H by (vm_compute; reflexivity).
  assert (finalize Sample.gap_ctx = Ok [Sample.gap_row]) as Hf
    by (vm_compute; reflexivity).
  split; [exact H |]. split; [exact Hf |].
  apply (num_jobs_counts_jobs_naming_the_execution Sample.json_loads
           Sample.float_of_str Sample.gap_log _ _ Sample.gap_row 7 H Hf);
    [left | reflexivity].
Defined.

(** An execution start whose description is a number raises. *)
Lemma escaping_exception_witness :
  ingest_event Sample.float_of_str empty_ctx Sample.numeric_description
    = Raise AttributeError
  ∧ event_description Sample.numeric_description = Raise AttributeError.
Proof.
  assert (ingest_event Sample.float_of_str empty_ctx Sample.numeric_description
          = Raise AttributeError) as H by (vm_compute; reflexivity).
  split; [exact H |].
  destruct (escaping_exceptions Sample.float_of_str _ _ _ H)
    as [(_ & _ & Hd) | [(Hj & _) | (Ht & _)]];
    [exact Hd | discriminate Hj | discriminate Ht].
Defined.

(** Three files of two configurations. *)
Lemma select_configs_witness :
  Compare.select_configs ["corretto-1"; "zing-1"; "corretto-2"]
    = Some ("corretto", "zing")
  ∧ "corretto" ≠ "zing".
Proof.
  assert (Compare.select_configs ["corretto-1"; "zing-1"; "corretto-2"]
          = Some ("corretto", "zing")) as H by (vm_compute; reflexivity).
  split; [exact H |].
  exact (proj1 (proj1 (select_configs_picks_the_two_configurations _ _ _) H)).
Defined.

(** The integer columns of the row of the unfinished and the late task
    add up to the totals over the two tasks. *)
Lemma integer_columns_witness :
  finalize Sample.gap_ctx = Ok [Sample.gap_row]
  ∧ Forall (λ col, sum (map (fst col) [Sample.gap_row])
                   = sum (map (snd col) (attributable_tasks Sample.gap_ctx)))
           int_columns.
Proof.
  assert (finalize Sample.gap_ctx = Ok [Sample.gap_row]) as Hf
    by (vm_compute; reflexivity).
  split; [exact Hf |].
  exact (integer_columns_add_up_over_attributed_tasks _ _ Hf).
Defined.

(** A total run time beyond the range of a double: the aggregation
    raises. *)
Example run_time_total_too_large_raises :
  finalize Sample.huge_run_ctx = Raise OverflowError.
Proof. vm_compute. reflexivity. Qed.

(** A run number of 4300 digits is read; one of 4301 digits is beyond the
    limit of [int()], and the file name does not split. *)
Example run_number_beyond_the_digit_limit :
  Compare.split_filename ("x-" ++ Sample.ones 4300)
    = Some ("x", (10 ^ 4300 - 1) / 9)
  ∧ Compare.split_filename ("x-" ++ Sample.ones 4301) = None.
Proof. split; vm_compute; reflexivity. Qed.
